(** * Sky-background generation ([photomitrus/sky/gen_sky.py])

    A shallow embedding of the sky generator of prime-photometry and the
    properties of its grouping controller, per-group combiner, cross-group
    aggregator, gap-filling cascade and output namer.

    Conventions of the embedding.
    - Python integers are [Z]; a file count is the [Z] image of a list length.
    - Samples are IEEE-754 binary64 numbers, Rocq's primitive [float]; the
      missing sentinel is NaN and [np.isnan] is [is_nan].
    - An image is a row-major [matrix], a [list (list float)]; the in-place
      updates of the source return the updated matrix.
    - Exceptions are values of [exn]; the calls to the file store
      ([os.listdir], [fits.getheader], [fits.getdata], [writeto],
      [plt.imsave]) are recorded, in order, in a trace of [event]s.
    - The store, reads and writes alike, and the two library filters whose
      result the generator only passes on ([sigma_clip],
      [ndimage.median_filter]) are the fields of an environment [Env]; each
      call of the store may raise.  [np.nanmedian] and [ndimage.uniform_filter] are
      written out as NumPy and SciPy document them.
    - [print] calls produce no value and are left out. *)

From Stdlib Require Import ZArith QArith Floats Uint63 Ascii.
From stdpp Require Import base tactics option list strings sorting numbers.
From stdpp Require pretty.

Local Open Scope Z_scope.

(** ** Exceptions and results *)

Inductive exn : Type :=
| IndexError
| ZeroDivisionError
| ValueError
| StoreError (name : string).

(** The class name Python reports for an exception. *)
Definition exn_name (e : exn) : string :=
  match e with
  | IndexError => "IndexError"
  | ZeroDivisionError => "ZeroDivisionError"
  | ValueError => "ValueError"
  | StoreError name => name
  end.

Inductive result (A : Type) : Type :=
| Ok (a : A)
| Raise (e : exn).
Arguments Ok {A} a.
Arguments Raise {A} e.

(** ** Python sequence operations *)

Section PySeq.
Context {A : Type}.

Definition len (l : list A) : Z := Z.of_nat (length l).

(** Clamping of a slice bound, as [slice.indices] does for step 1. *)
Definition slice_index (n i : Z) : Z :=
  if decide (i < 0) then Z.max (i + n) 0 else Z.min i n.

(** [l[start:stop]] *)
Definition py_slice (l : list A) (start stop : Z) : list A :=
  let lo := slice_index (len l) start in
  let hi := slice_index (len l) stop in
  take (Z.to_nat (hi - lo)) (drop (Z.to_nat lo) l).

(** [l[i]], negative indices counting from the end. *)
Definition py_index (l : list A) (i : Z) : result A :=
  let j := if decide (i < 0) then i + len l else i in
  if decide (j < 0) then Raise IndexError
  else match l !! Z.to_nat j with
       | Some x => Ok x
       | None => Raise IndexError
       end.
End PySeq.

(** ** Grouping controller (gen_sky.py, lines 78-85) *)

(** [int(a / b)]: true division then truncation towards zero.  The quotient
    of two integers is correctly rounded, so below 2^53 (any count of
    directory entries) truncating it gives the truncated exact quotient. *)
Definition int_truediv (a b : Z) : result Z :=
  if decide (b = 0) then Raise ZeroDivisionError else Ok (Z.quot a b).

(** The test of line 79, [ngroups*sky_group_size > nfiles]. *)
Definition overshoots (ngroups sky_group_size nfiles : Z) : bool :=
  bool_decide (ngroups * sky_group_size > nfiles).

(** Lines 78-80. *)
Definition group_count (nfiles sky_group_size : Z) : result Z :=
  match int_truediv nfiles sky_group_size with
  | Raise e => Raise e
  | Ok ngroups =>
      Ok (if overshoots ngroups sky_group_size nfiles then ngroups - 1 else ngroups)
  end.

(** The [group_files] slices taken by [iters] rounds of the loop of lines
    83-91, starting at [file_counter]. *)
Fixpoint group_slices (image_fnames : list string) (sky_group_size : Z)
    (iters : nat) (file_counter : Z) : list (list string) :=
  match iters with
  | O => []
  | S k =>
      py_slice image_fnames file_counter (file_counter + sky_group_size)
        :: group_slices image_fnames sky_group_size k (file_counter + sky_group_size)
  end.

(** [range(ngroups)] runs [ngroups] times, and not at all for [ngroups <= 0]. *)
Definition range_len (ngroups : Z) : nat := Z.to_nat ngroups.

(** The groups the controller forms from the sorted list. *)
Definition groups (image_fnames : list string) (sky_group_size : Z)
    : result (list (list string)) :=
  match group_count (len image_fnames) sky_group_size with
  | Raise e => Raise e
  | Ok ngroups => Ok (group_slices image_fnames sky_group_size (range_len ngroups) 0)
  end.

(** The files of the full groups: the first [floor(n/g)*g] entries, [g]
    being the group size or, when it is unset, the file count. *)
Definition full_groups_prefix (image_fnames : list string)
    (sky_group_size : option Z) : list string :=
  let g := default (len image_fnames) sky_group_size in
  take (Z.to_nat (len image_fnames `div` g * g)) image_fnames.

(** ** Strings *)

Definition chars (s : string) : list ascii := String.list_ascii_of_string s.
Definition str (l : list ascii) : string := String.string_of_list_ascii l.

(** [s.endswith(suffix)] *)
Definition endswith (s suffix : string) : bool :=
  bool_decide (chars suffix `suffix_of` chars s).

(** [s.startswith(prefix)] *)
Definition startswith (s prefix : string) : bool :=
  bool_decide (chars prefix `prefix_of` chars s).

(** [s[start:stop]] *)
Definition str_slice (s : string) (start stop : Z) : string :=
  str (py_slice (chars s) start stop).

(** [s[i]], a string of one character. *)
Definition str_index (s : string) (i : Z) : result string :=
  match py_index (chars s) i with
  | Ok c => Ok (String c "")
  | Raise e => Raise e
  end.

(** [os.path.join(a, b)] of posixpath. *)
Definition path_join (a b : string) : string :=
  if startswith b "/" then b
  else if bool_decide (a = "") || endswith a "/" then a +:+ b
  else a +:+ "/" +:+ b.

(** ** Headers *)

(** A header is the ordered list of its cards, each value as [str] renders
    it. *)
Definition header : Type := list (string * string).

(** [header.get(key, default)] *)
Fixpoint header_get (hdr : header) (key default : string) : string :=
  match hdr with
  | [] => default
  | (k, v) :: rest => if bool_decide (k = key) then v else header_get rest key default
  end.

(** ** Images and missing-ignoring medians *)

Abbreviation matrix := (list (list float)).

Definition isnan (x : float) : bool := PrimFloat.is_nan x.

(** [image.shape[0]] and [image.shape[1]]. *)
Definition shape0 (img : matrix) : Z := len img.
Definition shape1 (img : matrix) : Z :=
  match img with
  | [] => 0
  | row :: _ => len row
  end.

(** [np.count_nonzero(np.isnan(image))] *)
Definition count_nan (img : matrix) : Z :=
  len (filter (λ x, isnan x = true) (concat img)).

(** [100 * np.count_nonzero(np.isnan(image)) / (image.shape[0] * image.shape[1])],
    a true division of Python integers, kept as the exact quotient: rounding
    it to a float is monotone, so its comparison with a threshold that is a
    float is that of the exact quotient. *)
Definition nan_percentage (count rows cols : Z) : result Q :=
  if decide (rows * cols = 0) then Raise ZeroDivisionError
  else Ok (inject_Z (100 * count) / inject_Z (rows * cols))%Q.

Definition nan_percent (img : matrix) : result Q :=
  nan_percentage (count_nan img) (shape0 img) (shape1 img).

(** The order [<=] of floats, used to sort NaN-free samples. *)
Definition fle (x y : float) : Prop := PrimFloat.leb x y = true.
Global Instance fle_dec : RelDecision fle.
Proof. intros x y. unfold fle. apply _. Defined.

(** [np.median] of a non-empty NaN-free sequence, as NumPy documents it: the
    middle sample of the sorted sequence, or the mean of the two middle
    samples. *)
Definition median (v : list float) : float :=
  let sorted := merge_sort fle v in
  let n := length sorted in
  let h := (n / 2)%nat in
  if Nat.even n
  then ((default nan (sorted !! (h - 1)%nat) + default nan (sorted !! h)) / 2)%float
  else default nan (sorted !! h).

(** The samples that are not NaN. *)
Definition valid_samples (l : list float) : list float :=
  filter (λ x, isnan x = false) l.

(** [np.nanmedian] of a flat sequence: the median of the samples that are
    not NaN, and NaN when there is none. *)
Definition nanmedian1d (l : list float) : float :=
  match valid_samples l with
  | [] => nan
  | v => median v
  end.

(** [np.nanmedian(image)] *)
Definition nanmedian (img : matrix) : float := nanmedian1d (concat img).

(** [img[i, j]], when the position exists. *)
Definition sample_at (img : matrix) (i j : nat) : option float :=
  img !! i ≫= (.!! j).

(** The samples of all images at one position. *)
Definition samples_at (imgs : list matrix) (i j : nat) : list float :=
  fmap (λ m : matrix, default nan (sample_at m i j)) imgs.

(** Every sample of [a] that is not NaN is the sample of [b] at its place. *)
Definition valid_kept (a b : matrix) : Prop :=
  ∀ i j x, sample_at a i j = Some x → isnan x = false → sample_at b i j = Some x.

Definition same_shape (a b : matrix) : bool :=
  bool_decide (fmap length a = fmap length b).

(** [np.nanmedian(images, axis=0)] of a list of images: stacking needs one
    shape.  (On the empty list NumPy gives the scalar NaN, which has no
    rows; callers deal with that case.) *)
Definition nanmedian_axis0 (imgs : list matrix) : result matrix :=
  match imgs with
  | [] => Ok []
  | m0 :: rest =>
      if forallb (same_shape m0) rest
      then Ok (imap (λ i row, imap (λ j _, nanmedian1d (samples_at imgs i j)) row) m0)
      else Raise ValueError
  end.

(** [img / x] *)
Definition image_div (img : matrix) (x : float) : matrix :=
  fmap (λ row : list float, fmap (λ s, s / x)%float row) img.

(** [img / np.nanmedian(img)], line 88. *)
Definition normalize (img : matrix) : matrix := image_div img (nanmedian img).

(** The second operand of [image - sky]: a scalar or an image. *)
Inductive skyref : Type :=
| SkyScalar (x : float)
| SkyImage (m : matrix).

(** [image - sky] *)
Definition image_sub (img : matrix) (sky : skyref) : matrix :=
  match sky with
  | SkyScalar x => fmap (λ row : list float, fmap (λ s, s - x)%float row) img
  | SkyImage m => zip_with (zip_with PrimFloat.sub) img m
  end.

(** [image[mask] = np.nan] *)
Definition mask_nan (img : matrix) (mask : list (list bool)) : matrix :=
  zip_with (zip_with (λ (s : float) (b : bool), if b then nan else s)) img mask.

(** [image[np.isnan(image)] = other[np.isnan(image)]] *)
Definition fill_nan (img other : matrix) : matrix :=
  zip_with (zip_with (λ s o : float, if isnan s then o else s)) img other.

(** [image[np.isnan(image)] = x] *)
Definition fill_nan_scalar (img : matrix) (x : float) : matrix :=
  fmap (λ row : list float, fmap (λ s : float, if isnan s then x else s) row) img.

(** ** The store, its trace, and the monad of the pipeline *)

(** What the generator calls outside this module: the directory listing, the
    image store with its two writes, and two library filters whose results
    it only uses. *)
Record Env : Type := {
  os_listdir : string → result (list string);
  fits_getheader : string → result header;
  fits_getdata : string → result matrix;
  (** [sigma_clip(data, sigma, maxiters).mask] of astropy *)
  sigma_clip : matrix → float → Z → list (list bool);
  (** [ndimage.median_filter(image, size=size)] of SciPy *)
  ndimage_median_filter : matrix → Z → matrix;
  (** [plt.imsave(path, data, vmin=-1, vmax=1)] *)
  plt_imsave : string → matrix → result unit;
  (** [fits.HDUList([fits.PrimaryHDU(header=header, data=data)]).writeto(path,
      overwrite=overwrite)] *)
  writeto : string → header → matrix → bool → result unit;
}.

Inductive event : Type :=
| EvListdir (dir : string)
| EvGetHeader (path : string)
| EvGetData (path : string)
| EvImsave (path : string) (data : matrix)
| EvWriteTo (path : string) (hdr : header) (data : matrix) (overwrite : bool).

(** A computation yields the calls it made, in order, and its outcome. *)
Definition M (A : Type) : Type := list event * result A.

Global Instance M_ret : MRet M := λ A a, ([], Ok a).
Global Instance M_bind : MBind M := λ A B f m,
  match m with
  | (t, Ok a) => let '(t', r) := f a in (t ++ t', r)
  | (t, Raise e) => (t, Raise e)
  end.

Definition lift {A} (r : result A) : M A := ([], r).
Definition call {A} (e : event) (r : result A) : M A := ([e], r).

(** ** Outlier rejection (lines 26-31) *)

Definition sigma_clipped (env : Env) (image : matrix) (sigma : option float)
    (sky : skyref) : matrix :=
  match sigma with
  | None => image
  | Some s =>
      let masked_array := sigma_clip env (image_sub image sky) s 5 in
      mask_nan image masked_array
  end.

(** ** Local-median repair (lines 33-40) *)

(** The percentage of line 34 is only printed, but computing it divides by
    the sample count; line 38 divides by the same count again. *)
Definition median_filter_masking (env : Env) (image : matrix) (size : Z)
    : result matrix :=
  match nan_percent image with
  | Raise e => Raise e
  | Ok _ =>
      let median_filter_image := ndimage_median_filter env image size in
      Ok (fill_nan image median_filter_image)
  end.

(** ** [ndimage.uniform_filter(input, size=size, mode='constant')] *)

Definition float_of_Z (n : Z) : float := PrimFloat.of_uint63 (Uint63.of_Z n).

(** A line extended by [size/2] zeros before and [size - size/2 - 1] after. *)
Definition extend_constant (size : nat) (line : list float) : list float :=
  replicate (size / 2)%nat 0%float ++ line
    ++ replicate (size - size / 2 - 1)%nat 0%float.

(** The running mean: each step adds the sample entering the window and
    removes the one leaving it. *)
Fixpoint running_mean (size tmp : float) (l1 l2 : list float) : list float :=
  match l1, l2 with
  | a :: l1', b :: l2' =>
      let tmp' := (tmp + (b - a) / size)%float in
      tmp' :: running_mean size tmp' l1' l2'
  | _, _ => []
  end.

Definition uniform_filter1d (size : Z) (line : list float) : list float :=
  match line with
  | [] => []
  | _ =>
      let n := Z.to_nat size in
      let iline := extend_constant n line in
      let tmp := (foldl PrimFloat.add 0 (take n iline) / float_of_Z size)%float in
      tmp :: running_mean (float_of_Z size) tmp iline (drop n iline)
  end.

Definition column (img : matrix) (j : nat) : list float :=
  fmap (λ row : list float, default nan (row !! j)) img.

(** A one-dimensional filter applied along the columns, then along the rows. *)
Definition filter_axis0 (f : list float → list float) (img : matrix) : matrix :=
  let cols := fmap (λ j, f (column img j)) (seq 0 (Z.to_nat (shape1 img))) in
  imap (λ i row, imap (λ j _, default nan (cols !! j ≫= (.!! i))) row) img.

Definition filter_axis1 (f : list float → list float) (img : matrix) : matrix :=
  fmap f img.

(** Axes whose size is at most one are left alone. *)
Definition uniform_filter (img : matrix) (size : Z) : matrix :=
  if decide (size ≤ 1) then img
  else filter_axis1 (uniform_filter1d size) (filter_axis0 (uniform_filter1d size) img).

(** ** Local-mean repair (lines 42-59) *)

(** [footprint = disk(size)] is computed on line 43 and used by no later
    line; the filter of line 53 is the uniform filter.  The percentages of
    lines 50 and 57 divide by the same sample count as that of line 44. *)
Definition mean_filter_masking (env : Env) (image : matrix) (size : Z) : M matrix :=
  _ ← lift (nan_percent image);
  let filter_image := fill_nan_scalar image (nanmedian image) in
  _ ← call (EvImsave "filter_img.png" filter_image)
        (plt_imsave env "filter_img.png" filter_image);
  let mean_filter_image := uniform_filter filter_image size in
  _ ← lift (nan_percent mean_filter_image);
  mret (fill_nan image mean_filter_image).

(** ** File selection (lines 63-68) *)

Definition has_input_suffix (f : string) : bool :=
  endswith f ".ramp.new" || endswith f ".flat.fits".

(** The list comprehension of lines 63-64 over a directory listing. *)
Definition select_fnames (science_data_directory : string) (names : list string)
    : list string :=
  fmap (path_join science_data_directory) (filter (λ f, has_input_suffix f = true) names).

(** [image_fnames.sort()]: the order of [str], by character code. *)
Definition sort_fnames (image_fnames : list string) : list string :=
  merge_sort String.le image_fnames.

(** ** Output naming (lines 73-74) *)

(** ['sky.{}-{}.{}-{}.C{}.fits'.format(...)] *)
Definition format_save_name (filter1 filter2 seq_first seq_last detector : string)
    : string :=
  "sky." +:+ filter1 +:+ "-" +:+ filter2 +:+ "." +:+ seq_first +:+ "-"
    +:+ seq_last +:+ ".C" +:+ detector +:+ ".fits".

(** ** Per-group combination (lines 83-91) and aggregation (line 92) *)

(** [[sigma_clipped(fits.getdata(f), sigma) for f in group_files]] *)
Fixpoint load_group (env : Env) (sigma : option float) (group_files : list string)
    : M (list matrix) :=
  match group_files with
  | [] => mret []
  | f :: rest =>
      data ← call (EvGetData f) (fits_getdata env f);
      let image := sigma_clipped env data sigma (SkyScalar 0%float) in
      images ← load_group env sigma rest;
      mret (image :: images)
  end.

(** Lines 88 and 90: normalise each image, then the median across them. *)
Definition combine_group (images : list matrix) : result matrix :=
  nanmedian_axis0 (fmap normalize images).

(** The loop of lines 83-91, [iters] rounds from [file_counter]. *)
Fixpoint sky_loop (env : Env) (image_fnames : list string) (sky_group_size : Z)
    (sigma : option float) (iters : nat) (file_counter : Z)
    (median_array : list matrix) : M (list matrix) :=
  match iters with
  | O => mret median_array
  | S k =>
      let group_files :=
        py_slice image_fnames file_counter (file_counter + sky_group_size) in
      images ← load_group env sigma group_files;
      group_median ← lift (combine_group images);
      sky_loop env image_fnames sky_group_size sigma k
        (file_counter + sky_group_size) (median_array ++ [group_median])
  end.

(** Line 92.  With no group at all NumPy's result is the scalar NaN, and the
    next use of [sky.shape[0]] raises [IndexError]. *)
Definition aggregate (median_array : list matrix) : result matrix :=
  match median_array with
  | [] => Raise IndexError
  | _ => nanmedian_axis0 median_array
  end.

(** Lines 96-98: the remaining NaN samples take the median of the others. *)
Definition final_cleanup (sky : matrix) : matrix :=
  let median := nanmedian sky in
  fill_nan_scalar sky median.

(** ** The three generators *)

(** Lines 61-99. *)
Definition gen_sky_image (env : Env) (science_data_directory output_directory : string)
    (sky_group_size : option Z) (sigma : option float) (nan_thresh : Q) : M unit :=
  names ← call (EvListdir science_data_directory) (os_listdir env science_data_directory);
  let image_fnames := select_fnames science_data_directory names in
  let nfiles := len image_fnames in
  let sky_group_size := default nfiles sky_group_size in
  let image_fnames := sort_fnames image_fnames in
  last_fname ← lift (py_index image_fnames (-1));
  header ← call (EvGetHeader last_fname) (fits_getheader env last_fname);
  let filter1 := header_get header "FILTER1" "unknown" in
  let filter2 := header_get header "FILTER2" "unknown" in
  first_fname ← lift (py_index image_fnames 0);
  detector ← lift (str_index first_fname (-10));
  let save_name :=
    format_save_name filter1 filter2 (str_slice first_fname (-19) (-11))
      (str_slice last_fname (-19) (-11)) detector in
  ngroups ← lift (group_count nfiles sky_group_size);
  median_array ←
    sky_loop env image_fnames sky_group_size sigma (range_len ngroups) 0 [];
  sky ← lift (aggregate median_array);
  nan_percent ← lift (nan_percent sky);
  sky ← (if Qle_bool nan_thresh nan_percent
         then lift (median_filter_masking env sky 50)
         else mret sky);
  let sky := final_cleanup sky in
  call (EvWriteTo (output_directory +:+ save_name) header sky true)
    (writeto env (output_directory +:+ save_name) header sky true).

(** Lines 101-140. *)
Definition gen_flat_sky_image (env : Env) (science_data_directory output_directory : string)
    (sky_group_size : option Z) (sigma : option float) (nan_thresh : Q) : M unit :=
  names ← call (EvListdir science_data_directory) (os_listdir env science_data_directory);
  let image_fnames := select_fnames science_data_directory names in
  let nfiles := len image_fnames in
  let sky_group_size := default nfiles sky_group_size in
  let image_fnames := sort_fnames image_fnames in
  last_fname ← lift (py_index image_fnames (-1));
  header ← call (EvGetHeader last_fname) (fits_getheader env last_fname);
  let filter1 := header_get header "FILTER1" "unknown" in
  let filter2 := header_get header "FILTER2" "unknown" in
  first_fname ← lift (py_index image_fnames 0);
  detector ← lift (str_index first_fname (-11));
  let save_name :=
    format_save_name filter1 filter2 (str_slice first_fname (-20) (-12))
      (str_slice last_fname (-20) (-12)) detector in
  ngroups ← lift (group_count nfiles sky_group_size);
  median_array ←
    sky_loop env image_fnames sky_group_size sigma (range_len ngroups) 0 [];
  sky ← lift (aggregate median_array);
  nan_percent ← lift (nan_percent sky);
  sky ← (if Qle_bool nan_thresh nan_percent
         then mean_filter_masking env sky 30
         else mret sky);
  let sky := final_cleanup sky in
  call (EvWriteTo (output_directory +:+ save_name) header sky true)
    (writeto env (output_directory +:+ save_name) header sky true).

(** Lines 142-175: the local-mean repair always runs and no cleanup follows. *)
Definition gen_mean_flat_sky_image (env : Env)
    (science_data_directory output_directory : string)
    (sky_group_size : option Z) (sigma : option float) : M unit :=
  names ← call (EvListdir science_data_directory) (os_listdir env science_data_directory);
  let image_fnames := select_fnames science_data_directory names in
  let nfiles := len image_fnames in
  let sky_group_size := default nfiles sky_group_size in
  let image_fnames := sort_fnames image_fnames in
  last_fname ← lift (py_index image_fnames (-1));
  header ← call (EvGetHeader last_fname) (fits_getheader env last_fname);
  let filter1 := header_get header "FILTER1" "unknown" in
  let filter2 := header_get header "FILTER2" "unknown" in
  first_fname ← lift (py_index image_fnames 0);
  detector ← lift (str_index first_fname (-11));
  let save_name :=
    format_save_name filter1 filter2 (str_slice first_fname (-20) (-12))
      (str_slice last_fname (-20) (-12)) detector in
  ngroups ← lift (group_count nfiles sky_group_size);
  median_array ←
    sky_loop env image_fnames sky_group_size sigma (range_len ngroups) 0 [];
  sky ← lift (aggregate median_array);
  sky ← mean_filter_masking env sky 30;
  call (EvWriteTo (output_directory +:+ save_name) header sky true)
    (writeto env (output_directory +:+ save_name) header sky true).

(** ** Stores used in the examples *)

Definition example_header : header := [("FILTER1", "Open"); ("FILTER2", "J")].

(** A store with one directory [dir] holding the given files, every header
    being [example_header]; its clipping rejects nothing, its median
    filter returns the image, and every write succeeds. *)
Definition example_env (dir : string) (files : list (string * matrix)) : Env := {|
  os_listdir := λ d,
    if bool_decide (d = dir) then Ok (files.*1)
    else Raise (StoreError "FileNotFoundError");
  fits_getheader := λ _, Ok example_header;
  fits_getdata := λ path,
    match list_find (λ file, path_join dir file.1 = path) files with
    | Some (_, file) => Ok file.2
    | None => Raise (StoreError "FileNotFoundError")
    end;
  sigma_clip := λ img _ _, (λ row : list float, (λ _, false) <$> row) <$> img;
  ndimage_median_filter := λ img _, img;
  plt_imsave := λ _ _, Ok ();
  writeto := λ _ _ _ _, Ok ();
|}.

(** A frame of 35 samples, seventeen [-1], one [0], seventeen [1]: its
    median is [0]. *)
Definition example_balanced_frame : matrix :=
  [replicate 17 (-1)%float ++ [0%float] ++ replicate 17 1%float].

(** A frame whose samples are all zero. *)
Definition example_blank_frame : matrix := [[0; 0]; [0; 0]]%float.

(** Three frames of one shape; the first has a fully missing first row. *)
Definition example_group : list matrix :=
  [ [[nan; nan]; [1; 2]]; [[1; 3]; [2; 2]]; [[3; 5]; [4; 2]] ]%float.

(** ** The local mean the specification describes *)

(** The offsets [(di, dj)] of a disk of the given radius. *)
Definition disk_offsets (radius : Z) : list (Z * Z) :=
  filter (λ d, d.1 * d.1 + d.2 * d.2 ≤ radius * radius)
    (di ← seqZ (- radius) (2 * radius + 1);
     (λ dj, (di, dj)) <$> seqZ (- radius) (2 * radius + 1)).

(** Following the words of the specification, not the source: "a
    disk-shaped-neighborhood local mean (default radius 30) over the seeded
    matrix".  The mean at a position is taken over the samples of the image
    that lie in the disk around it; with [padded] the positions of the disk
    outside the image count as zeros, as in [mode='constant']. *)
Definition spec_disk_local_mean (padded : bool) (img : matrix) (radius : Z)
    : matrix :=
  imap (λ i row, imap (λ j _,
    let inside :=
      omap (λ d : Z * Z,
              let i' := Z.of_nat i + d.1 in
              let j' := Z.of_nat j + d.2 in
              if decide (0 ≤ i' ∧ 0 ≤ j')
              then sample_at img (Z.to_nat i') (Z.to_nat j') else None)
           (disk_offsets radius) in
    let count := if padded then len (disk_offsets radius) else len inside in
    (foldl PrimFloat.add 0 inside / float_of_Z count)%float) row) img.

(** A directory holding a frame of each suffix family and a file of
    neither. *)
Definition example_mixed_dir : list (string * matrix) :=
  [ ("01544957C1.ramp.new", [[1; 2]; [3; 4]]%float);
    ("notes.txt", []);
    ("01544958C1.flat.fits", [[1; 2]; [3; nan]]%float) ].

(** ** Masks *)

(** [mask[i, j]], when the position exists. *)
Definition mask_at (mask : list (list bool)) (i j : nat) : option bool :=
  mask !! i ≫= (.!! j).

(** ** Calls that write the output *)

(** The [writeto] calls of a trace. *)
Definition is_write (e : event) : bool :=
  match e with
  | EvWriteTo _ _ _ _ => true
  | _ => false
  end.

(** A run of a generator that either made one [writeto] call, as its last
    call, on a path that starts with the output directory, with
    [overwrite=True], and ended as that call did; or made no [writeto] call
    and raised. *)
Definition writes_once_at_end (env : Env) (output_directory : string)
    (run : M unit) : Prop :=
  (∃ t0 save_name hdr data,
     Forall (λ e, is_write e = false) t0
     ∧ run = (t0 ++ [EvWriteTo (output_directory +:+ save_name) hdr data true],
              writeto env (output_directory +:+ save_name) hdr data true))
  ∨ (∃ e, run.2 = Raise e ∧ Forall (λ e, is_write e = false) run.1).

(** The relation of a run of [gen_flat_sky_image] to the run of
    [gen_mean_flat_sky_image] it extends: the same calls and the same
    failure before the write; or the same calls up to the write, with the
    final cleanup applied to the matrix written, each run ending as its own
    write does. *)
Definition same_run_with_cleanup (env : Env) (flat mean_flat : M unit) : Prop :=
  (∃ t e, mean_flat = (t, Raise e) ∧ flat = (t, Raise e))
  ∨ (∃ t0 path hdr sky,
       mean_flat = (t0 ++ [EvWriteTo path hdr sky true],
                    writeto env path hdr sky true)
       ∧ flat = (t0 ++ [EvWriteTo path hdr (final_cleanup sky) true],
                 writeto env path hdr (final_cleanup sky) true)).

(** The store [example_env dir files] without an output directory: every
    [writeto] raises. *)
Definition example_unwritable_env (dir : string) (files : list (string * matrix))
    : Env := {|
  os_listdir := os_listdir (example_env dir files);
  fits_getheader := fits_getheader (example_env dir files);
  fits_getdata := fits_getdata (example_env dir files);
  sigma_clip := sigma_clip (example_env dir files);
  ndimage_median_filter := ndimage_median_filter (example_env dir files);
  plt_imsave := plt_imsave (example_env dir files);
  writeto := λ _ _ _ _, Raise (StoreError "FileNotFoundError");
|}.

(** A store of three frames whose second frame cannot be read. *)
Definition example_failing_env : Env := {|
  os_listdir := λ _,
    Ok ["00000003C1.ramp.new"; "00000001C1.ramp.new"; "00000002C1.ramp.new"];
  fits_getheader := λ _, Ok example_header;
  fits_getdata := λ path,
    if bool_decide (path = "d/00000002C1.ramp.new")
    then Raise (StoreError "OSError") else Ok [[1; 2]]%float;
  sigma_clip := sigma_clip (example_env "d" []);
  ndimage_median_filter := ndimage_median_filter (example_env "d" []);
  plt_imsave := plt_imsave (example_env "d" []);
  writeto := writeto (example_env "d" []);
|}.

(** * Astrometry file names ([photomitrus/preprocess/astromangle.py]) *)

(** [fnmatch(name, pat)] on a POSIX system (no case folding), for the
    patterns that hold no bracket expression: [?] stands for any one
    character, [*] for any run of characters, every other character for
    itself. *)
Fixpoint fnmatch_chars (pat name : list ascii) : bool :=
  match pat with
  | [] => bool_decide (name = [])
  | p :: pat' =>
      if bool_decide (p = "*"%char)
      then (fix star (name : list ascii) : bool :=
              fnmatch_chars pat' name
              || match name with
                 | [] => false
                 | _ :: name' => star name'
                 end) name
      else match name with
           | [] => false
           | c :: name' =>
               (bool_decide (p = "?"%char) || bool_decide (p = c))
               && fnmatch_chars pat' name'
           end
  end.

Definition fnmatch (name pat : string) : bool :=
  fnmatch_chars (chars pat) (chars name).

(** The test of the list comprehension of [get_files], lines 109-111. *)
Definition is_frame_name (f : string) : bool :=
  fnmatch f "????????C?.fits" || fnmatch f "????????C?.fits.ramp"
  || fnmatch f "????????C?.ramp.new" || fnmatch f "????????C?.ramp.fits"
  || fnmatch f "????????C?.sky.flat.fits".

(** [get_files], lines 106-113. *)
Definition get_files (env : Env) (directory : string) : M (list string) :=
  ls ← call (EvListdir directory) (os_listdir env directory);
  let fits_files := filter (λ f, is_frame_name f = true) ls in
  mret fits_files.

(** [s.replace(old, new)]: the occurrences of [old] are replaced from the
    left, none overlapping the one before it.  [skip] counts the characters
    of a replaced occurrence that are still to be passed over. *)
Fixpoint replace_from (old new : list ascii) (skip : nat) (s : list ascii)
    : list ascii :=
  match s with
  | [] => []
  | c :: s' =>
      match skip with
      | S k => replace_from old new k s'
      | O =>
          if bool_decide (old `prefix_of` s)
          then new ++ replace_from old new (length old - 1) s'
          else c :: replace_from old new 0 s'
      end
  end.

(** An empty [old] matches before every character and at the end. *)
Definition py_replace (s old new : string) : string :=
  match chars old with
  | [] => str (chars new ++ concat ((λ c, c :: chars new) <$> chars s))
  | _ => str (replace_from (chars old) (chars new) 0 (chars s))
  end.

(** The name a ramp takes when it is copied to the output directory, lines
    208 and 218. *)
Definition fnewname (f : string) : string := py_replace f ".ramp.fits" ".ramp.new".

(** * Orchestration ([photomitrus/multi_master.py]) and the directory passes
      of [astromangle.py]

    These functions call the operating system, the downloader, the
    per-detector pipeline [master] and [update_ra_dec], whose effects lie
    outside this development; the calls are recorded as [action]s and their
    outcomes are the fields of [Sys]. *)

(** The keyword arguments of a [download_data] call. *)
Record download_args : Type := {
  dl_date : string;
  dl_ip : string;
  dl_save_dir : string;
  dl_objname : string;
  dl_chip : string;
  dl_filter1 : string;
  dl_filter2 : string;
}.

(** The keyword arguments of a [master] call; a keyword that is not passed
    is [None]. *)
Record master_args : Type := {
  ma_parentdir : string;
  ma_chip : Z;
  ma_band : string;
  ma_sigma : option Z;
  ma_rot_val : float;
  ma_net_refine : option bool;
  ma_no_shift : option bool;
}.

Record Sys : Type := {
  store : Env;
  os_path_isdir : string → bool;
  os_path_isfile : string → bool;
  os_mkdir : string → result unit;
  shutil_copyfile : string → string → result unit;
  (** [update_ra_dec(fits_file)], lines 116-195: the header of the file is
      edited in place. *)
  update_ra_dec : string → result unit;
  download_data : download_args → result unit;
  master : master_args → result unit;
  (** [Popen(argv, ...)] and [subprocess.run(argv, check=True)] *)
  subprocess_Popen : list string → result unit;
  subprocess_run : list string → result unit;
}.

Inductive action : Type :=
| ActStore (e : event)
| ActIsdir (path : string)
| ActIsfile (path : string)
| ActMkdir (path : string)
| ActCopyfile (src dst : string)
| ActUpdateRaDec (path : string)
| ActDownload (args : download_args)
| ActMaster (args : master_args)
| ActPopen (argv : list string)
| ActWait (argv : list string)
| ActRun (argv : list string).

Definition P (A : Type) : Type := list action * result A.

Global Instance P_ret : MRet P := λ A a, ([], Ok a).
Global Instance P_bind : MBind P := λ A B f m,
  match m with
  | (t, Ok a) => let '(t', r) := f a in (t ++ t', r)
  | (t, Raise e) => (t, Raise e)
  end.

Definition act {A} (a : action) (r : result A) : P A := ([a], r).

(** A computation on the image store, run as part of an orchestration. *)
Definition on_store {A} (m : M A) : P A := (ActStore <$> m.1, m.2).

(** [for x in l: body(x)] *)
Fixpoint for_each {A} (l : list A) (body : A → P unit) : P unit :=
  match l with
  | [] => mret ()
  | x :: l' => _ ← body x; for_each l' body
  end.

(** [[f(x) for x in l]] *)
Fixpoint for_list {A B} (l : list A) (f : A → P B) : P (list B) :=
  match l with
  | [] => mret []
  | x :: l' => y ← f x; ys ← for_list l' f; mret (y :: ys)
  end.

(** [try: m except: pass] (the handler only prints). *)
Definition try_except {A} (m : P A) (handler : A) : P A :=
  match m with
  | (t, Raise _) => (t, Ok handler)
  | _ => m
  end.

(** [try: m except cls: pass] *)
Definition try_except_class {A} (m : P A) (cls : string) (handler : A) : P A :=
  match m with
  | (t, Raise e) => if bool_decide (exn_name e = cls) then (t, Ok handler) else m
  | _ => m
  end.

(** ** [astromangle.py]: the passes over a directory *)

(** Lines 198-201. *)
Definition update_ra_dec_directory (sys : Sys) (directory : string) : P unit :=
  names ← on_store (get_files (store sys) directory);
  let fits_files := path_join directory <$> names in
  for_each fits_files (λ fits_file,
    act (ActUpdateRaDec fits_file) (update_ra_dec sys fits_file)).

(** The body shared by lines 207-211 and 217-221. *)
Definition copy_and_update (sys : Sys) (input f output : string) : P unit :=
  let origpath := path_join input f in
  let newpath := path_join output (fnewname f) in
  _ ← act (ActCopyfile origpath newpath) (shutil_copyfile sys origpath newpath);
  act (ActUpdateRaDec newpath) (update_ra_dec sys newpath).

(** Lines 204-212; [sorted] orders the names as [list.sort] does. *)
Definition update_ra_dec_move_directory (sys : Sys) (input output : string) : P unit :=
  ls ← act (ActStore (EvListdir input)) (os_listdir (store sys) input);
  for_each (sort_fnames ls) (λ f,
    if endswith f ".ramp.fits" then copy_and_update sys input f output
    else mret ()).

(** Lines 215-222. *)
Definition update_ra_dec_move (sys : Sys) (f output : string) : P unit :=
  let input := "" in
  copy_and_update sys input f output.

(** Lines 249-259, after the parsing of the arguments; an [-output] that is
    absent or empty is [None]. *)
Definition astromangle_main (sys : Sys) (input : string) (output : option string)
    : P unit :=
  isdir ← act (ActIsdir input) (Ok (os_path_isdir sys input));
  if (isdir : bool) then
    match output with
    | Some output => update_ra_dec_move_directory sys input output
    | None => update_ra_dec_directory sys input
    end
  else
    isfile ← act (ActIsfile input) (Ok (os_path_isfile sys input));
    if (isfile : bool) then
      _ ← act (ActUpdateRaDec input) (update_ra_dec sys input);
      match output with
      | Some output => update_ra_dec_move sys input output
      | None => mret ()
      end
    else mret ().

(** ** [multi_master.py] *)

(** [str(x)] of an integer, also ['%s' % x] and ['%i' % x]. *)
Definition str_of_int (x : Z) : string := pretty.pretty x.

(** [sep.join(l)] *)
Fixpoint join (sep : string) (l : list string) : string :=
  match l with
  | [] => ""
  | [x] => x
  | x :: l' => x +:+ sep +:+ join sep l'
  end.

(** Lines 13-30. *)
Definition datadownload (sys : Sys) (parentdir target band date chip : string)
    : P unit :=
  isdir ← act (ActIsdir parentdir) (Ok (os_path_isdir sys parentdir));
  _ ← (if negb isdir then act (ActMkdir parentdir) (os_mkdir sys parentdir)
       else mret ());
  if bool_decide (band = "Z") then
    let args := {| dl_date := date; dl_ip := "192.168.212.22";
                   dl_save_dir := parentdir; dl_objname := target;
                   dl_chip := chip; dl_filter1 := band; dl_filter2 := "Open" |} in
    try_except (act (ActDownload args) (download_data sys args)) ()
  else
    let args := {| dl_date := date; dl_ip := "192.168.212.22";
                   dl_save_dir := parentdir; dl_objname := target;
                   dl_chip := chip; dl_filter1 := "Open"; dl_filter2 := band |} in
    try_except (act (ActDownload args) (download_data sys args)) ().

(** Lines 35-42. *)
Definition refineprocess (sys : Sys) (parentdir : string) (chip : Z) (band : string)
    (rot_val : float) : P unit :=
  let sigma :=
    if decide (chip = 1 ∨ chip = 2) then Some 4
    else if decide (chip = 3 ∨ chip = 4) then Some 6
    else None in
  let args := {| ma_parentdir := parentdir; ma_chip := chip; ma_band := band;
                 ma_sigma := sigma; ma_rot_val := rot_val;
                 ma_net_refine := Some true; ma_no_shift := None |} in
  act (ActMaster args) (master sys args).

(** Lines 45-52. *)
Definition shiftprocess (sys : Sys) (parentdir : string) (chip : Z) (band : string)
    (rot_val : float) : P unit :=
  let sigma :=
    if decide (chip = 1 ∨ chip = 2) then Some 4
    else if decide (chip = 3 ∨ chip = 4) then Some 6
    else None in
  let args := {| ma_parentdir := parentdir; ma_chip := chip; ma_band := band;
                 ma_sigma := sigma; ma_rot_val := rot_val;
                 ma_net_refine := None; ma_no_shift := None |} in
  act (ActMaster args) (master sys args).

(** Lines 55-62. *)
Definition baseprocess (sys : Sys) (parentdir : string) (chip : Z) (band : string)
    (rot_val : float) : P unit :=
  let sigma :=
    if decide (chip = 1 ∨ chip = 2) then Some 4
    else if decide (chip = 3 ∨ chip = 4) then Some 6
    else None in
  let args := {| ma_parentdir := parentdir; ma_chip := chip; ma_band := band;
                 ma_sigma := sigma; ma_rot_val := rot_val;
                 ma_net_refine := None; ma_no_shift := Some true |} in
  act (ActMaster args) (master sys args).

(** [c.isspace()] of a character of ASCII text. *)
Definition py_isspace (c : ascii) : bool :=
  let n := nat_of_ascii c in
  bool_decide (9 ≤ n ≤ 13 ∨ 28 ≤ n ≤ 32)%nat.

(** [s.split()]: the maximal runs of characters that are not whitespace.
    [cur] holds the run being read, last character first. *)
Fixpoint split_from (cur : list ascii) (s : list ascii) : list string :=
  match s with
  | [] =>
      match cur with
      | [] => []
      | _ => [str (reverse cur)]
      end
  | c :: s' =>
      if py_isspace c
      then match cur with
           | [] => split_from [] s'
           | _ => str (reverse cur) :: split_from [] s'
           end
      else split_from (c :: cur) s'
  end.

Definition py_split (s : string) : list string := split_from [] (chars s).

(** The command lines of lines 70-71, 83-84 and 94-95. *)
Definition refine_command (parentdir : string) (f : Z) (band : string) : string :=
  "python ./master.py -fpack -refine -angle -FF -sex -parent " +:+ parentdir
    +:+ " -chip " +:+ str_of_int f +:+ " -filter " +:+ band.

Definition check_command (parentdir : string) (chip : Z) (band : string) : string :=
  "python ./master.py -FF -skygen_start -fpack -parent " +:+ parentdir
    +:+ " -chip " +:+ str_of_int chip +:+ " -filter " +:+ band.

Definition check_parallel_command (parentdir : string) (f : Z) (band : string)
    : string :=
  "python ./master.py -fpack -angle -FF -sex -parent " +:+ parentdir
    +:+ " -chip " +:+ str_of_int f +:+ " -filter " +:+ band.

(** Lines 74-76 and 98-100: every process is started, then each is awaited. *)
Definition run_in_parallel (sys : Sys) (commands : list string) : P unit :=
  procs ← for_list commands (λ i,
             _ ← act (ActPopen (py_split i)) (subprocess_Popen sys (py_split i));
             mret (py_split i));
  for_each procs (λ p, act (ActWait p) (Ok ())).

(** Lines 67-76. *)
Definition refineprocessparallel (sys : Sys) (parentdir : string) (chips : list Z)
    (band : string) : P unit :=
  let commands := (λ f, refine_command parentdir f band) <$> chips in
  run_in_parallel sys commands.

(** Lines 81-88. *)
Definition checkprocess (sys : Sys) (parentdir : string) (chip : Z) (band : string)
    : P unit :=
  let command := check_command parentdir chip band in
  try_except_class
    (act (ActRun (py_split command)) (subprocess_run sys (py_split command)))
    "CalledProcessError" ().

(** Lines 91-100. *)
Definition checkprocessparallel (sys : Sys) (parentdir : string) (chips : list Z)
    (band : string) : P unit :=
  let commands := (λ f, check_parallel_command parentdir f band) <$> chips in
  run_in_parallel sys commands.

(** The truth value of [chip], an integer or [None]. *)
Definition chip_given (chip : option Z) : bool :=
  match chip with
  | Some c => bool_decide (c ≠ 0)
  | None => false
  end.

(** Lines 105-144. *)
Definition multi_master (sys : Sys) (parentdir target date band : string)
    (chip : option Z) (rot_val : float)
    (no_shift astromnet parallel no_download : bool) : P unit :=
  let parentdir := if bool_decide (parentdir = "") then "." else parentdir in
  let chips := if negb (chip_given chip) then [1; 2; 3; 4] else [default 0 chip] in
  _ ← (if no_download then mret ()
       else
         let chips_str := join "," (str_of_int <$> chips) in
         datadownload sys parentdir target band date chips_str);
  let chip_path :=
    if chip_given chip
    then path_join parentdir ("C" +:+ str_of_int (default 0 chip) +:+ "/")
    else path_join parentdir "C1/" in
  ls ← act (ActStore (EvListdir chip_path)) (os_listdir (store sys) chip_path);
  if bool_decide (ls = []) then mret ()
  else
    for_each chips (λ f,
      if astromnet then refineprocess sys parentdir f band rot_val
      else if negb no_shift then shiftprocess sys parentdir f band rot_val
      else baseprocess sys parentdir f band rot_val).

(** The keyword arguments with which the loop of lines 138-144 reaches
    [master] for the chip [f]: those of [refineprocess] when [astromnet] is
    set, else those of [shiftprocess] unless [no_shift] is set, else those
    of [baseprocess]. *)
Definition master_call (parentdir band : string) (rot_val : float)
    (no_shift astromnet : bool) (f : Z) : master_args := {|
  ma_parentdir := parentdir;
  ma_chip := f;
  ma_band := band;
  ma_sigma := if decide (f = 1 ∨ f = 2) then Some 4
              else if decide (f = 3 ∨ f = 4) then Some 6 else None;
  ma_rot_val := rot_val;
  ma_net_refine := if astromnet then Some true else None;
  ma_no_shift := if astromnet then None else if no_shift then Some true else None;
|}.

(** A host on which every call succeeds and the chip directories hold one
    file. *)
Definition example_sys : Sys := {|
  store := {| os_listdir := λ _, Ok ["00087801C1.fits.fz"];
              fits_getheader := λ _, Ok example_header;
              fits_getdata := λ _, Ok [];
              sigma_clip := sigma_clip (example_env "d" []);
              ndimage_median_filter := ndimage_median_filter (example_env "d" []);
              plt_imsave := plt_imsave (example_env "d" []);
              writeto := writeto (example_env "d" []) |};
  os_path_isdir := λ _, true;
  os_path_isfile := λ _, false;
  os_mkdir := λ _, Ok ();
  shutil_copyfile := λ _ _, Ok ();
  update_ra_dec := λ _, Ok ();
  download_data := λ _, Raise (StoreError "ConnectionError");
  master := λ _, Ok ();
  subprocess_Popen := λ _, Ok ();
  subprocess_run := λ _, Ok ();
|}.

(** * Properties *)

(** ** The embedded operations on small inputs *)

Example str_slice_sequence_id :
  str_slice "d/01544957C1.ramp.new" (-19) (-11) = "01544957".
Proof. reflexivity. Qed.

Example str_index_detector : str_index "d/01544957C1.ramp.new" (-10) = Ok "1".
Proof. reflexivity. Qed.

Example str_index_short : str_index ".ramp.new" (-10) = Raise IndexError.
Proof. reflexivity. Qed.

Example path_join_examples :
  path_join "d" "a.fits" = "d/a.fits" ∧ path_join "d/" "a.fits" = "d/a.fits"
  ∧ path_join "" "a.fits" = "a.fits" ∧ path_join "d" "/a.fits" = "/a.fits".
Proof. by vm_compute. Qed.

Example has_input_suffix_examples :
  has_input_suffix "01544957C1.ramp.new" = true
  ∧ has_input_suffix "01544957C1.flat.fits" = true
  ∧ has_input_suffix "01544957C1.fits" = false
  ∧ has_input_suffix "ramp.new" = false.
Proof. by vm_compute. Qed.

Example sort_fnames_example :
  sort_fnames ["d/b.ramp.new"; "d/a.ramp.new"; "d/B.ramp.new"]
  = ["d/B.ramp.new"; "d/a.ramp.new"; "d/b.ramp.new"].
Proof. by vm_compute. Qed.

Example nanmedian1d_examples :
  nanmedian1d [1; 5; nan; 3]%float = 3%float
  ∧ nanmedian1d [1; 5; nan; 3; 2]%float = 2.5%float
  ∧ nanmedian1d [nan; nan]%float = nan
  ∧ nanmedian1d [neg_infinity; infinity]%float = nan.
Proof. by vm_compute. Qed.

Example group_count_examples :
  group_count 6 3 = Ok 2 ∧ group_count 7 3 = Ok 2 ∧ group_count 2 3 = Ok 0
  ∧ group_count 5 0 = Raise ZeroDivisionError.
Proof. by vm_compute. Qed.

(** Six frames in groups of three: two group medians, one aggregate, no
    missing sample, and the repair does not run. *)
Example six_frames_in_two_groups :
  let frame (k : float) : matrix := [[k; (k + 1)%float]] in
  let env :=
    example_env "d"
      [("00000001C1.ramp.new", frame 1%float); ("00000002C1.ramp.new", frame 2%float);
       ("00000003C1.ramp.new", frame 3%float); ("00000004C1.ramp.new", frame 4%float);
       ("00000005C1.ramp.new", frame 5%float); ("00000006C1.ramp.new", frame 6%float)] in
  ∃ hdr sky,
    gen_sky_image env "d" "out/" (Some 3) None 3
    = ([EvListdir "d"; EvGetHeader "d/00000006C1.ramp.new";
        EvGetData "d/00000001C1.ramp.new"; EvGetData "d/00000002C1.ramp.new";
        EvGetData "d/00000003C1.ramp.new"; EvGetData "d/00000004C1.ramp.new";
        EvGetData "d/00000005C1.ramp.new"; EvGetData "d/00000006C1.ramp.new";
        EvWriteTo "out/sky.Open-J.00000001-00000006.C1.fits" hdr sky true], Ok ())
    ∧ count_nan sky = 0.
Proof. eexists _, _. split; by vm_compute. Qed.

(** ** Slices and groups *)

Lemma py_slice_in_range {A} (l : list A) (a b : Z) :
  0 ≤ a → a ≤ b → b ≤ len l →
  py_slice l a b = take (Z.to_nat (b - a)) (drop (Z.to_nat a) l).
Proof.
  intros Ha Hab Hb. unfold py_slice, slice_index.
  repeat case_decide; try lia.
  rewrite !Z.min_l by lia. done.
Qed.

Lemma length_py_slice_in_range {A} (l : list A) (a b : Z) :
  0 ≤ a → a ≤ b → b ≤ len l → len (py_slice l a b) = b - a.
Proof.
  intros. rewrite py_slice_in_range by done. unfold len in *.
  rewrite length_take, length_drop. lia.
Qed.

Lemma group_slices_concat fnames g k fc :
  0 < g → 0 ≤ fc → fc + Z.of_nat k * g ≤ len fnames →
  concat (group_slices fnames g k fc)
  = take (Z.to_nat (Z.of_nat k * g)) (drop (Z.to_nat fc) fnames).
Proof.
  intros Hg. revert fc. induction k as [|k IH]; intros fc Hfc Hle; simpl.
  - done.
  - rewrite IH by lia. rewrite py_slice_in_range by lia.
    replace (Z.to_nat (fc + g)) with (Z.to_nat fc + Z.to_nat g)%nat by lia.
    rewrite <- drop_drop.
    replace (fc + g - fc) with g by lia.
    rewrite take_take_drop. f_equal. lia.
Qed.

Lemma group_slices_length fnames g k fc : length (group_slices fnames g k fc) = k.
Proof. revert fc. induction k; intros; simpl; auto. Qed.

Lemma group_slices_lookup fnames g k fc i :
  (i < k)%nat →
  group_slices fnames g k fc !! i
  = Some (py_slice fnames (fc + Z.of_nat i * g) (fc + Z.of_nat i * g + g)).
Proof.
  revert fc i. induction k as [|k IH]; intros fc i Hi; [lia|].
  destruct i as [|i]; simpl.
  - do 2 f_equal; lia.
  - rewrite IH by lia. do 2 f_equal; lia.
Qed.

Lemma int_truediv_floor n g :
  0 ≤ n → 0 < g → int_truediv n g = Ok (n `div` g).
Proof.
  intros Hn Hg. unfold int_truediv. case_decide; [lia|].
  by rewrite Z.quot_div_nonneg by lia.
Qed.

Lemma floor_times_le n g : 0 ≤ n → 0 < g → n `div` g * g ≤ n.
Proof. intros. rewrite Z.mul_comm. apply Z.mul_div_le. lia. Qed.

Lemma group_count_floor n g :
  0 ≤ n → 0 < g → group_count n g = Ok (n `div` g).
Proof.
  intros Hn Hg. unfold group_count. rewrite int_truediv_floor by done.
  unfold overshoots. rewrite bool_decide_eq_false_2; [done|].
  pose proof (floor_times_le n g Hn Hg). lia.
Qed.

(** C2: for a file count [n >= 1] and a group size [g >= 1] the group count is
    [floor(n/g)]; the test guarding the decrement is false, since the count
    multiplied back by [g] does not exceed [n], so the count is never
    adjusted down.  ([int_truediv] is [int(n / g)] for the integers below
    2^53, which every count of directory entries is.) *)
Theorem C2_group_count_is_floor (n g : Z) :
  1 ≤ n → 1 ≤ g →
  int_truediv n g = Ok (n `div` g)
  ∧ n `div` g * g ≤ n
  ∧ overshoots (n `div` g) g n = false
  ∧ group_count n g = Ok (n `div` g).
Proof.
  intros Hn Hg. split_and!.
  - apply int_truediv_floor; lia.
  - apply floor_times_le; lia.
  - unfold overshoots. apply bool_decide_eq_false_2.
    pose proof (floor_times_le n g). lia.
  - apply group_count_floor; lia.
Qed.

Lemma C2_group_count_is_floor_witness :
  int_truediv 7 3 = Ok (7 `div` 3)
  ∧ 7 `div` 3 * 3 ≤ 7
  ∧ overshoots (7 `div` 3) 3 7 = false
  ∧ group_count 7 3 = Ok (7 `div` 3).
Proof. apply (C2_group_count_is_floor 7 3); lia. Defined.

Lemma group_slices_Forall_length fnames g k fc :
  0 < g → 0 ≤ fc → fc + Z.of_nat k * g ≤ len fnames →
  Forall (λ grp, len grp = g) (group_slices fnames g k fc).
Proof.
  intros Hg. revert fc. induction k as [|k IH]; intros fc Hfc Hle; simpl.
  - constructor.
  - constructor; [|apply IH; lia].
    rewrite length_py_slice_in_range; lia.
Qed.

Lemma py_slice_elem_lookup {A} (l : list A) (a b : Z) (x : A) :
  0 ≤ a → a ≤ b → b ≤ len l →
  x ∈ py_slice l a b →
  ∃ k : nat, (Z.to_nat a ≤ k < Z.to_nat b)%nat ∧ l !! k = Some x.
Proof.
  intros Ha Hab Hb Hx. rewrite py_slice_in_range in Hx by done.
  apply list_elem_of_lookup in Hx as [k Hk].
  apply lookup_take_Some in Hk as [Hk Hlt]. rewrite lookup_drop in Hk.
  exists (Z.to_nat a + k)%nat. split; [lia|done].
Qed.

Lemma groups_full fnames g :
  1 ≤ g → g ≤ len fnames →
  groups fnames g
  = Ok (group_slices fnames g (Z.to_nat (len fnames `div` g)) 0).
Proof.
  intros Hg Hn. unfold groups. rewrite group_count_floor; [done| |lia].
  unfold len. lia.
Qed.

(** C1 (as amended): for [n >= 1] files, without duplicates, and a group size
    [1 <= g <= n] the controller forms [floor(n/g)] groups, every one of
    exactly [g] members and pairwise disjoint; their concatenation is the
    first [floor(n/g)*g] entries of the sorted list, in order, and the
    [n mod g] entries after them are in no group (none when [g] divides
    [n]). *)
Theorem C1_groups_are_full_prefix (fnames : list string) (g : Z) :
  1 ≤ len fnames → 1 ≤ g ≤ len fnames → NoDup fnames →
  ∃ gs, groups fnames g = Ok gs
    ∧ len gs = len fnames `div` g
    ∧ Forall (λ grp, len grp = g) gs
    ∧ concat gs = take (Z.to_nat (len fnames `div` g * g)) fnames
    ∧ (∀ i j gi gj x, gs !! i = Some gi → gs !! j = Some gj →
                      x ∈ gi → x ∈ gj → i = j)
    ∧ fnames = concat gs ++ drop (Z.to_nat (len fnames `div` g * g)) fnames
    ∧ len (drop (Z.to_nat (len fnames `div` g * g)) fnames) = len fnames `mod` g.
Proof.
  intros Hn [Hg Hgn] Hnd.
  remember (len fnames) as n eqn:En.
  assert (Hq : 0 ≤ n `div` g) by (apply Z.div_pos; lia).
  assert (Hle : n `div` g * g ≤ n) by (apply floor_times_le; lia).
  assert (Hcat : concat (group_slices fnames g (Z.to_nat (n `div` g)) 0)
                 = take (Z.to_nat (n `div` g * g)) fnames).
  { rewrite group_slices_concat by lia.
    simpl. rewrite drop_0. f_equal. lia. }
  exists (group_slices fnames g (Z.to_nat (n `div` g)) 0).
  split; [rewrite En; apply groups_full; lia|]. split_and!.
  - unfold len. rewrite group_slices_length. lia.
  - apply group_slices_Forall_length; lia.
  - done.
  - intros i j gi gj x Hi Hj Hxi Hxj.
    assert (Hil := lookup_lt_Some _ _ _ Hi).
    assert (Hjl := lookup_lt_Some _ _ _ Hj).
    rewrite group_slices_length in Hil, Hjl.
    rewrite group_slices_lookup in Hi, Hj by done.
    injection Hi as <-. injection Hj as <-.
    assert (Hbound : ∀ m : nat, (m < Z.to_nat (n `div` g))%nat →
                                0 + Z.of_nat m * g + g ≤ len fnames).
    { intros m Hm.
      assert (Z.of_nat m + 1 ≤ n `div` g) by lia.
      assert ((Z.of_nat m + 1) * g ≤ n `div` g * g) by (apply Z.mul_le_mono_nonneg_r; lia).
      lia. }
    apply py_slice_elem_lookup in Hxi as (ki & Hki & Hi); [|lia|lia|by apply Hbound].
    apply py_slice_elem_lookup in Hxj as (kj & Hkj & Hj); [|lia|lia|by apply Hbound].
    pose proof (NoDup_lookup _ _ _ _ Hnd Hi Hj) as Heq. subst kj.
    assert (Z.of_nat i * g ≤ Z.of_nat ki < Z.of_nat i * g + g) by lia.
    assert (Z.of_nat j * g ≤ Z.of_nat ki < Z.of_nat j * g + g) by lia.
    destruct (decide (i = j)) as [|Hne]; [done|exfalso].
    destruct (decide (i < j)%nat).
    + assert ((Z.of_nat i + 1) * g ≤ Z.of_nat j * g) by (apply Z.mul_le_mono_nonneg_r; lia). lia.
    + assert ((Z.of_nat j + 1) * g ≤ Z.of_nat i * g) by (apply Z.mul_le_mono_nonneg_r; lia). lia.
  - by rewrite Hcat, take_drop.
  - unfold len. rewrite length_drop.
    pose proof (Z.div_mod n g ltac:(lia)). unfold len in En. lia.
Qed.

Lemma C1_groups_are_full_prefix_witness :
  let fnames := ["d/01C1.ramp.new"; "d/02C1.ramp.new"; "d/03C1.ramp.new";
                 "d/04C1.ramp.new"; "d/05C1.ramp.new"] in
  ∃ gs, groups fnames 2 = Ok gs
    ∧ len gs = len fnames `div` 2
    ∧ Forall (λ grp, len grp = 2) gs
    ∧ concat gs = take (Z.to_nat (len fnames `div` 2 * 2)) fnames
    ∧ (∀ i j gi gj x, gs !! i = Some gi → gs !! j = Some gj →
                      x ∈ gi → x ∈ gj → i = j)
    ∧ fnames = concat gs ++ drop (Z.to_nat (len fnames `div` 2 * 2)) fnames
    ∧ len (drop (Z.to_nat (len fnames `div` 2 * 2)) fnames) = len fnames `mod` 2.
Proof.
  intros fnames. apply (C1_groups_are_full_prefix fnames 2).
  - by vm_compute.
  - by vm_compute.
  - apply (bool_decide_unpack _). by vm_compute.
Defined.

(** C1 as stated fails: with three files and group size two the controller
    forms the single group of the first two files, and the third file is in
    no group. *)
Lemma C1_remainder_is_dropped :
  let fnames := ["d/01C1.ramp.new"; "d/02C1.ramp.new"; "d/03C1.ramp.new"] in
  1 ≤ len fnames ∧ 1 ≤ 2 ≤ len fnames
  ∧ groups fnames 2 = Ok [["d/01C1.ramp.new"; "d/02C1.ramp.new"]]
  ∧ concat [["d/01C1.ramp.new"; "d/02C1.ramp.new"]] ≠ fnames.
Proof. simpl. split_and!; try (vm_compute; congruence); done. Qed.

(** ** The monad of the pipeline *)

Lemma bind_lift_Ok {A B} (a : A) (f : A → M B) : lift (Ok a) ≫= f = f a.
Proof. unfold mbind, M_bind, lift. by destruct (f a). Qed.

Lemma bind_lift_Raise {A B} (e : exn) (f : A → M B) :
  lift (Raise e) ≫= f = ([], Raise e).
Proof. done. Qed.

Lemma bind_call_Ok {A B} (ev : event) (a : A) (f : A → M B) :
  call ev (Ok a) ≫= f = (ev :: (f a).1, (f a).2).
Proof. unfold mbind, M_bind, call. by destruct (f a). Qed.

Lemma bind_call_Raise {A B} (ev : event) (e : exn) (f : A → M B) :
  call ev (Raise e) ≫= f = ([ev], Raise e).
Proof. done. Qed.

Lemma bind_Ok {A B} (t : list event) (a : A) (f : A → M B) :
  ((t, Ok a) : M A) ≫= f = (t ++ (f a).1, (f a).2).
Proof. unfold mbind, M_bind. by destruct (f a). Qed.

Lemma bind_Raise {A B} (t : list event) (e : exn) (f : A → M B) :
  ((t, Raise e) : M A) ≫= f = (t, Raise e).
Proof. done. Qed.

Lemma bind_run {A B} (m : M A) (f : A → M B) t1 a t2 r :
  m = (t1, Ok a) → f a = (t2, r) → m ≫= f = (t1 ++ t2, r).
Proof. intros -> Hf. unfold mbind, M_bind. by rewrite Hf. Qed.

Lemma bind_Ok_inv {A B} (m : M A) (f : A → M B) t b :
  m ≫= f = (t, Ok b) →
  ∃ t1 a t2, m = (t1, Ok a) ∧ f a = (t2, Ok b) ∧ t = t1 ++ t2.
Proof.
  unfold mbind, M_bind. destruct m as [t1 [a|e]]; [|done].
  destruct (f a) as [t2 r] eqn:E. simpl. intros H.
  apply pair_equal_spec in H as [<- ->]. eauto 6.
Qed.

Ltac inv_bind H :=
  let t1 := fresh "t" in
  let a := fresh "a" in
  let H1 := fresh "Hstep" in
  apply bind_Ok_inv in H as (t1 & a & ? & H1 & H & ->).

(** ** IEEE-754 facts: which operations can produce NaN *)

Lemma shr_1_nonneg mrs : 0 ≤ shr_m mrs → 0 ≤ shr_m (shr_1 mrs).
Proof.
  destruct mrs as [m r s]; simpl. intros H.
  destruct m as [|p|p]; [simpl; lia| |lia]. destruct p; simpl; lia.
Qed.

Lemma iter_pos_shr_1_nonneg p mrs :
  0 ≤ shr_m mrs → 0 ≤ shr_m (SpecFloat.iter_pos shr_1 p mrs).
Proof.
  revert mrs. induction p as [p IH|p IH|]; intros mrs H; simpl.
  - apply IH, IH, shr_1_nonneg, H.
  - apply IH, IH, H.
  - apply shr_1_nonneg, H.
Qed.

Lemma shr_fexp_nonneg pr em m e l :
  0 ≤ m → 0 ≤ shr_m (shr_fexp pr em m e l).1.
Proof.
  intros H. unfold shr_fexp, shr.
  assert (0 ≤ shr_m (shr_record_of_loc m l)) by (destruct l as [|[]]; exact H).
  destruct (_ - e); simpl; auto using iter_pos_shr_1_nonneg.
Qed.

Lemma round_nearest_even_nonneg m l : 0 ≤ m → 0 ≤ round_nearest_even m l.
Proof.
  intros H. unfold round_nearest_even.
  destruct l as [|[]]; try lia. destruct (Z.even m); lia.
Qed.

Lemma binary_round_aux_not_nan pr em sx mx ex lx :
  0 ≤ mx → binary_round_aux pr em sx mx ex lx ≠ S754_nan.
Proof.
  intros H. unfold binary_round_aux.
  pose proof (shr_fexp_nonneg pr em mx ex lx H) as H1.
  destruct (shr_fexp pr em mx ex lx) as [mrs' e']. simpl in H1.
  pose proof (shr_fexp_nonneg pr em _ e' loc_Exact
                (round_nearest_even_nonneg _ (loc_of_shr_record mrs') H1)) as H2.
  destruct (shr_fexp pr em _ e' loc_Exact) as [mrs'' e'']. simpl in H2.
  destruct (shr_m mrs'') as [|p|p]; [discriminate| |lia].
  destruct (Z.leb e'' (em - pr)); discriminate.
Qed.

Lemma binary_normalize_not_nan pr em m e sz :
  binary_normalize pr em m e sz ≠ S754_nan.
Proof.
  unfold binary_normalize. destruct m as [|p|p]; [discriminate| |];
    unfold binary_round; destruct (shl_align _ _ _) as [mz ez];
    apply binary_round_aux_not_nan; lia.
Qed.

Lemma SFadd_not_nan pr em x y :
  x ≠ S754_nan → y ≠ S754_nan →
  ¬ (∃ s, x = S754_infinity s ∧ y = S754_infinity (negb s)) →
  SFadd pr em x y ≠ S754_nan.
Proof.
  intros Hx Hy Hinf.
  destruct x as [sx|sx| |sx mx ex], y as [sy|sy| |sy my ey]; simpl; try congruence;
    try (destruct sx, sy; simpl; congruence).
  - destruct sx, sy; simpl; try congruence;
      exfalso; apply Hinf; eexists; split; reflexivity.
  - apply binary_normalize_not_nan.
Qed.

Lemma SFdiv_finite_not_nan pr em x sy my ey :
  x ≠ S754_nan → SFdiv pr em x (S754_finite sy my ey) ≠ S754_nan.
Proof.
  intros Hx. destruct x as [sx|sx| |sx mx ex]; simpl; try congruence.
  destruct (SFdiv_core_binary pr em (Z.pos mx) ex (Z.pos my) ey)
    as [[mz ez] lz] eqn:E.
  apply binary_round_aux_not_nan.
  unfold SFdiv_core_binary in E.
  set (m' := match (ex - ey - _) with Z0 => _ | Zpos _ => _ | Zneg _ => _ end) in E.
  assert (0 ≤ m').
  { subst m'. destruct (_ - _ - _); try lia. apply Z.shiftl_nonneg. lia. }
  destruct (Z.div_eucl m' (Z.pos my)) as [q r] eqn:Ed. injection E as <- <- <-.
  pose proof (Z.div_pos m' (Z.pos my) ltac:(lia) ltac:(lia)) as Hq.
  unfold Z.div in Hq. by rewrite Ed in Hq.
Qed.

Lemma isnan_false_iff x : isnan x = false ↔ Prim2SF x ≠ S754_nan.
Proof.
  unfold isnan, is_nan. rewrite FloatAxioms.eqb_spec. unfold SFeqb, SFcompare.
  destruct (Prim2SF x) as [s|s| |s m e]; simpl.
  - split; [discriminate|reflexivity].
  - destruct s; split; (discriminate || reflexivity).
  - split; [discriminate|congruence].
  - rewrite Z.compare_refl, Pos.compare_cont_refl.
    destruct s; simpl; split; (discriminate || reflexivity).
Qed.

Lemma isnan_true_eq x : isnan x = true → x = nan.
Proof.
  intros H. apply Prim2SF_inj.
  destruct (Prim2SF x) eqn:E; try reflexivity;
    (assert (isnan x = false) by (apply isnan_false_iff; congruence); congruence).
Qed.

(** A sum is NaN only for a NaN operand or infinities of opposite signs. *)
Lemma add_not_nan a b :
  isnan a = false → isnan b = false →
  ¬ (a = infinity ∧ b = neg_infinity) → ¬ (a = neg_infinity ∧ b = infinity) →
  isnan (a + b) = false.
Proof.
  rewrite !isnan_false_iff. intros Ha Hb H1 H2.
  rewrite FloatAxioms.add_spec. apply SFadd_not_nan; [done..|].
  intros [s [Ea Eb]]. destruct s; simpl in Eb.
  - apply H2. split; apply Prim2SF_inj; by rewrite ?Ea, ?Eb.
  - apply H1. split; apply Prim2SF_inj; by rewrite ?Ea, ?Eb.
Qed.

Lemma half_not_nan a : isnan a = false → isnan (a / 2) = false.
Proof.
  rewrite !isnan_false_iff. intros Ha. rewrite FloatAxioms.div_spec.
  change (Prim2SF 2) with (S754_finite false 4503599627370496 (-51)).
  by apply SFdiv_finite_not_nan.
Qed.

(** ** Medians *)

Lemma valid_samples_elem l x : x ∈ valid_samples l ↔ isnan x = false ∧ x ∈ l.
Proof. unfold valid_samples. by rewrite list_elem_of_filter. Qed.

Lemma median_not_nan v :
  v ≠ [] → (∀ x, x ∈ v → isnan x = false) →
  ¬ (infinity ∈ v ∧ neg_infinity ∈ v) →
  isnan (median v) = false.
Proof.
  intros Hne Hv Hinf. unfold median. cbv zeta.
  pose proof (merge_sort_Permutation fle v) as Hp.
  set (sorted := merge_sort fle v) in *.
  assert (Hlen : length sorted ≠ 0%nat).
  { rewrite Hp. by destruct v. }
  assert (Hin : ∀ k x, sorted !! k = Some x → x ∈ v).
  { intros k x Hk. rewrite <- Hp. by eapply list_elem_of_lookup_2. }
  assert (Hh : (length sorted / 2 < length sorted)%nat)
    by (apply Nat.div_lt; lia).
  assert (Hh1 : (length sorted / 2 - 1 < length sorted)%nat) by lia.
  destruct (lookup_lt_is_Some_2 sorted _ Hh) as [b Hb].
  destruct (lookup_lt_is_Some_2 sorted _ Hh1) as [a Ha].
  rewrite Ha, Hb. simpl.
  destruct (Nat.even (length sorted)); [|by eapply Hv, Hin].
  apply half_not_nan, add_not_nan.
  - by eapply Hv, Hin.
  - by eapply Hv, Hin.
  - intros [-> ->]. apply Hinf. split; by eapply Hin.
  - intros [-> ->]. apply Hinf. split; by eapply Hin.
Qed.

Lemma nanmedian1d_all_nan l : valid_samples l = [] → nanmedian1d l = nan.
Proof. intros H. unfold nanmedian1d. by rewrite H. Qed.

Lemma nanmedian1d_valid l :
  valid_samples l ≠ [] → nanmedian1d l = median (valid_samples l).
Proof. intros H. unfold nanmedian1d. by destruct (valid_samples l). Qed.

(** The median of the valid samples is valid unless they hold infinities of
    both signs. *)
Lemma nanmedian1d_not_nan l :
  valid_samples l ≠ [] → ¬ (infinity ∈ l ∧ neg_infinity ∈ l) →
  isnan (nanmedian1d l) = false.
Proof.
  intros Hne Hinf. rewrite nanmedian1d_valid by done.
  apply median_not_nan; [done| |].
  - intros x Hx. by apply valid_samples_elem in Hx as [? _].
  - intros [H1 H2]. apply Hinf.
    split; [by apply valid_samples_elem in H1 as [_ ?]
           |by apply valid_samples_elem in H2 as [_ ?]].
Qed.

Lemma nanmedian1d_singleton x : nanmedian1d [x] = x.
Proof.
  unfold nanmedian1d, valid_samples. rewrite filter_cons, filter_nil.
  case_decide as H.
  - reflexivity.
  - symmetry. apply isnan_true_eq. by destruct (isnan x).
Qed.

(** ** Matrices *)

Lemma count_nan_cons row img :
  count_nan (row :: img)
  = len (filter (λ x, isnan x = true) row) + count_nan img.
Proof.
  unfold count_nan, len. simpl. rewrite list.filter_app, length_app. lia.
Qed.

Lemma count_nan_nonneg img : 0 ≤ count_nan img.
Proof. unfold count_nan, len. lia. Qed.

Lemma sample_at_cons_0 row img j : sample_at (row :: img) 0 j = row !! j.
Proof. done. Qed.

Lemma sample_at_cons_S row img i j :
  sample_at (row :: img) (S i) j = sample_at img i j.
Proof. done. Qed.

(** Rows of [fill_nan]. *)
Lemma fill_row_lookup (row other : list float) j x :
  row !! j = Some x → isnan x = false → length row = length other →
  zip_with (λ s o : float, if isnan s then o else s) row other !! j = Some x.
Proof.
  intros Hj Hx Hlen. rewrite lookup_zip_with, Hj. simpl.
  destruct (lookup_lt_is_Some_2 other j) as [o Ho].
  { rewrite <- Hlen. by eapply lookup_lt_Some. }
  rewrite Ho. simpl. by rewrite Hx.
Qed.

Lemma fill_row_count (row other : list float) :
  length row = length other →
  (length (filter (λ x, isnan x = true)
             (zip_with (λ s o : float, if isnan s then o else s) row other))
   ≤ length (filter (λ x, isnan x = true) row))%nat.
Proof.
  revert other. induction row as [|s row IH]; intros [|o other] Hlen;
    simplify_eq/=; [lia|].
  specialize (IH other ltac:(done)).
  rewrite !filter_cons. destruct (isnan s) eqn:Hs.
  - repeat case_decide; simpl; try lia; congruence.
  - rewrite Hs. repeat case_decide; simpl; try lia; congruence.
Qed.

Lemma fill_nan_valid_kept img other :
  fmap length img = fmap length other → valid_kept img (fill_nan img other).
Proof.
  revert other. induction img as [|row img IH]; intros [|orow other] Hs;
    simplify_eq/=; intros i j x Hx Hv.
  - done.
  - destruct i as [|i].
    + rewrite sample_at_cons_0 in Hx. unfold fill_nan. simpl.
      rewrite sample_at_cons_0. by apply fill_row_lookup.
    + rewrite sample_at_cons_S in Hx. unfold fill_nan. simpl.
      rewrite sample_at_cons_S. by apply IH.
Qed.

Lemma fill_nan_count img other :
  fmap length img = fmap length other →
  count_nan (fill_nan img other) ≤ count_nan img.
Proof.
  revert other. induction img as [|row img IH]; intros [|orow other] Hs;
    simplify_eq/=; [done|].
  unfold fill_nan. simpl. rewrite !count_nan_cons.
  specialize (IH other ltac:(done)). unfold fill_nan in IH.
  pose proof (fill_row_count row orow ltac:(done)). unfold len. lia.
Qed.

Lemma fill_nan_shape img other :
  fmap length img = fmap length other →
  fmap length (fill_nan img other) = fmap length img.
Proof.
  revert other. induction img as [|row img IH]; intros [|orow other] Hs;
    simplify_eq/=; [done|].
  unfold fill_nan in *. simpl. rewrite length_zip_with.
  f_equal; [lia|]. by apply IH.
Qed.

Lemma fill_nan_scalar_valid_kept img x : valid_kept img (fill_nan_scalar img x).
Proof.
  intros i j s Hs Hv. unfold sample_at, fill_nan_scalar in *.
  rewrite list_lookup_fmap. destruct (img !! i) as [row|]; simplify_eq/=.
  rewrite list_lookup_fmap, Hs. simpl. by rewrite Hv.
Qed.

Lemma fill_row_scalar_count (row : list float) x :
  length (filter (λ s, isnan s = true)
            ((λ s : float, if isnan s then x else s) <$> row))
  = if isnan x then length (filter (λ s, isnan s = true) row) else 0%nat.
Proof.
  induction row as [|s row IH]; csimpl.
  - by destruct (isnan x).
  - rewrite !filter_cons. destruct (isnan s) eqn:Hs.
    + destruct (isnan x) eqn:Hx; repeat case_decide; simpl; congruence.
    + rewrite Hs. destruct (isnan x) eqn:Hx; repeat case_decide; simpl; congruence.
Qed.

Lemma fill_nan_scalar_count img x :
  count_nan (fill_nan_scalar img x) = if isnan x then count_nan img else 0.
Proof.
  induction img as [|row img IH].
  - by destruct (isnan x).
  - unfold fill_nan_scalar in *. rewrite fmap_cons, !count_nan_cons, IH.
    unfold len. rewrite fill_row_scalar_count. destruct (isnan x); lia.
Qed.

Lemma fill_nan_scalar_shape img x :
  fmap length (fill_nan_scalar img x) = fmap length img.
Proof.
  unfold fill_nan_scalar. rewrite <- list_fmap_compose.
  apply list_fmap_ext. intros _ row _. simpl. by rewrite length_fmap.
Qed.

(** ** Outlier rejection *)

Lemma load_group_unclipped (env : Env) (files : list string) (frames : list matrix) :
  Forall2 (λ f frame, fits_getdata env f = Ok frame) files frames →
  load_group env None files = (EvGetData <$> files, Ok frames).
Proof.
  induction 1 as [|f frame files frames Hf _ IH]; [done|].
  cbn [load_group]. rewrite Hf, bind_call_Ok, IH, bind_Ok.
  unfold mret, M_ret. cbn [fst snd sigma_clipped].
  by rewrite app_nil_r, fmap_cons.
Qed.

(** C4: with [sigma] unset, [sigma_clipped] returns its image argument as it
    is, whatever the image, the sky reference and the clipping routine: no
    sample is altered, and the frames a group is built from are the stored
    frames themselves. *)
Theorem C4_sigma_none_passes_through (env : Env) (image : matrix) (sky : skyref)
    (files : list string) (frames : list matrix) :
  Forall2 (λ f frame, fits_getdata env f = Ok frame) files frames →
  sigma_clipped env image None sky = image
  ∧ (∀ i j, sample_at (sigma_clipped env image None sky) i j = sample_at image i j)
  ∧ load_group env None files = (EvGetData <$> files, Ok frames).
Proof.
  intros Hload. split_and!.
  - reflexivity.
  - intros i j. reflexivity.
  - by apply load_group_unclipped.
Qed.

Lemma C4_sigma_none_passes_through_witness :
  let env := example_env "d" example_mixed_dir in
  let image : matrix := [[1; nan]; [3; 4]]%float in
  let files := ["d/01544957C1.ramp.new"] in
  let frames : list matrix := [[[1; 2]; [3; 4]]%float] in
  sigma_clipped env image None (SkyScalar 0) = image
  ∧ (∀ i j, sample_at (sigma_clipped env image None (SkyScalar 0)) i j
            = sample_at image i j)
  ∧ load_group env None files = (EvGetData <$> files, Ok frames).
Proof.
  intros env image files frames.
  apply (C4_sigma_none_passes_through env image (SkyScalar 0) files frames).
  repeat constructor.
Defined.

(** ** Medians across images *)

Lemma sample_at_shape (a b : matrix) i j :
  length <$> a = length <$> b →
  is_Some (sample_at a i j) → is_Some (sample_at b i j).
Proof.
  intros Hs [x Hx]. unfold sample_at in *.
  destruct (a !! i) as [ra|] eqn:Ha; simplify_eq/=.
  assert (Hla : (length <$> a) !! i = Some (length ra))
    by (by rewrite list_lookup_fmap, Ha).
  rewrite Hs, list_lookup_fmap in Hla.
  destruct (b !! i) as [rb|]; simplify_eq/=.
  apply lookup_lt_is_Some_2. rewrite Hla. by eapply lookup_lt_Some.
Qed.

Lemma imap_imap_shape {A} (f : nat → nat → A) (m : matrix) :
  length <$> imap (λ i row, imap (λ j _, f i j) row) m = length <$> m.
Proof.
  apply list_eq. intros i.
  rewrite !list_lookup_fmap, list_lookup_imap.
  destruct (m !! i); simpl; [|done]. by rewrite length_imap.
Qed.

Lemma imap_imap_sample (f : nat → nat → float) (m : matrix) i j :
  is_Some (sample_at m i j) →
  sample_at (imap (λ i row, imap (λ j _, f i j) row) m) i j = Some (f i j).
Proof.
  intros [x Hx]. unfold sample_at in *. rewrite list_lookup_imap.
  destruct (m !! i) as [row|]; simplify_eq/=.
  by rewrite list_lookup_imap, Hx.
Qed.

Lemma nanmedian_axis0_same_shape m0 rest :
  Forall (λ m : matrix, length <$> m = length <$> m0) rest →
  nanmedian_axis0 (m0 :: rest)
  = Ok (imap (λ i row, imap (λ j _, nanmedian1d (samples_at (m0 :: rest) i j)) row) m0).
Proof.
  intros Hs. unfold nanmedian_axis0.
  assert (forallb (same_shape m0) rest = true) as ->; [|done].
  apply Is_true_true, forallb_True. eapply Forall_impl; [|exact Hs].
  intros m Hm. unfold same_shape. apply Is_true_true, bool_decide_eq_true. done.
Qed.

Lemma valid_samples_nil_iff l :
  valid_samples l = [] ↔ Forall (λ x, isnan x = true) l.
Proof.
  unfold valid_samples. rewrite list.Forall_forall. split.
  - intros H x Hx. destruct (isnan x) eqn:E; [done|].
    assert (x ∈ filter (λ x, isnan x = false) l) as Hin
        by (rewrite list_elem_of_filter; by split).
    rewrite H in Hin. by apply not_elem_of_nil in Hin.
  - intros H. destruct (filter _ l) as [|x v] eqn:E; [done|].
    assert (x ∈ filter (λ x, isnan x = false) l) as Hin
        by (rewrite E; left).
    rewrite list_elem_of_filter in Hin. destruct Hin as [Hx Hin].
    apply H in Hin. congruence.
Qed.

(** C6 (as amended): for a non-empty group of images of one shape, the
    combination [np.nanmedian(images, axis=0)] exists, has that shape, and at
    every position holds the missing-ignoring median of the members'
    samples there: NaN when every member is missing there, the median of the
    valid samples otherwise.  Unless the samples there include both
    [+inf] and [-inf], the combination is missing exactly when every member
    is. *)
Theorem C6_group_combination (images : list matrix) (m0 : matrix) (i j : nat) :
  images ≠ [] →
  Forall (λ m : matrix, length <$> m = length <$> m0) images →
  is_Some (sample_at m0 i j) →
  ∃ combined v,
    nanmedian_axis0 images = Ok combined
    ∧ length <$> combined = length <$> m0
    ∧ sample_at combined i j = Some v
    ∧ v = nanmedian1d (samples_at images i j)
    ∧ (Forall (λ x, isnan x = true) (samples_at images i j) → v = nan)
    ∧ (valid_samples (samples_at images i j) ≠ [] →
       v = median (valid_samples (samples_at images i j)))
    ∧ (¬ (infinity ∈ samples_at images i j ∧ neg_infinity ∈ samples_at images i j) →
       (isnan v = true ↔ Forall (λ x, isnan x = true) (samples_at images i j))).
Proof.
  intros Hne Hshape Hpos. destruct images as [|m1 rest]; [done|].
  apply list.Forall_cons in Hshape as [H1 Hrest].
  assert (Hrest' : Forall (λ m : matrix, length <$> m = length <$> m1) rest).
  { eapply Forall_impl; [|exact Hrest]. intros m Hm. simpl in Hm. congruence. }
  eexists _, _. split; [by apply nanmedian_axis0_same_shape|].
  split; [by rewrite imap_imap_shape|].
  split; [apply imap_imap_sample; eapply sample_at_shape; [symmetry; exact H1|done]|].
  split; [done|]. split_and!.
  - intros Hall. apply nanmedian1d_all_nan. by apply valid_samples_nil_iff.
  - apply nanmedian1d_valid.
  - intros Hinf. rewrite <- valid_samples_nil_iff. split.
    + intros Hnan. destruct (valid_samples _) eqn:E; [done|].
      rewrite nanmedian1d_not_nan in Hnan; [done| |done]. by rewrite E.
    + intros Hnil. by rewrite nanmedian1d_all_nan.
Qed.

Lemma C6_group_combination_witness :
  let images := example_group in
  let m0 : matrix := [[nan; nan]; [1; 2]]%float in
  ∃ combined v,
    nanmedian_axis0 images = Ok combined
    ∧ length <$> combined = length <$> m0
    ∧ sample_at combined 0 1 = Some v
    ∧ v = nanmedian1d (samples_at images 0 1)
    ∧ (Forall (λ x, isnan x = true) (samples_at images 0 1) → v = nan)
    ∧ (valid_samples (samples_at images 0 1) ≠ [] →
       v = median (valid_samples (samples_at images 0 1)))
    ∧ (¬ (infinity ∈ samples_at images 0 1 ∧ neg_infinity ∈ samples_at images 0 1) →
       (isnan v = true ↔ Forall (λ x, isnan x = true) (samples_at images 0 1))).
Proof.
  intros images m0. apply (C6_group_combination images m0 0 1).
  - done.
  - repeat constructor.
  - by eexists.
Defined.

(** C6 as stated fails: two frames normalised by a zero median hold [-inf]
    and [+inf] at one position; neither is missing there, and their
    combination is. *)
Lemma C6_opposite_infinities_combine_to_nan :
  let a := normalize [[-1; 0; 1]]%float in
  let b := normalize [[1; 0; -1]]%float in
  sample_at a 0 0 = Some neg_infinity ∧ isnan neg_infinity = false
  ∧ sample_at b 0 0 = Some infinity ∧ isnan infinity = false
  ∧ ∃ combined, nanmedian_axis0 [a; b] = Ok combined
                ∧ sample_at combined 0 0 = Some nan.
Proof. repeat split; try by vm_compute. eexists. split; by vm_compute. Qed.

(** ** Aggregation of a single group *)

Lemma imap_imap_id (f : nat → nat → float) (m : matrix) :
  (∀ i j x, sample_at m i j = Some x → f i j = x) →
  imap (λ i row, imap (λ j _, f i j) row) m = m.
Proof.
  intros Hf. apply list_eq. intros i. rewrite list_lookup_imap.
  destruct (m !! i) as [row|] eqn:Hi; simpl; [|done].
  f_equal. apply list_eq. intros j. rewrite list_lookup_imap.
  destruct (row !! j) as [x|] eqn:Hj; simpl; [|done].
  f_equal. apply Hf. unfold sample_at. by rewrite Hi.
Qed.

Lemma aggregate_singleton (m : matrix) : aggregate [m] = Ok m.
Proof.
  unfold aggregate. rewrite nanmedian_axis0_same_shape by constructor.
  f_equal. apply imap_imap_id. intros i j x Hx.
  unfold samples_at. simpl. rewrite Hx. simpl. apply nanmedian1d_singleton.
Qed.

Lemma py_slice_all {A} (l : list A) : py_slice l 0 (0 + len l) = l.
Proof.
  rewrite py_slice_in_range by (unfold len; lia).
  simpl. rewrite drop_0. apply take_ge. unfold len. lia.
Qed.

Lemma group_count_all n : 1 ≤ n → group_count n n = Ok 1.
Proof.
  intros Hn. rewrite group_count_floor by lia. by rewrite Z.div_same by lia.
Qed.

(** C7: when the files form one group -- as they do when the group size is
    left unset and defaults to the file count -- the aggregate of the one
    group median is that matrix itself, so the loop followed by the
    aggregation yields exactly the combination of all the loaded images. *)
Theorem C7_single_group_identity (env : Env) (image_fnames : list string)
    (sigma : option float) (m : matrix) :
  image_fnames ≠ [] →
  group_count (len image_fnames) (default (len image_fnames) None) = Ok 1
  ∧ groups image_fnames (len image_fnames) = Ok [image_fnames]
  ∧ aggregate [m] = Ok m
  ∧ (median_array ← sky_loop env image_fnames (len image_fnames) sigma
                      (range_len 1) 0 [];
     lift (aggregate median_array))
    = (images ← load_group env sigma image_fnames; lift (combine_group images)).
Proof.
  intros Hne.
  assert (Hn : 1 ≤ len image_fnames) by (destruct image_fnames; [done|unfold len; simpl; lia]).
  split_and!.
  - by apply group_count_all.
  - unfold groups. rewrite group_count_all by done. simpl.
    by rewrite py_slice_all.
  - apply aggregate_singleton.
  - simpl. rewrite py_slice_all.
    destruct (load_group env sigma image_fnames) as [t [images|e]]; [|done].
    rewrite !bind_Ok.
    destruct (combine_group images) as [gm|e]; [|done].
    cbn [fst snd]. rewrite bind_Ok, aggregate_singleton.
    by rewrite !app_nil_r.
Qed.

Lemma C7_single_group_identity_witness :
  let env := example_env "d" [("01544957C1.ramp.new", [[1; 2]; [3; 4]]%float)] in
  let image_fnames := ["d/01544957C1.ramp.new"] in
  let m : matrix := [[1; nan]]%float in
  group_count (len image_fnames) (default (len image_fnames) None) = Ok 1
  ∧ groups image_fnames (len image_fnames) = Ok [image_fnames]
  ∧ aggregate [m] = Ok m
  ∧ (median_array ← sky_loop env image_fnames (len image_fnames) None
                      (range_len 1) 0 [];
     lift (aggregate median_array))
    = (images ← load_group env None image_fnames; lift (combine_group images)).
Proof.
  intros env image_fnames m.
  by apply (C7_single_group_identity env image_fnames None m).
Defined.

(** ** Strings and paths *)

Lemma chars_app (a b : string) : chars (a +:+ b) = chars a ++ chars b.
Proof. unfold chars. induction a as [|c a IH]; simpl; [done|]. by rewrite IH. Qed.




Lemma py_index_last {A} (l : list A) x :
  list.last l = Some x → py_index l (-1) = Ok x.
Proof.
  intros H. unfold py_index. rewrite last_lookup in H.
  assert (length l ≠ 0%nat) by (intros E; apply length_zero_iff_nil in E; by subst).
  cbv zeta. rewrite (decide_True (P := -1 < 0)) by lia.
  rewrite decide_False by (unfold len; lia).
  replace (Z.to_nat (-1 + len l)) with (pred (length l)) by (unfold len; lia).
  by rewrite H.
Qed.

Lemma py_index_head {A} (l : list A) x :
  list.head l = Some x → py_index l 0 = Ok x.
Proof. intros H. destruct l; simplify_eq/=. done. Qed.

Lemma str_index_Ok (s : string) (k : Z) :
  0 < k ≤ len (chars s) → ∃ c, str_index s (- k) = Ok c.
Proof.
  intros Hk. unfold str_index, py_index. cbv zeta.
  rewrite (decide_True (P := - k < 0)) by lia.
  rewrite decide_False by lia.
  destruct (lookup_lt_is_Some_2 (chars s) (Z.to_nat (- k + len (chars s))))
    as [c ->]; [unfold len in *; lia|]. eauto.
Qed.

(** ** Selection and sorting *)

Lemma sort_fnames_perm l : sort_fnames l ≡ₚ l.
Proof. apply merge_sort_Permutation. Qed.

Lemma sort_fnames_len l : len (sort_fnames l) = len l.
Proof. unfold len. by rewrite sort_fnames_perm. Qed.

Lemma sort_fnames_sorted l : Sorted String.le (sort_fnames l).
Proof. apply (Sorted_merge_sort String.le). Qed.

Lemma select_fnames_elem dir names p :
  p ∈ sort_fnames (select_fnames dir names)
  ↔ ∃ f, f ∈ names
         ∧ (endswith f ".ramp.new" = true ∨ endswith f ".flat.fits" = true)
         ∧ p = path_join dir f.
Proof.
  rewrite sort_fnames_perm. unfold select_fnames.
  rewrite list_elem_of_fmap. split.
  - intros (f & -> & Hf). apply list_elem_of_filter in Hf as [Hs Hf].
    exists f. split_and!; [done| |done].
    by apply orb_true_iff.
  - intros (f & Hf & Hs & ->). exists f. split; [done|].
    apply list_elem_of_filter. split; [|done]. by apply orb_true_iff.
Qed.

Lemma select_fnames_none dir names :
  (∀ f, f ∈ names → has_input_suffix f = false) → select_fnames dir names = [].
Proof.
  intros H. unfold select_fnames.
  assert (filter (λ f, has_input_suffix f = true) names = []) as ->; [|done].
  induction names as [|f names IH]; [done|].
  rewrite filter_cons. case_decide as Hf.
  - rewrite H in Hf by left. done.
  - apply IH. intros g Hg. apply H. by right.
Qed.

(** C3 (as amended): when the directory holds no name ending in
    ['.ramp.new'] or ['.flat.fits'], every generator fails with
    [IndexError], raised by [image_fnames[-1]] on the empty list; the
    listing is the only call made to the store, so no image is loaded and
    nothing is combined or written. *)
Theorem C3_no_input_raises_IndexError (env : Env) (dir out : string)
    (sky_group_size : option Z) (sigma : option float) (nan_thresh : Q)
    (names : list string) :
  os_listdir env dir = Ok names →
  (∀ f, f ∈ names → endswith f ".ramp.new" = false ∧ endswith f ".flat.fits" = false) →
  gen_sky_image env dir out sky_group_size sigma nan_thresh
    = ([EvListdir dir], Raise IndexError)
  ∧ gen_flat_sky_image env dir out sky_group_size sigma nan_thresh
    = ([EvListdir dir], Raise IndexError)
  ∧ gen_mean_flat_sky_image env dir out sky_group_size sigma
    = ([EvListdir dir], Raise IndexError)
  ∧ exn_name IndexError = "IndexError".
Proof.
  intros Hls Hnone.
  assert (Hsel : select_fnames dir names = []).
  { apply select_fnames_none. intros f Hf. unfold has_input_suffix.
    by destruct (Hnone f Hf) as [-> ->]. }
  unfold gen_sky_image, gen_flat_sky_image, gen_mean_flat_sky_image.
  rewrite Hls, !bind_call_Ok, Hsel. done.
Qed.

Lemma C3_no_input_raises_IndexError_witness :
  let env := example_env "d" [("readme.txt", [])] in
  gen_sky_image env "d" "out/" None None 3
    = ([EvListdir "d"], Raise IndexError)
  ∧ gen_flat_sky_image env "d" "out/" None None 0
    = ([EvListdir "d"], Raise IndexError)
  ∧ gen_mean_flat_sky_image env "d" "out/" None None
    = ([EvListdir "d"], Raise IndexError)
  ∧ exn_name IndexError = "IndexError".
Proof.
  intros env.
  apply (C3_no_input_raises_IndexError env "d" "out/" None None 3 ["readme.txt"]).
  - reflexivity.
  - intros f Hf. apply list_elem_of_singleton in Hf as ->. by vm_compute.
Defined.

(** C3 as stated fails: on a directory without input files the generator
    raises an exception whose class is not [EmptyInputError]. *)
Lemma C3_not_EmptyInputError :
  ∃ e, (gen_sky_image (example_env "d" [("readme.txt", [])]) "d" "out/" None None 3).2
       = Raise e
       ∧ exn_name e ≠ "EmptyInputError".
Proof. exists IndexError. split; [by vm_compute|]. by vm_compute. Qed.

(** ** Shapes *)

Lemma shape0_of_lengths (a b : matrix) :
  length <$> a = length <$> b → shape0 a = shape0 b.
Proof.
  intros H. unfold shape0, len. f_equal.
  by rewrite <- (length_fmap length a), H, length_fmap.
Qed.

Lemma shape1_of_lengths (a b : matrix) :
  length <$> a = length <$> b → shape1 a = shape1 b.
Proof.
  intros H. destruct a as [|ra a], b as [|rb b]; simplify_eq/=; [done|].
  unfold len. by f_equal.
Qed.

Lemma nan_percent_Ok (img : matrix) :
  shape0 img * shape1 img ≠ 0 → ∃ q, nan_percent img = Ok q.
Proof.
  intros H. unfold nan_percent, nan_percentage. case_decide; [done|]. eauto.
Qed.

Lemma nan_percent_Ok_shape (a b : matrix) :
  length <$> a = length <$> b →
  shape0 b * shape1 b ≠ 0 → ∃ q, nan_percent a = Ok q.
Proof.
  intros H Hb. apply nan_percent_Ok.
  by rewrite (shape0_of_lengths a b), (shape1_of_lengths a b).
Qed.

Lemma length_running_mean size tmp l1 l2 :
  length (running_mean size tmp l1 l2) = (length l1 `min` length l2)%nat.
Proof.
  revert tmp l2. induction l1 as [|a l1 IH]; intros tmp [|b l2]; simpl; auto.
Qed.

Lemma length_uniform_filter1d size line :
  1 < size → length (uniform_filter1d size line) = length line.
Proof.
  intros Hs. unfold uniform_filter1d. destruct line as [|x line]; [done|].
  cbn [length]. rewrite length_running_mean, length_drop.
  unfold extend_constant. rewrite !length_app, !length_replicate.
  cbn [length].
  assert (Z.to_nat size `div` 2 < Z.to_nat size)%nat by (apply Nat.div_lt; lia).
  lia.
Qed.

Lemma uniform_filter_shape (img : matrix) size :
  length <$> uniform_filter img size = length <$> img.
Proof.
  unfold uniform_filter. case_decide as Hs; [done|].
  trans (length <$> filter_axis0 (uniform_filter1d size) img).
  - unfold filter_axis1. rewrite <- list_fmap_compose.
    apply list_fmap_ext. intros _ row _. simpl.
    apply length_uniform_filter1d. lia.
  - unfold filter_axis0. cbv zeta. apply imap_imap_shape.
Qed.

(** ** The repair stages *)

Lemma median_filter_masking_Ok env (sky : matrix) size :
  shape0 sky * shape1 sky ≠ 0 →
  median_filter_masking env sky size
  = Ok (fill_nan sky (ndimage_median_filter env sky size)).
Proof.
  intros H. unfold median_filter_masking.
  by destruct (nan_percent_Ok sky H) as [q ->].
Qed.

(** The repair returns when the picture is saved, and raises what
    [plt.imsave] raises. *)
Lemma mean_filter_masking_run env (sky : matrix) size :
  shape0 sky * shape1 sky ≠ 0 →
  mean_filter_masking env sky size
  = ([EvImsave "filter_img.png" (fill_nan_scalar sky (nanmedian sky))],
     match plt_imsave env "filter_img.png" (fill_nan_scalar sky (nanmedian sky)) with
     | Ok _ =>
         Ok (fill_nan sky (uniform_filter (fill_nan_scalar sky (nanmedian sky)) size))
     | Raise e => Raise e
     end).
Proof.
  intros H. unfold mean_filter_masking.
  destruct (nan_percent_Ok sky H) as [q ->]. rewrite bind_lift_Ok. cbv zeta.
  destruct (plt_imsave env _ _) as [[]|e]; [|done].
  rewrite bind_call_Ok.
  destruct (nan_percent_Ok_shape
              (uniform_filter (fill_nan_scalar sky (nanmedian sky)) size) sky)
    as [q' ->]; [|done|].
  { by rewrite uniform_filter_shape, fill_nan_scalar_shape. }
  by rewrite bind_lift_Ok.
Qed.

Lemma mean_filter_masking_Ok env (sky : matrix) size :
  shape0 sky * shape1 sky ≠ 0 →
  plt_imsave env "filter_img.png" (fill_nan_scalar sky (nanmedian sky)) = Ok () →
  mean_filter_masking env sky size
  = ([EvImsave "filter_img.png" (fill_nan_scalar sky (nanmedian sky))],
     Ok (fill_nan sky (uniform_filter (fill_nan_scalar sky (nanmedian sky)) size))).
Proof. intros H Hsave. by rewrite mean_filter_masking_run, Hsave. Qed.

Lemma final_cleanup_no_nan (sky : matrix) :
  valid_samples (concat sky) ≠ [] →
  ¬ (infinity ∈ concat sky ∧ neg_infinity ∈ concat sky) →
  count_nan (final_cleanup sky) = 0.
Proof.
  intros Hv Hinf. unfold final_cleanup. rewrite fill_nan_scalar_count.
  unfold nanmedian. by rewrite nanmedian1d_not_nan.
Qed.

Lemma final_cleanup_count (sky : matrix) :
  count_nan (final_cleanup sky) ≤ count_nan sky.
Proof.
  unfold final_cleanup. rewrite fill_nan_scalar_count.
  pose proof (count_nan_nonneg sky). destruct (isnan _); lia.
Qed.

(** ** The gap-filling cascade *)

Lemma gen_sky_image_writes_cleanup env dir out g sigma thr t :
  gen_sky_image env dir out g sigma thr = (t, Ok ()) →
  ∃ t0 path hdr sky, t = t0 ++ [EvWriteTo path hdr (final_cleanup sky) true].
Proof.
  intros H. unfold gen_sky_image in H.
  do 10 inv_bind H. apply pair_equal_spec in H as [<- _].
  eexists _, _, _, _. rewrite !app_assoc. reflexivity.
Qed.

Lemma gen_flat_sky_image_writes_cleanup env dir out g sigma thr t :
  gen_flat_sky_image env dir out g sigma thr = (t, Ok ()) →
  ∃ t0 path hdr sky, t = t0 ++ [EvWriteTo path hdr (final_cleanup sky) true].
Proof.
  intros H. unfold gen_flat_sky_image in H.
  do 10 inv_bind H. apply pair_equal_spec in H as [<- _].
  eexists _, _, _, _. rewrite !app_assoc. reflexivity.
Qed.

(** C5 (as amended): each repair stage only replaces missing samples: on a
    non-empty matrix the local-median repair (its filter keeping the shape),
    the local-mean repair and the final cleanup all return every valid
    sample unchanged and never raise the missing count (the local-mean
    repair returns when its picture is saved and raises what [plt.imsave]
    raises).  [gen_sky_image] and [gen_flat_sky_image] persist the output of
    the cleanup whether or not the repair ran.  The cleanup leaves no missing sample when the matrix it
    receives has a valid sample and does not hold both [+inf] and [-inf]. *)
Theorem C5_repairs_only_fill_missing (env : Env) (sky : matrix) :
  shape0 sky * shape1 sky ≠ 0 →
  length <$> ndimage_median_filter env sky 50 = length <$> sky →
  (∃ repaired, median_filter_masking env sky 50 = Ok repaired
     ∧ valid_kept sky repaired ∧ count_nan repaired ≤ count_nan sky)
  ∧ (∃ t repaired,
       mean_filter_masking env sky 30
       = (t, match plt_imsave env "filter_img.png"
                     (fill_nan_scalar sky (nanmedian sky)) with
             | Ok _ => Ok repaired
             | Raise e => Raise e
             end)
       ∧ valid_kept sky repaired ∧ count_nan repaired ≤ count_nan sky)
  ∧ valid_kept sky (final_cleanup sky)
  ∧ count_nan (final_cleanup sky) ≤ count_nan sky
  ∧ (valid_samples (concat sky) ≠ [] →
     ¬ (infinity ∈ concat sky ∧ neg_infinity ∈ concat sky) →
     count_nan (final_cleanup sky) = 0)
  ∧ (∀ dir out g sigma thr t,
       gen_sky_image env dir out g sigma thr = (t, Ok ()) →
       ∃ t0 path hdr sky1, t = t0 ++ [EvWriteTo path hdr (final_cleanup sky1) true])
  ∧ (∀ dir out g sigma thr t,
       gen_flat_sky_image env dir out g sigma thr = (t, Ok ()) →
       ∃ t0 path hdr sky1, t = t0 ++ [EvWriteTo path hdr (final_cleanup sky1) true]).
Proof.
  intros Hsize Hfilt. split_and!.
  - eexists. split; [by apply median_filter_masking_Ok|].
    split; [by apply fill_nan_valid_kept|by apply fill_nan_count].
  - eexists _, _. split; [by apply mean_filter_masking_run|].
    assert (length <$> sky
            = length <$> uniform_filter (fill_nan_scalar sky (nanmedian sky)) 30)
      by (by rewrite uniform_filter_shape, fill_nan_scalar_shape).
    split; [by apply fill_nan_valid_kept|by apply fill_nan_count].
  - apply fill_nan_scalar_valid_kept.
  - apply final_cleanup_count.
  - apply final_cleanup_no_nan.
  - intros. by eapply gen_sky_image_writes_cleanup.
  - intros. by eapply gen_flat_sky_image_writes_cleanup.
Qed.

Lemma C5_repairs_only_fill_missing_witness :
  let env := example_env "d" [] in
  let sky : matrix := [[1; nan]; [3; 4]]%float in
  (∃ repaired, median_filter_masking env sky 50 = Ok repaired
     ∧ valid_kept sky repaired ∧ count_nan repaired ≤ count_nan sky)
  ∧ (∃ t repaired,
       mean_filter_masking env sky 30
       = (t, match plt_imsave env "filter_img.png"
                     (fill_nan_scalar sky (nanmedian sky)) with
             | Ok _ => Ok repaired
             | Raise e => Raise e
             end)
       ∧ valid_kept sky repaired ∧ count_nan repaired ≤ count_nan sky)
  ∧ valid_kept sky (final_cleanup sky)
  ∧ count_nan (final_cleanup sky) ≤ count_nan sky
  ∧ (valid_samples (concat sky) ≠ [] →
     ¬ (infinity ∈ concat sky ∧ neg_infinity ∈ concat sky) →
     count_nan (final_cleanup sky) = 0)
  ∧ (∀ dir out g sigma thr t,
       gen_sky_image env dir out g sigma thr = (t, Ok ()) →
       ∃ t0 path hdr sky1, t = t0 ++ [EvWriteTo path hdr (final_cleanup sky1) true])
  ∧ (∀ dir out g sigma thr t,
       gen_flat_sky_image env dir out g sigma thr = (t, Ok ()) →
       ∃ t0 path hdr sky1, t = t0 ++ [EvWriteTo path hdr (final_cleanup sky1) true]).
Proof.
  intros env sky. apply (C5_repairs_only_fill_missing env sky).
  - vm_compute. discriminate.
  - reflexivity.
Defined.

(** C5 as stated fails.  A frame whose samples are all zero has no missing
    sample, yet its normalisation [0/0] is missing everywhere (and so is any
    median filter of it), and the persisted matrix is entirely missing.  The
    balanced frame normalises to [-inf] and [+inf] around one missing
    sample; the repair does not run (one sample in 35 is below the threshold
    3), the median of the valid samples is the mean of [-inf] and [+inf],
    and the persisted matrix keeps its missing sample.  The cleanup alone
    already leaves the missing sample of a matrix that holds both
    infinities. *)
Lemma C5_cleanup_can_leave_missing :
  (count_nan example_blank_frame = 0
   ∧ ∃ t path hdr data,
       gen_sky_image (example_env "d" [("01544957C1.ramp.new", example_blank_frame)])
         "d" "out/" None None 3
       = (t ++ [EvWriteTo path hdr data true], Ok ())
       ∧ count_nan data = 4)
  ∧ (count_nan example_balanced_frame = 0
     ∧ ∃ t path hdr data,
         gen_sky_image (example_env "d" [("01544957C1.ramp.new", example_balanced_frame)])
           "d" "out/" None None 3
         = (t ++ [EvWriteTo path hdr data true], Ok ())
         ∧ valid_samples (concat data) ≠ []
         ∧ count_nan data = 1)
  ∧ (valid_samples (concat [[infinity; neg_infinity; nan]]) ≠ []
     ∧ count_nan (final_cleanup [[infinity; neg_infinity; nan]]) = 1).
Proof.
  split_and!; try by vm_compute.
  - eexists [_; _; _], _, _, _. split; by vm_compute.
  - eexists [_; _; _], _, _, _. split; [by vm_compute|].
    split; by vm_compute.
Qed.

(** ** Local-mean repair *)

Lemma fill_nan_sample (img other : matrix) i j x o :
  sample_at img i j = Some x → sample_at other i j = Some o →
  sample_at (fill_nan img other) i j = Some (if isnan x then o else x).
Proof.
  unfold sample_at, fill_nan. intros Hx Ho. rewrite lookup_zip_with.
  destruct (img !! i) as [row|]; simplify_eq/=.
  destruct (other !! i) as [orow|]; simplify_eq/=.
  by rewrite lookup_zip_with, Hx, Ho.
Qed.

Lemma fill_nan_scalar_sample (img : matrix) v i j x :
  sample_at img i j = Some x →
  sample_at (fill_nan_scalar img v) i j = Some (if isnan x then v else x).
Proof.
  unfold sample_at, fill_nan_scalar. intros Hx. rewrite list_lookup_fmap.
  destruct (img !! i) as [row|]; simplify_eq/=.
  by rewrite list_lookup_fmap, Hx.
Qed.

Lemma float_eqb_false_neq (x y : float) :
  (x =? x)%float = true → (x =? y)%float = false → x ≠ y.
Proof. intros H1 H2 ->. congruence. Qed.

(** C8 (as amended): on a non-empty image the local-mean repair seeds the
    missing positions with the missing-ignoring median of the image, saves
    the seeded matrix as a picture (and raises what [plt.imsave] raises),
    filters the seeded matrix with SciPy's
    uniform filter of size 30 in constant mode -- a running mean over 30
    samples along the columns and then along the rows, zeros beyond the
    edges; the disk of line 43 is not used -- and returns the image with
    exactly its missing positions replaced by the filtered values, every
    valid sample unchanged. *)
Theorem C8_local_mean_repair (env : Env) (image : matrix) (i j : nat) (x : float) :
  shape0 image * shape1 image ≠ 0 →
  sample_at image i j = Some x →
  ∃ repaired o,
    mean_filter_masking env image 30
    = ([EvImsave "filter_img.png" (fill_nan_scalar image (nanmedian image))],
       match plt_imsave env "filter_img.png"
               (fill_nan_scalar image (nanmedian image)) with
       | Ok _ => Ok repaired
       | Raise e => Raise e
       end)
    ∧ length <$> repaired = length <$> image
    ∧ sample_at (fill_nan_scalar image (nanmedian image)) i j
      = Some (if isnan x then nanmedian image else x)
    ∧ sample_at (uniform_filter (fill_nan_scalar image (nanmedian image)) 30) i j
      = Some o
    ∧ sample_at repaired i j = Some (if isnan x then o else x).
Proof.
  intros Hsize Hx.
  set (seeded := fill_nan_scalar image (nanmedian image)).
  assert (Hshape : length <$> image = length <$> uniform_filter seeded 30).
  { unfold seeded. by rewrite uniform_filter_shape, fill_nan_scalar_shape. }
  destruct (sample_at_shape image (uniform_filter seeded 30) i j Hshape)
    as [o Ho]; [by eexists|].
  exists (fill_nan image (uniform_filter seeded 30)), o. split_and!.
  - by apply mean_filter_masking_run.
  - by apply fill_nan_shape.
  - by apply fill_nan_scalar_sample.
  - done.
  - by apply fill_nan_sample.
Qed.

Lemma C8_local_mean_repair_witness :
  let env := example_env "d" [] in
  let image : matrix := [[1; nan]]%float in
  ∃ repaired o,
    mean_filter_masking env image 30
    = ([EvImsave "filter_img.png" (fill_nan_scalar image (nanmedian image))],
       match plt_imsave env "filter_img.png"
               (fill_nan_scalar image (nanmedian image)) with
       | Ok _ => Ok repaired
       | Raise e => Raise e
       end)
    ∧ length <$> repaired = length <$> image
    ∧ sample_at (fill_nan_scalar image (nanmedian image)) 0 1
      = Some (if isnan nan then nanmedian image else nan)
    ∧ sample_at (uniform_filter (fill_nan_scalar image (nanmedian image)) 30) 0 1
      = Some o
    ∧ sample_at repaired 0 1 = Some (if isnan nan then o else nan).
Proof.
  intros env image. apply (C8_local_mean_repair env image 0 1 nan).
  - vm_compute. discriminate.
  - reflexivity.
Defined.

(** C8 as stated fails: on the image [[1, nan]] the missing sample is
    replaced by [2/900], the mean of a zero-padded window of 30 by 30
    samples; the mean over the disk of radius 30 around it is [1] over the
    samples of the image and [2/2821] with zero padding. *)
Lemma C8_filter_is_not_a_disk_mean :
  let image : matrix := [[1; nan]]%float in
  let seeded := fill_nan_scalar image (nanmedian image) in
  ∃ t repaired,
    mean_filter_masking (example_env "d" []) image 30 = (t, Ok repaired)
    ∧ sample_at repaired 0 1 ≠ sample_at (spec_disk_local_mean false seeded 30) 0 1
    ∧ sample_at repaired 0 1 ≠ sample_at (spec_disk_local_mean true seeded 30) 0 1.
Proof.
  eexists _, _. split; [by vm_compute|]. split.
  - vm_compute. intros H. apply (inj Some) in H. revert H.
    by apply float_eqb_false_neq.
  - vm_compute. intros H. apply (inj Some) in H. revert H.
    by apply float_eqb_false_neq.
Qed.

(** ** Runs on a well-formed store *)

Lemma mask_nan_shape (img : matrix) (mask : list (list bool)) :
  length <$> mask = length <$> img →
  length <$> mask_nan img mask = length <$> img.
Proof.
  revert mask. induction img as [|row img IH]; intros [|mrow mask] Hs;
    simplify_eq/=; [done|].
  unfold mask_nan in *. simpl. rewrite length_zip_with.
  f_equal; [lia|]. by apply IH.
Qed.

Lemma normalize_shape (img : matrix) : length <$> normalize img = length <$> img.
Proof.
  unfold normalize, image_div. rewrite <- list_fmap_compose.
  apply list_fmap_ext. intros _ row _. simpl. by rewrite length_fmap.
Qed.

Lemma image_sub_scalar_shape (img : matrix) x :
  length <$> image_sub img (SkyScalar x) = length <$> img.
Proof.
  simpl. rewrite <- list_fmap_compose.
  apply list_fmap_ext. intros _ row _. simpl. by rewrite length_fmap.
Qed.

Lemma py_slice_subseteq {A} (l : list A) a b x : x ∈ py_slice l a b → x ∈ l.
Proof.
  unfold py_slice. intros H. by apply subseteq_take, subseteq_drop in H.
Qed.

Section WellFormedStore.
Variable env : Env.
Variable sigma : option float.
Variable shape : list nat.
Variable image_fnames : list string.

Hypothesis clip_keeps_shape :
  ∀ img s k, length <$> sigma_clip env img s k = length <$> img.
Hypothesis data_loads :
  ∀ f, f ∈ image_fnames →
       ∃ img : matrix, fits_getdata env f = Ok img ∧ length <$> img = shape.

Lemma sigma_clipped_shape (img : matrix) x :
  length <$> sigma_clipped env img sigma (SkyScalar x) = length <$> img.
Proof.
  unfold sigma_clipped. destruct sigma as [s|]; [|done].
  apply mask_nan_shape. by rewrite clip_keeps_shape, image_sub_scalar_shape.
Qed.

Lemma load_group_ok (group_files : list string) :
  (∀ f, f ∈ group_files → f ∈ image_fnames) →
  ∃ images,
    load_group env sigma group_files = (EvGetData <$> group_files, Ok images)
    ∧ length images = length group_files
    ∧ Forall (λ m : matrix, length <$> m = shape) images.
Proof.
  induction group_files as [|f rest IH]; intros Hsub.
  - exists []. by repeat split.
  - destruct IH as (images & Hrun & Hlen & Hshape).
    { intros g Hg. apply Hsub. by right. }
    destruct (data_loads f) as (img & Hf & Hs); [apply Hsub; left|].
    exists (sigma_clipped env img sigma (SkyScalar 0) :: images).
    split_and!.
    + cbn [load_group]. rewrite Hf, bind_call_Ok, Hrun, bind_Ok.
      unfold mret, M_ret. cbn [fst snd]. by rewrite app_nil_r, fmap_cons.
    + simpl. by rewrite Hlen.
    + constructor; [|done]. by rewrite sigma_clipped_shape.
Qed.

Lemma combine_group_ok (images : list matrix) :
  images ≠ [] → Forall (λ m : matrix, length <$> m = shape) images →
  ∃ group_median,
    combine_group images = Ok group_median ∧ length <$> group_median = shape.
Proof.
  intros Hne Hs. destruct images as [|m1 rest]; [done|].
  apply list.Forall_cons in Hs as [H1 Hrest].
  unfold combine_group. rewrite fmap_cons.
  eexists. split.
  - apply nanmedian_axis0_same_shape. apply Forall_fmap.
    eapply Forall_impl; [|exact Hrest]. intros m Hm. simpl.
    rewrite !normalize_shape. congruence.
  - by rewrite imap_imap_shape, normalize_shape.
Qed.

Lemma sky_loop_ok (sky_group_size : Z) (iters : nat) (file_counter : Z)
    (median_array : list matrix) :
  1 ≤ sky_group_size → 0 ≤ file_counter →
  file_counter + Z.of_nat iters * sky_group_size ≤ len image_fnames →
  ∃ medians,
    sky_loop env image_fnames sky_group_size sigma iters file_counter median_array
    = (EvGetData <$> concat (group_slices image_fnames sky_group_size iters file_counter),
       Ok (median_array ++ medians))
    ∧ length medians = iters
    ∧ Forall (λ m : matrix, length <$> m = shape) medians.
Proof.
  intros Hg. revert file_counter median_array.
  induction iters as [|k IH]; intros fc ma Hfc Hle.
  - exists []. rewrite app_nil_r. by repeat split.
  - cbn [sky_loop group_slices].
    set (group_files := py_slice image_fnames fc (fc + sky_group_size)).
    destruct (load_group_ok group_files) as (images & Hload & Hlen & Hshape).
    { intros f. apply py_slice_subseteq. }
    destruct (combine_group_ok images) as (gm & Hgm & Hgms); [|done|].
    { intros ->. simpl in Hlen.
      assert (len group_files = sky_group_size)
        by (unfold group_files; rewrite length_py_slice_in_range; lia).
      unfold len in *. lia. }
    destruct (IH (fc + sky_group_size) (ma ++ [gm])) as (meds & Hrun & Hk & Hms);
      [lia..|].
    exists (gm :: meds). split_and!.
    + rewrite Hload, bind_Ok, Hgm, bind_lift_Ok, Hrun. cbn [fst snd concat].
      by rewrite fmap_app, <- app_assoc.
    + simpl. by rewrite Hk.
    + by constructor.
Qed.

Lemma aggregate_ok (median_array : list matrix) :
  median_array ≠ [] →
  Forall (λ m : matrix, length <$> m = shape) median_array →
  ∃ sky, aggregate median_array = Ok sky ∧ length <$> sky = shape.
Proof.
  intros Hne Hs. destruct median_array as [|m1 rest]; [done|].
  apply list.Forall_cons in Hs as [H1 Hrest].
  eexists. split.
  - unfold aggregate. apply nanmedian_axis0_same_shape.
    eapply Forall_impl; [|exact Hrest]. intros m Hm. simpl. congruence.
  - by rewrite imap_imap_shape.
Qed.

End WellFormedStore.

Lemma final_cleanup_shape (sky : matrix) :
  length <$> final_cleanup sky = length <$> sky.
Proof. apply fill_nan_scalar_shape. Qed.

Lemma shape_replicate_size (m : matrix) rows cols :
  length <$> m = replicate rows cols → rows ≠ 0%nat → cols ≠ 0%nat →
  shape0 m * shape1 m ≠ 0.
Proof.
  intros Hs Hr Hc. destruct rows as [|r]; [done|].
  destruct m as [|row m]; simplify_eq/=. unfold shape0, len. simpl. lia.
Qed.

Lemma head_Some_len {A} (l : list A) x : list.head l = Some x → 1 ≤ len l.
Proof. destruct l; [done|]. unfold len. simpl. lia. Qed.

(** ** The generators on a well-formed store *)

Section Generators.
Variable env : Env.
Variables (dir out : string) (names : list string).
Variables (sky_group_size : option Z) (sigma : option float).
Variables (rows cols : nat).
Variables (first_fname last_fname : string) (hdr : header).

Local Abbreviation fnames := (sort_fnames (select_fnames dir names)).
Local Abbreviation group_size := (default (len fnames) sky_group_size).
Local Abbreviation loaded := (full_groups_prefix fnames sky_group_size).

Hypothesis listing : os_listdir env dir = Ok names.
Hypothesis first_file : list.head fnames = Some first_fname.
Hypothesis last_file : list.last fnames = Some last_fname.
Hypothesis header_loads : fits_getheader env last_fname = Ok hdr.
Hypothesis group_size_fits : ∀ g, sky_group_size = Some g → 1 ≤ g ≤ len fnames.
Hypothesis data_loads :
  ∀ f, f ∈ fnames →
       ∃ img : matrix, fits_getdata env f = Ok img
                       ∧ length <$> img = replicate rows cols.
Hypothesis frame_not_empty : rows ≠ 0%nat ∧ cols ≠ 0%nat.
Hypothesis clip_keeps_shape :
  ∀ img s k, length <$> sigma_clip env img s k = length <$> img.

Lemma fnames_not_empty : 1 ≤ len fnames.
Proof. by eapply head_Some_len. Qed.

Lemma group_size_range : 1 ≤ group_size ≤ len fnames.
Proof.
  pose proof fnames_not_empty.
  destruct sky_group_size as [g|]; simpl; [by apply group_size_fits|lia].
Qed.

(** Lines 78-92: the loop loads the files of the full groups, in order, and
    the aggregate of the group medians has the shape of the frames. *)
Lemma provisional_sky_run :
  ∃ ngroups median_array sky q,
    group_count (len fnames) group_size = Ok ngroups
    ∧ sky_loop env fnames group_size sigma (range_len ngroups) 0 []
      = (EvGetData <$> loaded, Ok median_array)
    ∧ aggregate median_array = Ok sky
    ∧ length <$> sky = replicate rows cols
    ∧ nan_percent sky = Ok q.
Proof.
  pose proof group_size_range as [Hg Hn].
  assert (Hq : 1 ≤ len fnames `div` group_size).
  { apply Z.div_le_lower_bound; lia. }
  assert (Hle : len fnames `div` group_size * group_size ≤ len fnames)
    by (apply floor_times_le; lia).
  destruct (sky_loop_ok env sigma (replicate rows cols) fnames
              clip_keeps_shape data_loads group_size
              (Z.to_nat (len fnames `div` group_size)) 0 [])
    as (meds & Hrun & Hlen & Hshape); [lia..|].
  destruct (aggregate_ok (replicate rows cols) meds) as (sky & Hsky & Hs);
    [intros ->; simpl in Hlen; lia|done|].
  destruct (nan_percent_Ok sky) as [q Hnp].
  { destruct frame_not_empty. by eapply shape_replicate_size. }
  exists (len fnames `div` group_size), meds, sky, q.
  split_and!; [|..|done|done|done].
  - apply group_count_floor; lia.
  - unfold range_len. rewrite Hrun. f_equal. f_equal.
    rewrite group_slices_concat by lia. simpl. rewrite drop_0.
    unfold full_groups_prefix. cbv zeta. f_equal. lia.
Qed.

(** Lines 93-99 of [gen_sky_image]: the provisional sky is repaired when its
    missing percentage reaches the threshold, cleaned, and written; the run
    ends as the write does. *)
Lemma gen_sky_image_run (nan_thresh : Q) (detector : string) :
  str_index first_fname (-10) = Ok detector →
  ∃ ngroups median_array sky q repaired,
    group_count (len fnames) group_size = Ok ngroups
    ∧ sky_loop env fnames group_size sigma (range_len ngroups) 0 []
      = (EvGetData <$> loaded, Ok median_array)
    ∧ aggregate median_array = Ok sky
    ∧ nan_percent sky = Ok q
    ∧ (if Qle_bool nan_thresh q then median_filter_masking env sky 50 else Ok sky)
      = Ok repaired
    ∧ gen_sky_image env dir out sky_group_size sigma nan_thresh
      = (EvListdir dir :: EvGetHeader last_fname :: (EvGetData <$> loaded)
           ++ [EvWriteTo
                 (out +:+ format_save_name (header_get hdr "FILTER1" "unknown")
                            (header_get hdr "FILTER2" "unknown")
                            (str_slice first_fname (-19) (-11))
                            (str_slice last_fname (-19) (-11)) detector)
                 hdr (final_cleanup repaired) true],
         writeto env
           (out +:+ format_save_name (header_get hdr "FILTER1" "unknown")
                      (header_get hdr "FILTER2" "unknown")
                      (str_slice first_fname (-19) (-11))
                      (str_slice last_fname (-19) (-11)) detector)
           hdr (final_cleanup repaired) true).
Proof.
  intros Hdet.
  destruct provisional_sky_run as (ngroups & meds & sky & q & Hc & Hloop & Hagg & Hs & Hnp).
  assert (Hsize : shape0 sky * shape1 sky ≠ 0).
  { destruct frame_not_empty. by eapply shape_replicate_size. }
  exists ngroups, meds, sky, q,
    (if Qle_bool nan_thresh q
     then fill_nan sky (ndimage_median_filter env sky 50) else sky).
  split_and!; [done..| |].
  { destruct (Qle_bool nan_thresh q); [by apply median_filter_masking_Ok|done]. }
  unfold gen_sky_image.
  rewrite listing, bind_call_Ok. cbv beta zeta.
  rewrite (py_index_last _ _ last_file), bind_lift_Ok.
  rewrite header_loads, bind_call_Ok. cbv beta zeta.
  rewrite (py_index_head _ _ first_file), bind_lift_Ok.
  rewrite Hdet, bind_lift_Ok.
  rewrite <- (sort_fnames_len (select_fnames dir names)).
  rewrite Hc, bind_lift_Ok, Hloop, bind_Ok. cbv beta.
  rewrite Hagg, bind_lift_Ok, Hnp, bind_lift_Ok.
  destruct (Qle_bool nan_thresh q).
  - rewrite median_filter_masking_Ok by done. by rewrite bind_lift_Ok.
  - unfold mret, M_ret. by rewrite bind_Ok.
Qed.

(** Lines 133-140 of [gen_flat_sky_image]: when the repair runs its picture
    is saved first, and a failure of [plt.imsave] ends the run there. *)
Lemma gen_flat_sky_image_run (nan_thresh : Q) (detector : string) :
  str_index first_fname (-11) = Ok detector →
  ∃ sky picture,
    (picture = [] ∨ ∃ seeded, picture = [EvImsave "filter_img.png" seeded])
    ∧ (gen_flat_sky_image env dir out sky_group_size sigma nan_thresh
       = (EvListdir dir :: EvGetHeader last_fname :: (EvGetData <$> loaded)
            ++ picture
            ++ [EvWriteTo
                  (out +:+ format_save_name (header_get hdr "FILTER1" "unknown")
                             (header_get hdr "FILTER2" "unknown")
                             (str_slice first_fname (-20) (-12))
                             (str_slice last_fname (-20) (-12)) detector)
                  hdr (final_cleanup sky) true],
          writeto env
            (out +:+ format_save_name (header_get hdr "FILTER1" "unknown")
                       (header_get hdr "FILTER2" "unknown")
                       (str_slice first_fname (-20) (-12))
                       (str_slice last_fname (-20) (-12)) detector)
            hdr (final_cleanup sky) true)
       ∨ ∃ seeded e,
           plt_imsave env "filter_img.png" seeded = Raise e
           ∧ gen_flat_sky_image env dir out sky_group_size sigma nan_thresh
             = (EvListdir dir :: EvGetHeader last_fname :: (EvGetData <$> loaded)
                  ++ [EvImsave "filter_img.png" seeded],
                Raise e)).
Proof.
  intros Hdet.
  destruct provisional_sky_run as (ngroups & meds & sky & q & Hc & Hloop & Hagg & Hs & Hnp).
  assert (Hsize : shape0 sky * shape1 sky ≠ 0).
  { destruct frame_not_empty. by eapply shape_replicate_size. }
  unfold gen_flat_sky_image.
  rewrite listing, bind_call_Ok. cbv beta zeta.
  rewrite (py_index_last _ _ last_file), bind_lift_Ok.
  rewrite header_loads, bind_call_Ok. cbv beta zeta.
  rewrite (py_index_head _ _ first_file), bind_lift_Ok.
  rewrite Hdet, bind_lift_Ok.
  rewrite <- (sort_fnames_len (select_fnames dir names)).
  rewrite Hc, bind_lift_Ok, Hloop, bind_Ok. cbv beta.
  rewrite Hagg, bind_lift_Ok, Hnp, bind_lift_Ok.
  destruct (Qle_bool nan_thresh q).
  - rewrite mean_filter_masking_run by done.
    destruct (plt_imsave env _ _) as [[]|e] eqn:Hsave.
    + rewrite bind_Ok.
      eexists _, _. split; [right; by eexists|]. left. reflexivity.
    + rewrite bind_Raise.
      exists sky, [EvImsave "filter_img.png" (fill_nan_scalar sky (nanmedian sky))].
      split; [right; by eexists|]. right.
      eexists _, e. split; [exact Hsave|]. cbn [fst snd]. reflexivity.
  - unfold mret, M_ret. rewrite bind_Ok.
    eexists _, []. split; [by left|]. left. reflexivity.
Qed.

(** Lines 173-175 of [gen_mean_flat_sky_image]. *)
Lemma gen_mean_flat_sky_image_run (detector : string) :
  str_index first_fname (-11) = Ok detector →
  ∃ sky seeded,
    gen_mean_flat_sky_image env dir out sky_group_size sigma
    = (EvListdir dir :: EvGetHeader last_fname :: (EvGetData <$> loaded)
         ++ [EvImsave "filter_img.png" seeded;
             EvWriteTo
               (out +:+ format_save_name (header_get hdr "FILTER1" "unknown")
                          (header_get hdr "FILTER2" "unknown")
                          (str_slice first_fname (-20) (-12))
                          (str_slice last_fname (-20) (-12)) detector)
               hdr sky true],
       writeto env
         (out +:+ format_save_name (header_get hdr "FILTER1" "unknown")
                    (header_get hdr "FILTER2" "unknown")
                    (str_slice first_fname (-20) (-12))
                    (str_slice last_fname (-20) (-12)) detector)
         hdr sky true)
    ∨ ∃ e,
        plt_imsave env "filter_img.png" seeded = Raise e
        ∧ gen_mean_flat_sky_image env dir out sky_group_size sigma
          = (EvListdir dir :: EvGetHeader last_fname :: (EvGetData <$> loaded)
               ++ [EvImsave "filter_img.png" seeded],
             Raise e).
Proof.
  intros Hdet.
  destruct provisional_sky_run as (ngroups & meds & sky & q & Hc & Hloop & Hagg & Hs & Hnp).
  assert (Hsize : shape0 sky * shape1 sky ≠ 0).
  { destruct frame_not_empty. by eapply shape_replicate_size. }
  unfold gen_mean_flat_sky_image.
  rewrite listing, bind_call_Ok. cbv beta zeta.
  rewrite (py_index_last _ _ last_file), bind_lift_Ok.
  rewrite header_loads, bind_call_Ok. cbv beta zeta.
  rewrite (py_index_head _ _ first_file), bind_lift_Ok.
  rewrite Hdet, bind_lift_Ok.
  rewrite <- (sort_fnames_len (select_fnames dir names)).
  rewrite Hc, bind_lift_Ok, Hloop, bind_Ok. cbv beta.
  rewrite Hagg, bind_lift_Ok.
  rewrite mean_filter_masking_run by done.
  destruct (plt_imsave env _ _) as [[]|e] eqn:Hsave.
  - rewrite bind_Ok. eexists _, _. left. reflexivity.
  - rewrite bind_Raise. eexists sky, _. right.
    eexists e. split; [exact Hsave|]. cbn [fst snd]. reflexivity.
Qed.

End Generators.

(** ** Output naming *)



Lemma chars_str (l : list ascii) : chars (str l) = l.
Proof. apply String.list_ascii_of_string_of_list_ascii. Qed.




Lemma take_all_groups {A} (l : list A) :
  1 ≤ len l → take (Z.to_nat (len l `div` len l * len l)) l = l.
Proof.
  intros H. rewrite Z.div_same by lia. apply take_ge. unfold len. lia.
Qed.


Lemma example_env_clip_keeps_shape dir files (img : matrix) (s : float) (k : Z) :
  length <$> sigma_clip (example_env dir files) img s k = length <$> img.
Proof.
  simpl. rewrite <- list_fmap_compose.
  apply list_fmap_ext. intros _ row _. simpl. by rewrite length_fmap.
Qed.

Lemma example_mixed_fnames :
  sort_fnames (select_fnames "d" (example_mixed_dir.*1))
  = ["d/01544957C1.ramp.new"; "d/01544958C1.flat.fits"].
Proof. by vm_compute. Qed.

Lemma example_mixed_loads (f : string) :
  f ∈ sort_fnames (select_fnames "d" (example_mixed_dir.*1)) →
  ∃ img : matrix, fits_getdata (example_env "d" example_mixed_dir) f = Ok img
                  ∧ length <$> img = replicate 2 2%nat.
Proof.
  rewrite example_mixed_fnames. intros Hf.
  apply elem_of_cons in Hf as [->|Hf]; [eexists; split; by vm_compute|].
  apply list_elem_of_singleton in Hf as ->. eexists; split; by vm_compute.
Qed.


(** The same run, evaluated: the two selected files, one of each family, are
    loaded in sorted order, and the offsets of the '.ramp.new' names are
    applied to the last path, which is of the other family. *)
Example gen_sky_image_mixed_run :
  ∃ sky,
    gen_sky_image (example_env "d" example_mixed_dir) "d" "out/" None None 3
    = ([EvListdir "d"; EvGetHeader "d/01544958C1.flat.fits";
        EvGetData "d/01544957C1.ramp.new"; EvGetData "d/01544958C1.flat.fits";
        EvWriteTo "out/sky.Open-J.01544957-1544958C.C1.fits" example_header
          sky true],
       Ok ()).
Proof. eexists. by vm_compute. Qed.

(** C10: all three generators select the same files: the sorted paths of
    exactly the directory entries whose names end in ['.ramp.new'] or in
    ['.flat.fits'], both families together.  With the default group size,
    on a store whose selected files load as non-empty frames of one shape,
    each generator loads every selected file, in sorted order, into the one
    combination, and builds the output name from fixed offsets of the first
    and last sorted paths whatever their suffix: [-19:-11] and [-10] in
    [gen_sky_image], [-20:-12] and [-11] in the other two.  Each run ends
    as its write does; in the two flat generators a failure of [plt.imsave]
    ends the run after the loads, before the write. *)
Theorem C10_all_modes_select_both_families (env : Env) (dir out : string)
    (names : list string) (sigma : option float) (nan_thresh : Q)
    (rows cols : nat) (first_fname last_fname : string) (hdr : header) :
  os_listdir env dir = Ok names →
  list.head (sort_fnames (select_fnames dir names)) = Some first_fname →
  list.last (sort_fnames (select_fnames dir names)) = Some last_fname →
  fits_getheader env last_fname = Ok hdr →
  (∀ f, f ∈ sort_fnames (select_fnames dir names) →
        ∃ img : matrix, fits_getdata env f = Ok img
                        ∧ length <$> img = replicate rows cols) →
  rows ≠ 0%nat ∧ cols ≠ 0%nat →
  (∀ img s k, length <$> sigma_clip env img s k = length <$> img) →
  11 ≤ len (chars first_fname) →
  (∀ p, p ∈ sort_fnames (select_fnames dir names)
        ↔ ∃ f, f ∈ names
               ∧ (endswith f ".ramp.new" = true ∨ endswith f ".flat.fits" = true)
               ∧ p = path_join dir f)
  ∧ (∃ sky detector,
       str_index first_fname (-10) = Ok detector
       ∧ let path :=
           out +:+ format_save_name (header_get hdr "FILTER1" "unknown")
                     (header_get hdr "FILTER2" "unknown")
                     (str_slice first_fname (-19) (-11))
                     (str_slice last_fname (-19) (-11)) detector in
         gen_sky_image env dir out None sigma nan_thresh
         = (EvListdir dir :: EvGetHeader last_fname
              :: (EvGetData <$> sort_fnames (select_fnames dir names))
              ++ [EvWriteTo path hdr sky true],
            writeto env path hdr sky true))
  ∧ (∃ sky detector picture,
       str_index first_fname (-11) = Ok detector
       ∧ (picture = [] ∨ ∃ seeded, picture = [EvImsave "filter_img.png" seeded])
       ∧ let path :=
           out +:+ format_save_name (header_get hdr "FILTER1" "unknown")
                     (header_get hdr "FILTER2" "unknown")
                     (str_slice first_fname (-20) (-12))
                     (str_slice last_fname (-20) (-12)) detector in
         gen_flat_sky_image env dir out None sigma nan_thresh
         = (EvListdir dir :: EvGetHeader last_fname
              :: (EvGetData <$> sort_fnames (select_fnames dir names))
              ++ picture ++ [EvWriteTo path hdr sky true],
            writeto env path hdr sky true)
         ∨ ∃ seeded e,
             plt_imsave env "filter_img.png" seeded = Raise e
             ∧ gen_flat_sky_image env dir out None sigma nan_thresh
               = (EvListdir dir :: EvGetHeader last_fname
                    :: (EvGetData <$> sort_fnames (select_fnames dir names))
                    ++ [EvImsave "filter_img.png" seeded],
                  Raise e))
  ∧ (∃ sky detector seeded,
       str_index first_fname (-11) = Ok detector
       ∧ let path :=
           out +:+ format_save_name (header_get hdr "FILTER1" "unknown")
                     (header_get hdr "FILTER2" "unknown")
                     (str_slice first_fname (-20) (-12))
                     (str_slice last_fname (-20) (-12)) detector in
         gen_mean_flat_sky_image env dir out None sigma
         = (EvListdir dir :: EvGetHeader last_fname
              :: (EvGetData <$> sort_fnames (select_fnames dir names))
              ++ [EvImsave "filter_img.png" seeded; EvWriteTo path hdr sky true],
            writeto env path hdr sky true)
         ∨ ∃ e,
             plt_imsave env "filter_img.png" seeded = Raise e
             ∧ gen_mean_flat_sky_image env dir out None sigma
               = (EvListdir dir :: EvGetHeader last_fname
                    :: (EvGetData <$> sort_fnames (select_fnames dir names))
                    ++ [EvImsave "filter_img.png" seeded],
                  Raise e)).
Proof.
  intros Hls Hfirst Hlast Hhdr Hdata Hframe Hclip Hlen.
  assert (Hg : ∀ g, (None : option Z) = Some g →
                    1 ≤ g ≤ len (sort_fnames (select_fnames dir names)))
    by (by intros g [=]).
  pose proof (head_Some_len _ _ Hfirst) as Hn.
  destruct (str_index_Ok first_fname 10) as [det10 Hdet10]; [lia|].
  destruct (str_index_Ok first_fname 11) as [det11 Hdet11]; [lia|].
  split_and!.
  - intros p. apply select_fnames_elem.
  - destruct (gen_sky_image_run env dir out names None sigma rows cols
                first_fname last_fname hdr Hls Hfirst Hlast Hhdr Hg Hdata Hframe
                Hclip nan_thresh det10 Hdet10)
      as (ngroups & meds & sky & q & repaired & _ & _ & _ & _ & _ & Hrun).
    unfold full_groups_prefix in Hrun. simpl in Hrun.
    rewrite take_all_groups in Hrun by done. eauto.
  - destruct (gen_flat_sky_image_run env dir out names None sigma rows cols
                first_fname last_fname hdr Hls Hfirst Hlast Hhdr Hg Hdata Hframe
                Hclip nan_thresh det11 Hdet11) as (sky & picture & Hpic & Hrun).
    unfold full_groups_prefix in Hrun. simpl in Hrun.
    rewrite take_all_groups in Hrun by done.
    exists (final_cleanup sky), det11, picture. split_and!; [done..|].
    cbv zeta. destruct Hrun as [Hrun | (seeded & e & Hsave & Hrun)]; [by left|].
    right. by exists seeded, e.
  - destruct (gen_mean_flat_sky_image_run env dir out names None sigma rows cols
                first_fname last_fname hdr Hls Hfirst Hlast Hhdr Hg Hdata Hframe
                Hclip det11 Hdet11) as (sky & seeded & Hrun).
    unfold full_groups_prefix in Hrun. simpl in Hrun.
    rewrite take_all_groups in Hrun by done.
    exists sky, det11, seeded. split; [done|].
    cbv zeta. destruct Hrun as [Hrun | (e & Hsave & Hrun)]; [by left|].
    right. by exists e.
Qed.

Lemma C10_all_modes_select_both_families_witness :
  let env := example_env "d" example_mixed_dir in
  let names := example_mixed_dir.*1 in
  let first_fname := "d/01544957C1.ramp.new" in
  let last_fname := "d/01544958C1.flat.fits" in
  let hdr := example_header in
  (∀ p, p ∈ sort_fnames (select_fnames "d" names)
        ↔ ∃ f, f ∈ names
               ∧ (endswith f ".ramp.new" = true ∨ endswith f ".flat.fits" = true)
               ∧ p = path_join "d" f)
  ∧ (∃ sky detector,
       str_index first_fname (-10) = Ok detector
       ∧ let path :=
           "out/" +:+ format_save_name (header_get hdr "FILTER1" "unknown")
                     (header_get hdr "FILTER2" "unknown")
                     (str_slice first_fname (-19) (-11))
                     (str_slice last_fname (-19) (-11)) detector in
         gen_sky_image env "d" "out/" None None 3
         = (EvListdir "d" :: EvGetHeader last_fname
              :: (EvGetData <$> sort_fnames (select_fnames "d" names))
              ++ [EvWriteTo path hdr sky true],
            writeto env path hdr sky true))
  ∧ (∃ sky detector picture,
       str_index first_fname (-11) = Ok detector
       ∧ (picture = [] ∨ ∃ seeded, picture = [EvImsave "filter_img.png" seeded])
       ∧ let path :=
           "out/" +:+ format_save_name (header_get hdr "FILTER1" "unknown")
                     (header_get hdr "FILTER2" "unknown")
                     (str_slice first_fname (-20) (-12))
                     (str_slice last_fname (-20) (-12)) detector in
         gen_flat_sky_image env "d" "out/" None None 3
         = (EvListdir "d" :: EvGetHeader last_fname
              :: (EvGetData <$> sort_fnames (select_fnames "d" names))
              ++ picture ++ [EvWriteTo path hdr sky true],
            writeto env path hdr sky true)
         ∨ ∃ seeded e,
             plt_imsave env "filter_img.png" seeded = Raise e
             ∧ gen_flat_sky_image env "d" "out/" None None 3
               = (EvListdir "d" :: EvGetHeader last_fname
                    :: (EvGetData <$> sort_fnames (select_fnames "d" names))
                    ++ [EvImsave "filter_img.png" seeded],
                  Raise e))
  ∧ (∃ sky detector seeded,
       str_index first_fname (-11) = Ok detector
       ∧ let path :=
           "out/" +:+ format_save_name (header_get hdr "FILTER1" "unknown")
                     (header_get hdr "FILTER2" "unknown")
                     (str_slice first_fname (-20) (-12))
                     (str_slice last_fname (-20) (-12)) detector in
         gen_mean_flat_sky_image env "d" "out/" None None
         = (EvListdir "d" :: EvGetHeader last_fname
              :: (EvGetData <$> sort_fnames (select_fnames "d" names))
              ++ [EvImsave "filter_img.png" seeded; EvWriteTo path hdr sky true],
            writeto env path hdr sky true)
         ∨ ∃ e,
             plt_imsave env "filter_img.png" seeded = Raise e
             ∧ gen_mean_flat_sky_image env "d" "out/" None None
               = (EvListdir "d" :: EvGetHeader last_fname
                    :: (EvGetData <$> sort_fnames (select_fnames "d" names))
                    ++ [EvImsave "filter_img.png" seeded],
                  Raise e)).
Proof.
  intros env names first_fname last_fname hdr.
  apply (C10_all_modes_select_both_families env "d" "out/" names None 3 2 2
           first_fname last_fname hdr).
  - reflexivity.
  - by vm_compute.
  - by vm_compute.
  - reflexivity.
  - apply example_mixed_loads.
  - split; discriminate.
  - apply example_env_clip_keeps_shape.
  - by vm_compute.
Defined.

(** * Further properties of the sky generator *)

(** ** The order of the directory listing *)

Lemma select_fnames_perm dir names names' :
  names ≡ₚ names' → select_fnames dir names ≡ₚ select_fnames dir names'.
Proof. intros H. unfold select_fnames. by rewrite H. Qed.

Lemma sort_fnames_unique l1 l2 : l1 ≡ₚ l2 → sort_fnames l1 = sort_fnames l2.
Proof.
  intros H. apply (Sorted_unique String.le); [apply sort_fnames_sorted..|].
  by rewrite !sort_fnames_perm.
Qed.

Lemma bind_ext {A B} (m : M A) (f g : A → M B) :
  (∀ a, f a = g a) → m ≫= f = m ≫= g.
Proof.
  intros H. destruct m as [t [a|e]]; [|done]. unfold mbind, M_bind. by rewrite H.
Qed.

Lemma bind_call_ext {A B} (ev : event) (a a' : A) (f g : A → M B) :
  f a = g a' → call ev (Ok a) ≫= f = call ev (Ok a') ≫= g.
Proof. intros H. by rewrite !bind_call_Ok, H. Qed.

Section SameStore.
Variables env env' : Env.
Hypothesis same_header : ∀ p, fits_getheader env' p = fits_getheader env p.
Hypothesis same_data : ∀ p, fits_getdata env' p = fits_getdata env p.
Hypothesis same_clip : ∀ img s k, sigma_clip env' img s k = sigma_clip env img s k.
Hypothesis same_filter :
  ∀ img k, ndimage_median_filter env' img k = ndimage_median_filter env img k.
Hypothesis same_imsave : ∀ p img, plt_imsave env' p img = plt_imsave env p img.

Lemma sigma_clipped_same image sigma sky :
  sigma_clipped env' image sigma sky = sigma_clipped env image sigma sky.
Proof. destruct sigma as [s|]; [|done]. simpl. by rewrite same_clip. Qed.

Lemma load_group_same sigma files :
  load_group env' sigma files = load_group env sigma files.
Proof.
  induction files as [|f files IH]; [done|].
  cbn [load_group]. rewrite same_data. apply bind_ext. intros data.
  by rewrite sigma_clipped_same, IH.
Qed.

Lemma sky_loop_same fnames g sigma iters fc ma :
  sky_loop env' fnames g sigma iters fc ma = sky_loop env fnames g sigma iters fc ma.
Proof.
  revert fc ma. induction iters as [|k IH]; intros fc ma; [done|].
  cbn [sky_loop]. rewrite load_group_same. apply bind_ext. intros images.
  apply bind_ext. intros gm. apply IH.
Qed.

Lemma median_filter_masking_same image size :
  median_filter_masking env' image size = median_filter_masking env image size.
Proof. unfold median_filter_masking. by rewrite same_filter. Qed.

Lemma mean_filter_masking_same image size :
  mean_filter_masking env' image size = mean_filter_masking env image size.
Proof. unfold mean_filter_masking. by rewrite same_imsave. Qed.

End SameStore.

(** X1: the order in which [os.listdir] returns the entries does not matter.
    Two stores that list the same entries of the directory in different
    orders, and agree on the headers, the frames, the two library filters
    and the outcomes of the two writes, give the same run of each generator:
    the same calls in the same order and the same outcome. *)
Theorem listing_order_is_irrelevant (env env' : Env) (dir out : string)
    (sky_group_size : option Z) (sigma : option float) (nan_thresh : Q)
    (names names' : list string) :
  os_listdir env dir = Ok names →
  os_listdir env' dir = Ok names' →
  names ≡ₚ names' →
  (∀ p, fits_getheader env' p = fits_getheader env p) →
  (∀ p, fits_getdata env' p = fits_getdata env p) →
  (∀ img s k, sigma_clip env' img s k = sigma_clip env img s k) →
  (∀ img k, ndimage_median_filter env' img k = ndimage_median_filter env img k) →
  (∀ p img, plt_imsave env' p img = plt_imsave env p img) →
  (∀ p hdr img o, writeto env' p hdr img o = writeto env p hdr img o) →
  gen_sky_image env' dir out sky_group_size sigma nan_thresh
  = gen_sky_image env dir out sky_group_size sigma nan_thresh
  ∧ gen_flat_sky_image env' dir out sky_group_size sigma nan_thresh
    = gen_flat_sky_image env dir out sky_group_size sigma nan_thresh
  ∧ gen_mean_flat_sky_image env' dir out sky_group_size sigma
    = gen_mean_flat_sky_image env dir out sky_group_size sigma.
Proof.
  intros Hls Hls' Hperm Hh Hd Hc Hf Hs Hw.
  pose proof (select_fnames_perm dir _ _ Hperm) as Hsel.
  assert (Hsort : sort_fnames (select_fnames dir names')
                  = sort_fnames (select_fnames dir names))
    by (apply sort_fnames_unique; by symmetry).
  assert (Hlen : len (select_fnames dir names') = len (select_fnames dir names))
    by (unfold len; by rewrite Hsel).
  unfold gen_sky_image, gen_flat_sky_image, gen_mean_flat_sky_image.
  rewrite Hls, Hls'.
  split_and!; apply bind_call_ext; cbv beta zeta; rewrite Hsort, Hlen;
    (apply bind_ext; intros last_fname); rewrite Hh;
    do 4 (apply bind_ext; intros ?);
    rewrite (sky_loop_same env env' Hd Hc);
    (apply bind_ext; intros median_array); (apply bind_ext; intros sky).
  - apply bind_ext. intros q.
    rewrite (median_filter_masking_same env env' Hf).
    apply bind_ext. intros sky'. cbv zeta. by rewrite Hw.
  - apply bind_ext. intros q.
    rewrite (mean_filter_masking_same env env' Hs).
    apply bind_ext. intros sky'. cbv zeta. by rewrite Hw.
  - rewrite (mean_filter_masking_same env env' Hs).
    apply bind_ext. intros sky'. by rewrite Hw.
Qed.

Lemma listing_order_is_irrelevant_witness :
  let files := [("00000001C1.ramp.new", [[1; 2]]%float);
                ("00000002C1.ramp.new", [[3; 4]]%float)] in
  let env := example_env "d" files in
  let env' := {| os_listdir := λ _, Ok (reverse (files.*1));
                 fits_getheader := fits_getheader env;
                 fits_getdata := fits_getdata env;
                 sigma_clip := sigma_clip env;
                 ndimage_median_filter := ndimage_median_filter env;
                 plt_imsave := plt_imsave env;
                 writeto := writeto env |} in
  gen_sky_image env' "d" "out/" None None 3 = gen_sky_image env "d" "out/" None None 3
  ∧ gen_flat_sky_image env' "d" "out/" None None 3
    = gen_flat_sky_image env "d" "out/" None None 3
  ∧ gen_mean_flat_sky_image env' "d" "out/" None None
    = gen_mean_flat_sky_image env "d" "out/" None None.
Proof.
  intros files env env'.
  apply (listing_order_is_irrelevant env env' "d" "out/" None None 3
           (files.*1) (reverse (files.*1))).
  - reflexivity.
  - reflexivity.
  - apply (Permutation_swap "00000002C1.ramp.new" "00000001C1.ramp.new" []).
  - reflexivity.
  - reflexivity.
  - reflexivity.
  - reflexivity.
  - reflexivity.
  - reflexivity.
Defined.

(** ** The first and the last sorted path *)

Lemma sorted_head_le (l : list string) (a x : string) :
  Sorted String.le l → list.head l = Some a → x ∈ l → String.le a x.
Proof.
  intros Hs Hh Hx. apply (Sorted_StronglySorted String.le) in Hs.
  destruct l as [|b l]; simplify_eq/=.
  apply StronglySorted_inv in Hs as [_ Hall].
  apply elem_of_cons in Hx as [->|Hx]; [done|].
  by eapply list.Forall_forall in Hall.
Qed.

Lemma sorted_last_le (l : list string) (z x : string) :
  Sorted String.le l → list.last l = Some z → x ∈ l → String.le x z.
Proof.
  intros Hs Hl Hx. apply (Sorted_StronglySorted String.le) in Hs.
  apply last_Some in Hl as [l' ->].
  apply elem_of_app in Hx as [Hx|Hx].
  - eapply (StronglySorted_app_1_elem_of String.le); [done..|left].
  - apply list_elem_of_singleton in Hx as ->. done.
Qed.

(** X2: the sorted list of the selected paths is a sorted rearrangement of
    the joined names that end in one of the two suffixes, so its first
    entry, which gives the detector and the first sequence id, is the least
    selected path in the order of [str], and its last entry, whose header is
    read and which gives the last sequence id, is the greatest. *)
Theorem first_and_last_are_extremes (dir : string) (names : list string)
    (first_fname last_fname p : string) :
  list.head (sort_fnames (select_fnames dir names)) = Some first_fname →
  list.last (sort_fnames (select_fnames dir names)) = Some last_fname →
  p ∈ select_fnames dir names →
  String.le first_fname p ∧ String.le p last_fname
  ∧ first_fname ∈ select_fnames dir names
  ∧ last_fname ∈ select_fnames dir names.
Proof.
  intros Hh Hl Hp.
  pose proof (sort_fnames_sorted (select_fnames dir names)) as Hs.
  rewrite <- !(sort_fnames_perm (select_fnames dir names)).
  rewrite <- (sort_fnames_perm (select_fnames dir names)) in Hp.
  split_and!.
  - by eapply sorted_head_le.
  - by eapply sorted_last_le.
  - destruct (sort_fnames _); simplify_eq/=. left.
  - apply last_Some in Hl as [l' ->]. apply elem_of_app. right. left.
Qed.

Lemma first_and_last_are_extremes_witness :
  let names := ["00000002C1.ramp.new"; "notes.txt"; "00000003C1.flat.fits";
                "00000001C1.ramp.new"] in
  String.le "d/00000001C1.ramp.new" "d/00000002C1.ramp.new"
  ∧ String.le "d/00000002C1.ramp.new" "d/00000003C1.flat.fits"
  ∧ "d/00000001C1.ramp.new" ∈ select_fnames "d" names
  ∧ "d/00000003C1.flat.fits" ∈ select_fnames "d" names.
Proof.
  intros names.
  apply (first_and_last_are_extremes "d" names "d/00000001C1.ramp.new"
           "d/00000003C1.flat.fits" "d/00000002C1.ramp.new").
  - by vm_compute.
  - by vm_compute.
  - vm_compute. left.
Defined.

(** ** The write is the last call *)

Lemma load_group_quiet env sigma files :
  Forall (λ e, is_write e = false) (load_group env sigma files).1.
Proof.
  induction files as [|f files IH]; [constructor|].
  cbn [load_group]. destruct (fits_getdata env f) as [data|e].
  - rewrite bind_call_Ok. cbn [fst]. constructor; [done|].
    destruct (load_group env sigma files) as [t [images|e]].
    + rewrite bind_Ok. cbn [fst]. unfold mret, M_ret. cbn [fst].
      by rewrite app_nil_r.
    + done.
  - rewrite bind_call_Raise. by repeat constructor.
Qed.

Lemma sky_loop_quiet env fnames g sigma iters fc ma :
  Forall (λ e, is_write e = false) (sky_loop env fnames g sigma iters fc ma).1.
Proof.
  revert fc ma. induction iters as [|k IH]; intros fc ma; [constructor|].
  cbn [sky_loop].
  pose proof (load_group_quiet env sigma (py_slice fnames fc (fc + g))) as Hq.
  destruct (load_group env sigma _) as [t [images|e]]; [|done].
  rewrite bind_Ok. cbn [fst] in *. apply Forall_app. split; [done|].
  destruct (combine_group images) as [gm|e].
  - rewrite bind_lift_Ok. apply IH.
  - constructor.
Qed.

Lemma mean_filter_masking_quiet env image size :
  Forall (λ e, is_write e = false) (mean_filter_masking env image size).1.
Proof.
  unfold mean_filter_masking. destruct (nan_percent image) as [q|e]; [|constructor].
  rewrite bind_lift_Ok. cbv zeta.
  destruct (plt_imsave env _ _) as [[]|e]; [|by repeat constructor].
  rewrite bind_call_Ok. cbn [fst]. constructor; [done|].
  destruct (nan_percent _); [rewrite bind_lift_Ok|]; constructor.
Qed.

Lemma writes_once_at_end_bind {A} env (out : string) (m : M A) (f : A → M unit) :
  Forall (λ e, is_write e = false) m.1 →
  (∀ a, writes_once_at_end env out (f a)) →
  writes_once_at_end env out (m ≫= f).
Proof.
  intros Hm Hf. destruct m as [t [a|e]]; cbn [fst] in Hm.
  - rewrite bind_Ok.
    destruct (Hf a) as [(t0 & name & hdr & data & Hq & ->) | (e & Hr & Hq)].
    + left. exists (t ++ t0), name, hdr, data.
      split; [by apply Forall_app|]. cbn [fst snd]. by rewrite app_assoc.
    + right. exists e. cbn [fst snd]. split; [done|]. by apply Forall_app.
  - right. by exists e.
Qed.

Lemma writes_once_at_end_write env (out save_name : string) hdr data :
  writes_once_at_end env out
    (call (EvWriteTo (out +:+ save_name) hdr data true)
       (writeto env (out +:+ save_name) hdr data true)).
Proof. left. exists [], save_name, hdr, data. by split. Qed.

Ltac quiet_step :=
  apply writes_once_at_end_bind;
  [first [ apply sky_loop_quiet | apply mean_filter_masking_quiet
         | by repeat constructor ]
  | intros ? ].

(** X3: in every run of every generator, whatever the store answers, there
    is at most one [writeto] call, and it is the last call of the run: the
    run returns if that call returns and raises what that call raises.  A
    run without a [writeto] call has raised.  So a run that returns has
    made exactly one [writeto] call, and a run that raises has made none, or
    the one that raised.  The path written is the output directory
    immediately followed by the file name, and [overwrite] is set. *)
Theorem output_is_written_once_at_the_end (env : Env) (dir out : string)
    (sky_group_size : option Z) (sigma : option float) (nan_thresh : Q) :
  writes_once_at_end env out
    (gen_sky_image env dir out sky_group_size sigma nan_thresh)
  ∧ writes_once_at_end env out
      (gen_flat_sky_image env dir out sky_group_size sigma nan_thresh)
  ∧ writes_once_at_end env out
      (gen_mean_flat_sky_image env dir out sky_group_size sigma).
Proof.
  unfold gen_sky_image, gen_flat_sky_image, gen_mean_flat_sky_image.
  split_and!.
  - do 9 quiet_step.
    apply writes_once_at_end_bind; [|intros; apply writes_once_at_end_write].
    destruct (Qle_bool _ _); [|constructor].
    destruct (median_filter_masking _ _ _); constructor.
  - do 9 quiet_step.
    apply writes_once_at_end_bind; [|intros; apply writes_once_at_end_write].
    destruct (Qle_bool _ _); [apply mean_filter_masking_quiet|constructor].
  - do 9 quiet_step. apply writes_once_at_end_write.
Qed.

(** A run whose output directory does not exist: the frames are read, the
    write is tried last, and its exception ends the run. *)
Example gen_sky_image_unwritable_run :
  ∃ sky,
    gen_sky_image (example_unwritable_env "d" example_mixed_dir) "d" "out/" None None 3
    = ([EvListdir "d"; EvGetHeader "d/01544958C1.flat.fits";
        EvGetData "d/01544957C1.ramp.new"; EvGetData "d/01544958C1.flat.fits";
        EvWriteTo "out/sky.Open-J.01544957-1544958C.C1.fits" example_header
          sky true],
       Raise (StoreError "FileNotFoundError")).
Proof. eexists. by vm_compute. Qed.

(** ** Group sizes outside the range of the file count *)

Lemma group_count_zero n : group_count n 0 = Raise ZeroDivisionError.
Proof. done. Qed.

Lemma group_count_no_group n g :
  0 ≤ n → n < g ∨ g < 0 → ∃ q, group_count n g = Ok q ∧ q ≤ 0.
Proof.
  intros Hn Hg. unfold group_count, int_truediv.
  rewrite decide_False by lia. unfold overshoots.
  destruct Hg as [Hg|Hg].
  - rewrite Z.quot_small by lia. rewrite bool_decide_eq_false_2 by lia.
    by exists 0.
  - assert (Hq : n ÷ g = - (n ÷ - g)).
    { rewrite <- (Z.opp_involutive g) at 1. by rewrite Z.quot_opp_r by lia. }
    pose proof (Z.quot_pos n (- g) Hn ltac:(lia)) as Hpos.
    pose proof (Z.mul_quot_le n (- g) Hn ltac:(lia)) as Hle.
    rewrite bool_decide_eq_false_2 by (rewrite Hq; lia).
    exists (n ÷ g). split; [done|lia].
Qed.

Section GroupSizeEdges.
Variable env : Env.
Variables (dir out : string) (names : list string) (sigma : option float).
Variables (first_fname last_fname : string) (hdr : header).

Hypothesis listing : os_listdir env dir = Ok names.
Hypothesis first_file :
  list.head (sort_fnames (select_fnames dir names)) = Some first_fname.
Hypothesis last_file :
  list.last (sort_fnames (select_fnames dir names)) = Some last_fname.
Hypothesis header_loads : fits_getheader env last_fname = Ok hdr.
Hypothesis first_long : 11 ≤ len (chars first_fname).

(** Lines 63-78 of the three generators, when [group_count] fails with [e]
    or gives a count below one. *)
Lemma no_group_runs (g : Z) (outcome : result Z) (e : exn) :
  group_count (len (select_fnames dir names)) g = outcome →
  (outcome = Raise e ∨ ∃ q, outcome = Ok q ∧ q ≤ 0 ∧ e = IndexError) →
  ∀ nan_thresh,
    gen_sky_image env dir out (Some g) sigma nan_thresh
    = ([EvListdir dir; EvGetHeader last_fname], Raise e)
    ∧ gen_flat_sky_image env dir out (Some g) sigma nan_thresh
      = ([EvListdir dir; EvGetHeader last_fname], Raise e)
    ∧ gen_mean_flat_sky_image env dir out (Some g) sigma
      = ([EvListdir dir; EvGetHeader last_fname], Raise e).
Proof.
  intros Hc Hout nan_thresh.
  destruct (str_index_Ok first_fname 10) as [det10 Hdet10]; [lia|].
  destruct (str_index_Ok first_fname 11) as [det11 Hdet11]; [lia|].
  change (- (10)) with (-10) in Hdet10. change (- (11)) with (-11) in Hdet11.
  unfold gen_sky_image, gen_flat_sky_image, gen_mean_flat_sky_image.
  rewrite listing, !bind_call_Ok. cbv beta zeta.
  rewrite (py_index_last _ _ last_file), !bind_lift_Ok.
  rewrite header_loads, !bind_call_Ok. cbv beta zeta.
  rewrite (py_index_head _ _ first_file), !bind_lift_Ok.
  rewrite Hdet10, Hdet11, !bind_lift_Ok.
  cbn [from_option id]. unfold id. rewrite Hc.
  destruct Hout as [->|(q & -> & Hq & ->)]; [done|].
  rewrite !bind_lift_Ok.
  replace (range_len q) with 0%nat by (unfold range_len; lia).
  done.
Qed.

End GroupSizeEdges.

(** X4: a group size of zero makes every generator fail with
    [ZeroDivisionError], raised by [nfiles / sky_group_size] on line 78
    (118, 159): the directory has been listed and the header of the last
    sorted file read, no frame has been loaded and nothing is written. *)
Theorem zero_group_size_raises (env : Env) (dir out : string)
    (names : list string) (sigma : option float) (nan_thresh : Q)
    (first_fname last_fname : string) (hdr : header) :
  os_listdir env dir = Ok names →
  list.head (sort_fnames (select_fnames dir names)) = Some first_fname →
  list.last (sort_fnames (select_fnames dir names)) = Some last_fname →
  fits_getheader env last_fname = Ok hdr →
  11 ≤ len (chars first_fname) →
  gen_sky_image env dir out (Some 0) sigma nan_thresh
  = ([EvListdir dir; EvGetHeader last_fname], Raise ZeroDivisionError)
  ∧ gen_flat_sky_image env dir out (Some 0) sigma nan_thresh
    = ([EvListdir dir; EvGetHeader last_fname], Raise ZeroDivisionError)
  ∧ gen_mean_flat_sky_image env dir out (Some 0) sigma
    = ([EvListdir dir; EvGetHeader last_fname], Raise ZeroDivisionError).
Proof.
  intros Hls Hfirst Hlast Hhdr Hlen.
  eapply no_group_runs; eauto using group_count_zero.
Qed.

Lemma zero_group_size_raises_witness :
  let env := example_env "d" example_mixed_dir in
  gen_sky_image env "d" "out/" (Some 0) None 3
  = ([EvListdir "d"; EvGetHeader "d/01544958C1.flat.fits"], Raise ZeroDivisionError)
  ∧ gen_flat_sky_image env "d" "out/" (Some 0) None 3
    = ([EvListdir "d"; EvGetHeader "d/01544958C1.flat.fits"], Raise ZeroDivisionError)
  ∧ gen_mean_flat_sky_image env "d" "out/" (Some 0) None
    = ([EvListdir "d"; EvGetHeader "d/01544958C1.flat.fits"], Raise ZeroDivisionError).
Proof.
  intros env.
  apply (zero_group_size_raises env "d" "out/" (example_mixed_dir.*1) None 3
           "d/01544957C1.ramp.new" "d/01544958C1.flat.fits" example_header).
  - reflexivity.
  - by vm_compute.
  - by vm_compute.
  - reflexivity.
  - by vm_compute.
Defined.

(** X5: a group size above the number of selected files, or a negative one,
    gives a group count below one (the adjustment of line 80 does not
    fire), so the loop does not run once: no frame is loaded, the aggregate
    of no group median is a scalar, and every generator fails with
    [IndexError] at the next [shape[0]], having written nothing. *)
Theorem oversized_group_loads_nothing (env : Env) (dir out : string)
    (names : list string) (g : Z) (sigma : option float) (nan_thresh : Q)
    (first_fname last_fname : string) (hdr : header) :
  os_listdir env dir = Ok names →
  list.head (sort_fnames (select_fnames dir names)) = Some first_fname →
  list.last (sort_fnames (select_fnames dir names)) = Some last_fname →
  fits_getheader env last_fname = Ok hdr →
  11 ≤ len (chars first_fname) →
  len (select_fnames dir names) < g ∨ g < 0 →
  (∃ q, group_count (len (select_fnames dir names)) g = Ok q ∧ q ≤ 0)
  ∧ gen_sky_image env dir out (Some g) sigma nan_thresh
    = ([EvListdir dir; EvGetHeader last_fname], Raise IndexError)
  ∧ gen_flat_sky_image env dir out (Some g) sigma nan_thresh
    = ([EvListdir dir; EvGetHeader last_fname], Raise IndexError)
  ∧ gen_mean_flat_sky_image env dir out (Some g) sigma
    = ([EvListdir dir; EvGetHeader last_fname], Raise IndexError).
Proof.
  intros Hls Hfirst Hlast Hhdr Hlen Hg.
  destruct (group_count_no_group (len (select_fnames dir names)) g)
    as (q & Hc & Hq); [unfold len; lia|done|].
  split; [eauto|].
  eapply no_group_runs; eauto 6.
Qed.

Lemma oversized_group_loads_nothing_witness :
  let env := example_env "d" example_mixed_dir in
  (∃ q, group_count (len (select_fnames "d" (example_mixed_dir.*1))) 3 = Ok q ∧ q ≤ 0)
  ∧ gen_sky_image env "d" "out/" (Some 3) None 3
    = ([EvListdir "d"; EvGetHeader "d/01544958C1.flat.fits"], Raise IndexError)
  ∧ gen_flat_sky_image env "d" "out/" (Some 3) None 3
    = ([EvListdir "d"; EvGetHeader "d/01544958C1.flat.fits"], Raise IndexError)
  ∧ gen_mean_flat_sky_image env "d" "out/" (Some 3) None
    = ([EvListdir "d"; EvGetHeader "d/01544958C1.flat.fits"], Raise IndexError).
Proof.
  intros env.
  apply (oversized_group_loads_nothing env "d" "out/" (example_mixed_dir.*1) 3 None 3
           "d/01544957C1.ramp.new" "d/01544958C1.flat.fits" example_header).
  - reflexivity.
  - by vm_compute.
  - by vm_compute.
  - reflexivity.
  - by vm_compute.
  - left. by vm_compute.
Defined.

(** ** Outlier rejection with a threshold *)

Lemma mask_nan_sample (img : matrix) (mask : list (list bool)) i j x b :
  sample_at img i j = Some x → mask_at mask i j = Some b →
  sample_at (mask_nan img mask) i j = Some (if b then nan else x).
Proof.
  unfold sample_at, mask_at, mask_nan. intros Hx Hb. rewrite lookup_zip_with.
  destruct (img !! i) as [row|]; simplify_eq/=.
  destruct (mask !! i) as [mrow|]; simplify_eq/=.
  by rewrite lookup_zip_with, Hx, Hb.
Qed.

Lemma mask_lookup_shape (img : matrix) (mask : list (list bool)) i j :
  length <$> mask = length <$> img →
  is_Some (sample_at img i j) → is_Some (mask_at mask i j).
Proof.
  intros Hs [x Hx]. unfold sample_at, mask_at in *.
  destruct (img !! i) as [row|] eqn:Hi; simplify_eq/=.
  assert (Hl : (length <$> img) !! i = Some (length row))
    by (by rewrite list_lookup_fmap, Hi).
  rewrite <- Hs, list_lookup_fmap in Hl.
  destruct (mask !! i) as [mrow|]; simplify_eq/=.
  apply lookup_lt_is_Some_2. rewrite Hl. by eapply lookup_lt_Some.
Qed.

Lemma mask_row_count (row : list float) (mrow : list bool) :
  length mrow = length row →
  (length (filter (λ x, isnan x = true) row)
   ≤ length (filter (λ x, isnan x = true)
               (zip_with (λ (s : float) (b : bool), if b then nan else s) row mrow)))%nat.
Proof.
  revert mrow. induction row as [|s row IH]; intros [|b mrow] Hlen;
    simplify_eq/=; [lia|].
  specialize (IH mrow ltac:(done)).
  rewrite !filter_cons. destruct b.
  - rewrite (decide_True (P := isnan nan = true)) by done.
    case_decide; simpl; lia.
  - destruct (isnan s) eqn:Hs; repeat case_decide; simpl; try lia; congruence.
Qed.

Lemma mask_nan_count (img : matrix) (mask : list (list bool)) :
  length <$> mask = length <$> img → count_nan img ≤ count_nan (mask_nan img mask).
Proof.
  revert mask. induction img as [|row img IH]; intros [|mrow mask] Hs;
    simplify_eq/=; [done|].
  unfold mask_nan. simpl. rewrite !count_nan_cons.
  specialize (IH mask ltac:(done)). unfold mask_nan in IH.
  pose proof (mask_row_count row mrow ltac:(done)). unfold len. lia.
Qed.

(** X6: with a threshold, [sigma_clipped] changes the image only by marking
    samples as missing.  When the mask of the clipping routine has the shape
    of the image, the result has that shape, its sample at every position
    is NaN where the mask is set and the sample of the image elsewhere, a
    missing sample stays missing, and the count of missing samples does not
    decrease. *)
Theorem clipping_only_marks_missing (env : Env) (image : matrix) (s : float)
    (sky : skyref) :
  length <$> sigma_clip env (image_sub image sky) s 5 = length <$> image →
  length <$> sigma_clipped env image (Some s) sky = length <$> image
  ∧ (∀ i j x, sample_at image i j = Some x →
       ∃ b, mask_at (sigma_clip env (image_sub image sky) s 5) i j = Some b
            ∧ sample_at (sigma_clipped env image (Some s) sky) i j
              = Some (if b then nan else x))
  ∧ (∀ i j x, sample_at image i j = Some x → isnan x = true →
       sample_at (sigma_clipped env image (Some s) sky) i j = Some nan)
  ∧ count_nan image ≤ count_nan (sigma_clipped env image (Some s) sky).
Proof.
  intros Hshape. cbn [sigma_clipped].
  assert (Hpos : ∀ i j x, sample_at image i j = Some x →
            ∃ b, mask_at (sigma_clip env (image_sub image sky) s 5) i j = Some b
                 ∧ sample_at (mask_nan image (sigma_clip env (image_sub image sky) s 5)) i j
                   = Some (if b then nan else x)).
  { intros i j x Hx.
    destruct (mask_lookup_shape image _ i j Hshape) as [b Hb]; [by eexists|].
    exists b. split; [done|]. by apply mask_nan_sample. }
  split_and!.
  - by apply mask_nan_shape.
  - done.
  - intros i j x Hx Hnan. destruct (Hpos i j x Hx) as (b & _ & ->).
    destruct b; [done|]. by rewrite (isnan_true_eq x Hnan).
  - by apply mask_nan_count.
Qed.

Lemma clipping_only_marks_missing_witness :
  let env := {| os_listdir := λ _, Ok [];
                fits_getheader := λ _, Ok [];
                fits_getdata := λ _, Ok [];
                sigma_clip := λ img _ _,
                  (λ row : list float, (λ x, (9 <? x)%float) <$> row) <$> img;
                ndimage_median_filter := λ img _, img;
                plt_imsave := λ _ _, Ok ();
                writeto := λ _ _ _ _, Ok () |} in
  let image : matrix := [[1; 50]; [nan; 2]]%float in
  length <$> sigma_clipped env image (Some 3%float) (SkyScalar 0) = length <$> image
  ∧ (∀ i j x, sample_at image i j = Some x →
       ∃ b, mask_at (sigma_clip env (image_sub image (SkyScalar 0)) 3%float 5) i j
            = Some b
            ∧ sample_at (sigma_clipped env image (Some 3%float) (SkyScalar 0)) i j
              = Some (if b then nan else x))
  ∧ (∀ i j x, sample_at image i j = Some x → isnan x = true →
       sample_at (sigma_clipped env image (Some 3%float) (SkyScalar 0)) i j = Some nan)
  ∧ count_nan image ≤ count_nan (sigma_clipped env image (Some 3%float) (SkyScalar 0)).
Proof.
  intros env image.
  apply (clipping_only_marks_missing env image 3%float (SkyScalar 0)).
  reflexivity.
Defined.

(** ** Repairs of a matrix without missing samples *)

Lemma count_nan_zero (img : matrix) :
  count_nan img = 0 → ∀ i j x, sample_at img i j = Some x → isnan x = false.
Proof.
  unfold count_nan, len. intros H i j x Hx.
  assert (Hnil : filter (λ x, isnan x = true) (concat img) = [])
    by (apply length_zero_iff_nil; lia).
  destruct (isnan x) eqn:E; [exfalso|done].
  assert (Hin : x ∈ filter (λ x, isnan x = true) (concat img)).
  { apply list_elem_of_filter. split; [done|].
    unfold sample_at in Hx. destruct (img !! i) as [row|] eqn:Hi; simplify_eq/=.
    apply list_elem_of_In, in_concat. exists row.
    split; apply list_elem_of_In; by eapply list_elem_of_lookup_2. }
  rewrite Hnil in Hin. by apply not_elem_of_nil in Hin.
Qed.

Lemma matrix_eq_samples (a b : matrix) :
  length <$> a = length <$> b →
  (∀ i j x, sample_at b i j = Some x → sample_at a i j = Some x) → a = b.
Proof.
  intros Hs Hxy. apply list_eq. intros i.
  assert (Hl : (length <$> a) !! i = (length <$> b) !! i) by (by rewrite Hs).
  rewrite !list_lookup_fmap in Hl.
  destruct (a !! i) as [ra|] eqn:Ha, (b !! i) as [rb|] eqn:Hb; simplify_eq/=;
    [|done].
  f_equal. apply list_eq. intros j.
  destruct (rb !! j) as [x|] eqn:Hj.
  - specialize (Hxy i j x). unfold sample_at in Hxy. rewrite Ha, Hb in Hxy.
    by apply Hxy.
  - apply lookup_ge_None. rewrite Hl. by apply lookup_ge_None.
Qed.

Lemma fill_nan_no_nan (img other : matrix) :
  count_nan img = 0 → length <$> img = length <$> other → fill_nan img other = img.
Proof.
  intros Hc Hs. apply matrix_eq_samples; [by apply fill_nan_shape|].
  intros i j x Hx. apply (fill_nan_valid_kept img other Hs i j x Hx).
  by eapply count_nan_zero.
Qed.

Lemma fill_nan_scalar_no_nan (img : matrix) (v : float) :
  count_nan img = 0 → fill_nan_scalar img v = img.
Proof.
  intros Hc. apply matrix_eq_samples; [apply fill_nan_scalar_shape|].
  intros i j x Hx. apply (fill_nan_scalar_valid_kept img v i j x Hx).
  by eapply count_nan_zero.
Qed.

(** X7: a sky without missing samples passes every repair unchanged.  On a
    non-empty matrix that holds no NaN, the local-median repair (its filter
    keeping the shape) and the local-mean repair return the matrix itself,
    the picture saved by the local-mean repair is that matrix (the repair
    raises what [plt.imsave] raises), and the final cleanup returns it
    too. *)
Theorem complete_sky_is_untouched (env : Env) (sky : matrix) (size : Z) :
  count_nan sky = 0 →
  shape0 sky * shape1 sky ≠ 0 →
  length <$> ndimage_median_filter env sky size = length <$> sky →
  median_filter_masking env sky size = Ok sky
  ∧ mean_filter_masking env sky size
    = ([EvImsave "filter_img.png" sky],
       match plt_imsave env "filter_img.png" sky with
       | Ok _ => Ok sky
       | Raise e => Raise e
       end)
  ∧ final_cleanup sky = sky.
Proof.
  intros Hc Hsize Hfilt. split_and!.
  - rewrite median_filter_masking_Ok by done. f_equal. by apply fill_nan_no_nan.
  - rewrite mean_filter_masking_run by done.
    rewrite (fill_nan_scalar_no_nan sky) by done.
    destruct (plt_imsave env _ sky) as [[]|e]; [|done].
    do 2 f_equal. apply fill_nan_no_nan; [done|].
    by rewrite uniform_filter_shape.
  - by apply fill_nan_scalar_no_nan.
Qed.

Lemma complete_sky_is_untouched_witness :
  let env := example_env "d" [] in
  let sky : matrix := [[1; 2]; [3; 4]]%float in
  median_filter_masking env sky 50 = Ok sky
  ∧ mean_filter_masking env sky 50
    = ([EvImsave "filter_img.png" sky],
       match plt_imsave env "filter_img.png" sky with
       | Ok _ => Ok sky
       | Raise e => Raise e
       end)
  ∧ final_cleanup sky = sky.
Proof.
  intros env sky. apply (complete_sky_is_untouched env sky 50).
  - reflexivity.
  - vm_compute. discriminate.
  - reflexivity.
Defined.

(** ** The final cleanup *)

Lemma fill_nan_scalar_nan (img : matrix) : fill_nan_scalar img nan = img.
Proof.
  apply matrix_eq_samples; [apply fill_nan_scalar_shape|].
  intros i j x Hx. rewrite (fill_nan_scalar_sample img nan i j x Hx).
  destruct (isnan x) eqn:E; [|done]. by rewrite (isnan_true_eq x E).
Qed.

(** X8: the final cleanup is idempotent, and it has one of two outcomes.
    When the missing-ignoring median of the sky is NaN (no valid sample, or
    infinities of both signs around the middle) the sky is returned as it
    is; otherwise the result holds no missing sample. *)
Theorem final_cleanup_idempotent (sky : matrix) :
  final_cleanup (final_cleanup sky) = final_cleanup sky
  ∧ (isnan (nanmedian sky) = true → final_cleanup sky = sky)
  ∧ (isnan (nanmedian sky) = false → count_nan (final_cleanup sky) = 0).
Proof.
  assert (H1 : isnan (nanmedian sky) = true → final_cleanup sky = sky).
  { intros E. unfold final_cleanup. rewrite (isnan_true_eq _ E).
    apply fill_nan_scalar_nan. }
  assert (H2 : isnan (nanmedian sky) = false → count_nan (final_cleanup sky) = 0).
  { intros E. unfold final_cleanup. by rewrite fill_nan_scalar_count, E. }
  split_and!; [|done|done].
  destruct (isnan (nanmedian sky)) eqn:E.
  - by rewrite !H1.
  - unfold final_cleanup at 1. apply fill_nan_scalar_no_nan. by apply H2.
Qed.

(** ** Normalisation *)

Lemma div_nan_l (x y : float) : isnan x = true → (x / y)%float = nan.
Proof.
  intros Hx. apply isnan_true_eq. destruct (isnan (x / y)) eqn:E; [done|exfalso].
  apply isnan_false_iff in E. apply E.
  rewrite FloatAxioms.div_spec, (isnan_true_eq x Hx). reflexivity.
Qed.

Lemma div_nan_r (x y : float) : isnan y = true → (x / y)%float = nan.
Proof.
  intros Hy. apply isnan_true_eq. destruct (isnan (x / y)) eqn:E; [done|exfalso].
  apply isnan_false_iff in E. apply E.
  rewrite FloatAxioms.div_spec, (isnan_true_eq y Hy).
  change (Prim2SF nan) with S754_nan. by destruct (Prim2SF x).
Qed.

Lemma image_div_sample (img : matrix) (v : float) i j x :
  sample_at img i j = Some x → sample_at (image_div img v) i j = Some (x / v)%float.
Proof.
  unfold sample_at, image_div. intros Hx. rewrite list_lookup_fmap.
  destruct (img !! i) as [row|]; simplify_eq/=.
  by rewrite list_lookup_fmap, Hx.
Qed.

Lemma image_div_row_count (row : list float) (v : float) :
  (length (filter (λ x, isnan x = true) row)
   ≤ length (filter (λ x, isnan x = true) ((λ s, s / v)%float <$> row)))%nat.
Proof.
  induction row as [|s row IH]; csimpl; [lia|].
  rewrite !filter_cons. destruct (isnan s) eqn:Hs.
  - rewrite (div_nan_l s v Hs).
    rewrite (decide_True (P := true = true)) by done.
    rewrite (decide_True (P := isnan nan = true)) by done. simpl. lia.
  - rewrite (decide_False (P := false = true)) by done.
    case_decide; simpl; lia.
Qed.

Lemma image_div_count (img : matrix) (v : float) :
  count_nan img ≤ count_nan (image_div img v).
Proof.
  induction img as [|row img IH]; [done|].
  unfold image_div in *. rewrite fmap_cons, !count_nan_cons.
  pose proof (image_div_row_count row v). unfold len. lia.
Qed.

(** X9: normalisation by the missing-ignoring median keeps the shape,
    divides every sample by that median, and never recovers a sample: a
    missing sample stays missing and the count of missing samples does not
    decrease.  A frame whose median is NaN -- a frame without any valid
    sample in particular -- normalises to a frame that is missing
    everywhere. *)
Theorem normalization_keeps_missing (img : matrix) :
  length <$> normalize img = length <$> img
  ∧ (∀ i j x, sample_at img i j = Some x →
       sample_at (normalize img) i j = Some (x / nanmedian img)%float)
  ∧ (∀ i j x, sample_at img i j = Some x → isnan x = true →
       sample_at (normalize img) i j = Some nan)
  ∧ count_nan img ≤ count_nan (normalize img)
  ∧ (valid_samples (concat img) = [] → isnan (nanmedian img) = true)
  ∧ (isnan (nanmedian img) = true →
     ∀ i j x, sample_at img i j = Some x → sample_at (normalize img) i j = Some nan).
Proof.
  split_and!.
  - apply normalize_shape.
  - intros i j x Hx. by apply image_div_sample.
  - intros i j x Hx Hnan. unfold normalize.
    rewrite (image_div_sample _ _ _ _ _ Hx). f_equal. by apply div_nan_l.
  - apply image_div_count.
  - intros Hv. unfold nanmedian. by rewrite nanmedian1d_all_nan.
  - intros Hm i j x Hx. unfold normalize.
    rewrite (image_div_sample _ _ _ _ _ Hx). f_equal. by apply div_nan_r.
Qed.

(** ** Frames of different shapes *)

Lemma load_group_frames (env : Env) (sigma : option float) (files : list string)
    (frames : list matrix) :
  Forall2 (λ f frame, fits_getdata env f = Ok frame) files frames →
  load_group env sigma files
  = (EvGetData <$> files,
     Ok ((λ data, sigma_clipped env data sigma (SkyScalar 0)) <$> frames)).
Proof.
  induction 1 as [|f frame files frames Hf _ IH]; [done|].
  cbn [load_group]. rewrite Hf, bind_call_Ok, IH, bind_Ok.
  unfold mret, M_ret. cbn [fst snd].
  by rewrite app_nil_r, !fmap_cons.
Qed.

Lemma combine_group_mismatch (images : list matrix) (a b : matrix) :
  a ∈ images → b ∈ images → length <$> a ≠ length <$> b →
  combine_group images = Raise ValueError.
Proof.
  intros Ha Hb Hne. destruct images as [|m0 rest]; [by apply not_elem_of_nil in Ha|].
  unfold combine_group. rewrite fmap_cons. unfold nanmedian_axis0.
  destruct (forallb _ _) eqn:E; [exfalso|done].
  apply Is_true_true, forallb_True in E. rewrite Forall_fmap in E.
  assert (Hall : ∀ m, m ∈ m0 :: rest → length <$> m = length <$> m0).
  { intros m [->|Hm]%elem_of_cons; [done|].
    eapply list.Forall_forall in E; [|exact Hm]. simpl in E.
    unfold same_shape in E. apply Is_true_true, bool_decide_eq_true in E.
    rewrite !normalize_shape in E. done. }
  apply Hne. by rewrite (Hall a), (Hall b).
Qed.

(** X10: frames that do not all have one shape cannot be combined.  With
    the default group size, when every selected file loads and two of the
    frames differ in shape, each generator reads all the files, in sorted
    order, and then fails with [ValueError], raised by the median across
    the images; nothing is written. *)
Theorem frames_of_different_shapes_raise (env : Env) (dir out : string)
    (names : list string) (sigma : option float) (nan_thresh : Q)
    (first_fname last_fname : string) (hdr : header) (frames : list matrix)
    (a b : matrix) :
  os_listdir env dir = Ok names →
  list.head (sort_fnames (select_fnames dir names)) = Some first_fname →
  list.last (sort_fnames (select_fnames dir names)) = Some last_fname →
  fits_getheader env last_fname = Ok hdr →
  11 ≤ len (chars first_fname) →
  Forall2 (λ f frame, fits_getdata env f = Ok frame)
    (sort_fnames (select_fnames dir names)) frames →
  (∀ img s k, length <$> sigma_clip env img s k = length <$> img) →
  a ∈ frames → b ∈ frames → length <$> a ≠ length <$> b →
  gen_sky_image env dir out None sigma nan_thresh
  = (EvListdir dir :: EvGetHeader last_fname
       :: (EvGetData <$> sort_fnames (select_fnames dir names)),
     Raise ValueError)
  ∧ gen_flat_sky_image env dir out None sigma nan_thresh
    = (EvListdir dir :: EvGetHeader last_fname
         :: (EvGetData <$> sort_fnames (select_fnames dir names)),
       Raise ValueError)
  ∧ gen_mean_flat_sky_image env dir out None sigma
    = (EvListdir dir :: EvGetHeader last_fname
         :: (EvGetData <$> sort_fnames (select_fnames dir names)),
       Raise ValueError).
Proof.
  intros Hls Hfirst Hlast Hhdr Hlen Hload Hclip Ha Hb Hne.
  destruct (str_index_Ok first_fname 10) as [det10 Hdet10]; [lia|].
  destruct (str_index_Ok first_fname 11) as [det11 Hdet11]; [lia|].
  change (- (10)) with (-10) in Hdet10. change (- (11)) with (-11) in Hdet11.
  pose proof (head_Some_len _ _ Hfirst) as Hn.
  rewrite sort_fnames_len in Hn.
  assert (Hcomb : combine_group
            ((λ data, sigma_clipped env data sigma (SkyScalar 0)) <$> frames)
          = Raise ValueError).
  { apply (combine_group_mismatch _ (sigma_clipped env a sigma (SkyScalar 0))
             (sigma_clipped env b sigma (SkyScalar 0))).
    - apply list_elem_of_fmap. eauto.
    - apply list_elem_of_fmap. eauto.
    - by rewrite !(sigma_clipped_shape env sigma Hclip). }
  unfold gen_sky_image, gen_flat_sky_image, gen_mean_flat_sky_image.
  rewrite Hls, !bind_call_Ok. cbv beta zeta.
  rewrite (py_index_last _ _ Hlast), !bind_lift_Ok.
  rewrite Hhdr, !bind_call_Ok. cbv beta zeta.
  rewrite (py_index_head _ _ Hfirst), !bind_lift_Ok.
  rewrite Hdet10, Hdet11, !bind_lift_Ok.
  cbn [from_option id]. unfold id.
  rewrite group_count_all, !bind_lift_Ok by done.
  change (range_len 1) with 1%nat. cbn [sky_loop].
  rewrite <- (sort_fnames_len (select_fnames dir names)), py_slice_all.
  rewrite (load_group_frames env sigma _ frames Hload), !bind_Ok.
  cbn [fst snd]. rewrite Hcomb, !bind_lift_Raise. cbn [fst snd].
  by rewrite !app_nil_r.
Qed.

Lemma frames_of_different_shapes_raise_witness :
  let files := [("00000001C1.ramp.new", [[1; 2]]%float);
                ("00000002C1.ramp.new", [[3; 4]; [5; 6]]%float)] in
  let env := example_env "d" files in
  let fnames := sort_fnames (select_fnames "d" (files.*1)) in
  gen_sky_image env "d" "out/" None None 3
  = (EvListdir "d" :: EvGetHeader "d/00000002C1.ramp.new" :: (EvGetData <$> fnames),
     Raise ValueError)
  ∧ gen_flat_sky_image env "d" "out/" None None 3
    = (EvListdir "d" :: EvGetHeader "d/00000002C1.ramp.new" :: (EvGetData <$> fnames),
       Raise ValueError)
  ∧ gen_mean_flat_sky_image env "d" "out/" None None
    = (EvListdir "d" :: EvGetHeader "d/00000002C1.ramp.new" :: (EvGetData <$> fnames),
       Raise ValueError).
Proof.
  intros files env fnames.
  apply (frames_of_different_shapes_raise env "d" "out/" (files.*1) None 3
           "d/00000001C1.ramp.new" "d/00000002C1.ramp.new" example_header
           (files.*2) [[1; 2]]%float [[3; 4]; [5; 6]]%float).
  - reflexivity.
  - by vm_compute.
  - by vm_compute.
  - reflexivity.
  - by vm_compute.
  - vm_compute. repeat constructor.
  - apply example_env_clip_keeps_shape.
  - vm_compute. left.
  - vm_compute. right. left.
  - vm_compute. discriminate.
Defined.

(** ** The threshold of the flat generator *)

Lemma nan_percent_nonneg (img : matrix) (q : Q) :
  nan_percent img = Ok q → (0 <= q)%Q.
Proof.
  unfold nan_percent, nan_percentage. case_decide as Hz; [done|].
  intros [= <-].
  pose proof (count_nan_nonneg img) as Hc.
  assert (Hpos : 0 < shape0 img * shape1 img).
  { assert (0 ≤ shape0 img) by (unfold shape0, len; lia).
    assert (0 ≤ shape1 img) by (unfold shape1, len; destruct img; lia).
    nia. }
  destruct (shape0 img * shape1 img) as [|p|p]; [lia| |lia].
  unfold Qle, Qdiv, Qmult, Qinv, inject_Z. simpl. lia.
Qed.

Lemma same_run_with_cleanup_bind {A} env (m : M A) (f g : A → M unit) :
  (∀ a, same_run_with_cleanup env (f a) (g a)) →
  same_run_with_cleanup env (m ≫= f) (m ≫= g).
Proof.
  intros H. destruct m as [t [a|e]]; [|left; by exists t, e].
  rewrite !bind_Ok.
  destruct (H a) as [(t' & e & -> & ->) | (t0 & path & hdr & sky & -> & ->)];
    cbn [fst snd].
  - left. by exists (t ++ t'), e.
  - right. exists (t ++ t0), path, hdr, sky. by rewrite !app_assoc.
Qed.

(** X11: with a threshold that is not positive -- its default, zero, in
    particular -- the flat generator always applies the local-mean repair:
    the percentage of missing samples is never negative.  Its run is then
    the run of [gen_mean_flat_sky_image] on the same arguments, with the
    same calls and the same failures up to the write, except that the
    matrix written has passed the final cleanup; each run ends as its own
    write does. *)
Theorem flat_generator_always_repairs (env : Env) (dir out : string)
    (sky_group_size : option Z) (sigma : option float) (nan_thresh : Q) :
  (nan_thresh <= 0)%Q →
  same_run_with_cleanup env
    (gen_flat_sky_image env dir out sky_group_size sigma nan_thresh)
    (gen_mean_flat_sky_image env dir out sky_group_size sigma).
Proof.
  intros Hthr. unfold gen_flat_sky_image, gen_mean_flat_sky_image.
  apply same_run_with_cleanup_bind; intros names.
  apply same_run_with_cleanup_bind; intros last_fname.
  apply same_run_with_cleanup_bind; intros hdr.
  apply same_run_with_cleanup_bind; intros first_fname.
  apply same_run_with_cleanup_bind; intros detector.
  apply same_run_with_cleanup_bind; intros ngroups.
  apply same_run_with_cleanup_bind; intros median_array.
  apply same_run_with_cleanup_bind; intros sky.
  destruct (nan_percent sky) as [q|e] eqn:Hq.
  - rewrite bind_lift_Ok.
    assert (Qle_bool nan_thresh q = true) as ->.
    { apply Qle_bool_iff. eapply Qle_trans; [exact Hthr|].
      by eapply nan_percent_nonneg. }
    destruct (mean_filter_masking env sky 30) as [t [sky'|e]].
    + rewrite !bind_Ok. cbn [fst snd]. right. by eexists t, _, _, sky'.
    + left. by exists t, e.
  - left. unfold mean_filter_masking. rewrite Hq. by eexists _, _.
Qed.

Lemma flat_generator_always_repairs_witness :
  same_run_with_cleanup (example_env "d" example_mixed_dir)
    (gen_flat_sky_image (example_env "d" example_mixed_dir) "d" "out/" None None 0)
    (gen_mean_flat_sky_image (example_env "d" example_mixed_dir) "d" "out/" None None).
Proof.
  apply (flat_generator_always_repairs (example_env "d" example_mixed_dir)
           "d" "out/" None None 0).
  by vm_compute.
Defined.

(** ** A frame that fails to load *)

Lemma load_group_fails (env : Env) (sigma : option float) (pre post : list string)
    (f : string) (frames : list matrix) (e : exn) :
  Forall2 (λ f frame, fits_getdata env f = Ok frame) pre frames →
  fits_getdata env f = Raise e →
  load_group env sigma (pre ++ f :: post) = (EvGetData <$> (pre ++ [f]), Raise e).
Proof.
  intros Hpre Hf. induction Hpre as [|g frame pre frames Hg _ IH].
  - cbn [app load_group]. by rewrite Hf, bind_call_Raise.
  - cbn [app load_group]. rewrite Hg, bind_call_Ok, IH. by rewrite fmap_cons.
Qed.

Lemma Forall_loads_Forall2 (env : Env) (shape : list nat) (files : list string) :
  Forall (λ f, ∃ img : matrix, fits_getdata env f = Ok img
                               ∧ length <$> img = shape) files →
  ∃ frames, Forall2 (λ f frame, fits_getdata env f = Ok frame) files frames.
Proof.
  induction 1 as [|f files (img & Hf & _) _ [frames IH]].
  - exists []. constructor.
  - exists (img :: frames). by constructor.
Qed.

Section FailingLoad.
Variable env : Env.
Variable sigma : option float.
Variable shape : list nat.
Variable image_fnames : list string.
Variable k : nat.
Variable fk : string.
Variable e : exn.

Hypothesis clip_keeps_shape :
  ∀ img s n, length <$> sigma_clip env img s n = length <$> img.
Hypothesis loads_before :
  Forall (λ f, ∃ img : matrix, fits_getdata env f = Ok img
                               ∧ length <$> img = shape) (take k image_fnames).
Hypothesis failing_file : image_fnames !! k = Some fk.
Hypothesis load_fails : fits_getdata env fk = Raise e.

Lemma loads_before_elem f :
  f ∈ take k image_fnames →
  ∃ img : matrix, fits_getdata env f = Ok img ∧ length <$> img = shape.
Proof. intros Hf. by eapply list.Forall_forall in loads_before. Qed.

(** The loop stops in the group of the failing file, having read the files
    from [file_counter] to it. *)
Lemma sky_loop_fails (sky_group_size : Z) (iters : nat) (file_counter : Z)
    (median_array : list matrix) :
  1 ≤ sky_group_size → 0 ≤ file_counter ≤ Z.of_nat k →
  Z.of_nat k < file_counter + Z.of_nat iters * sky_group_size →
  file_counter + Z.of_nat iters * sky_group_size ≤ len image_fnames →
  sky_loop env image_fnames sky_group_size sigma iters file_counter median_array
  = (EvGetData <$> take (S k - Z.to_nat file_counter)
                     (drop (Z.to_nat file_counter) image_fnames),
     Raise e).
Proof.
  intros Hg. revert file_counter median_array.
  induction iters as [|n IH]; intros fc ma Hfc Hk Hle; [lia|].
  cbn [sky_loop]. rewrite py_slice_in_range by lia.
  replace (fc + sky_group_size - fc) with sky_group_size by lia.
  destruct (decide (Z.of_nat k < fc + sky_group_size)) as [Hin|Hout].
  - (* the failing file is in this group *)
    assert (Hsplit : take (Z.to_nat sky_group_size) (drop (Z.to_nat fc) image_fnames)
              = take (k - Z.to_nat fc) (drop (Z.to_nat fc) image_fnames)
                ++ fk :: take (Z.to_nat sky_group_size - S (k - Z.to_nat fc))
                           (drop (S k) image_fnames)).
    { assert (HL : drop (Z.to_nat fc) image_fnames !! (k - Z.to_nat fc)%nat = Some fk).
      { rewrite lookup_drop, <- failing_file. f_equal. lia. }
      replace (Z.to_nat sky_group_size)
        with ((k - Z.to_nat fc) + S (Z.to_nat sky_group_size - S (k - Z.to_nat fc)))%nat
        at 1 by lia.
      rewrite <- take_take_drop, (drop_S _ _ _ HL). cbn [firstn].
      rewrite drop_drop. repeat f_equal. lia. }
    destruct (Forall_loads_Forall2 env shape
                (take (k - Z.to_nat fc) (drop (Z.to_nat fc) image_fnames)))
      as [frames Hframes].
    { apply list.Forall_forall. intros f Hf. apply loads_before_elem.
      apply list_elem_of_lookup in Hf as [i Hi].
      apply lookup_take_Some in Hi as [Hi Hlt]. rewrite lookup_drop in Hi.
      apply list_elem_of_lookup. exists (Z.to_nat fc + i)%nat.
      apply lookup_take_Some. split; [done|lia]. }
    rewrite Hsplit, (load_group_fails env sigma _ _ fk frames e Hframes load_fails).
    rewrite bind_Raise. do 2 f_equal.
    replace (S k - Z.to_nat fc)%nat with (S (k - Z.to_nat fc)) by lia.
    rewrite (take_S_r _ _ fk); [done|].
    rewrite lookup_drop. rewrite <- failing_file. f_equal. lia.
  - (* the group loads, and the loop goes on *)
    destruct (load_group_ok env sigma shape (take k image_fnames)
                clip_keeps_shape loads_before_elem
                (take (Z.to_nat sky_group_size) (drop (Z.to_nat fc) image_fnames)))
      as (images & Hload & Hlen & Hshape).
    { intros f Hf. apply list_elem_of_lookup in Hf as [i Hi].
      apply lookup_take_Some in Hi as [Hi Hlt]. rewrite lookup_drop in Hi.
      apply list_elem_of_lookup. exists (Z.to_nat fc + i)%nat.
      apply lookup_take_Some. split; [done|lia]. }
    destruct (combine_group_ok shape images) as (gm & Hgm & _); [|done|].
    { intros ->. rewrite length_take, length_drop in Hlen.
      unfold len in Hle. simpl in Hlen. lia. }
    rewrite Hload, bind_Ok, Hgm, bind_lift_Ok. cbn [fst snd].
    rewrite (IH (fc + sky_group_size) (ma ++ [gm])) by lia.
    cbn [fst snd]. f_equal. rewrite <- fmap_app. f_equal.
    replace (Z.to_nat (fc + sky_group_size))
      with (Z.to_nat fc + Z.to_nat sky_group_size)%nat by lia.
    rewrite <- drop_drop.
    replace (S k - Z.to_nat fc)%nat
      with (Z.to_nat sky_group_size
            + (S k - (Z.to_nat fc + Z.to_nat sky_group_size)))%nat by lia.
    by rewrite take_take_drop.
Qed.

End FailingLoad.

(** X12: a frame that cannot be loaded stops the run at once.  When the
    file at position [k] of the sorted list, within the full groups, fails
    to load with an exception, the files before it loading as frames of one
    non-empty shape, each generator raises that exception after having
    read the files up to and including the failing one: no later file is
    read, no group after it is combined, and nothing is written. *)
Theorem failed_load_stops_the_run (env : Env) (dir out : string)
    (names : list string) (sky_group_size : option Z) (sigma : option float)
    (nan_thresh : Q) (first_fname last_fname : string) (hdr : header)
    (shape : list nat) (k : nat) (fk : string) (e : exn) :
  os_listdir env dir = Ok names →
  list.head (sort_fnames (select_fnames dir names)) = Some first_fname →
  list.last (sort_fnames (select_fnames dir names)) = Some last_fname →
  fits_getheader env last_fname = Ok hdr →
  11 ≤ len (chars first_fname) →
  (∀ g, sky_group_size = Some g →
        1 ≤ g ≤ len (sort_fnames (select_fnames dir names))) →
  (∀ img s n, length <$> sigma_clip env img s n = length <$> img) →
  Forall (λ f, ∃ img : matrix, fits_getdata env f = Ok img
                               ∧ length <$> img = shape)
    (take k (sort_fnames (select_fnames dir names))) →
  full_groups_prefix (sort_fnames (select_fnames dir names)) sky_group_size !! k
    = Some fk →
  fits_getdata env fk = Raise e →
  gen_sky_image env dir out sky_group_size sigma nan_thresh
  = (EvListdir dir :: EvGetHeader last_fname
       :: (EvGetData <$> take (S k) (sort_fnames (select_fnames dir names))),
     Raise e)
  ∧ gen_flat_sky_image env dir out sky_group_size sigma nan_thresh
    = (EvListdir dir :: EvGetHeader last_fname
         :: (EvGetData <$> take (S k) (sort_fnames (select_fnames dir names))),
       Raise e)
  ∧ gen_mean_flat_sky_image env dir out sky_group_size sigma
    = (EvListdir dir :: EvGetHeader last_fname
         :: (EvGetData <$> take (S k) (sort_fnames (select_fnames dir names))),
       Raise e).
Proof.
  intros Hls Hfirst Hlast Hhdr Hlen Hg Hclip Hbefore Hk Hfail.
  destruct (str_index_Ok first_fname 10) as [det10 Hdet10]; [lia|].
  destruct (str_index_Ok first_fname 11) as [det11 Hdet11]; [lia|].
  change (- (10)) with (-10) in Hdet10. change (- (11)) with (-11) in Hdet11.
  pose proof (head_Some_len _ _ Hfirst) as Hn.
  remember (sort_fnames (select_fnames dir names)) as fnames eqn:Ef.
  remember (default (len fnames) sky_group_size) as g eqn:Eg.
  assert (Hgr : 1 ≤ g ≤ len fnames).
  { subst g. destruct sky_group_size as [g|]; simpl; [by apply Hg|lia]. }
  assert (Hle : len fnames `div` g * g ≤ len fnames) by (apply floor_times_le; lia).
  assert (Hq : 0 ≤ len fnames `div` g) by (apply Z.div_pos; lia).
  unfold full_groups_prefix in Hk. cbv zeta in Hk. rewrite <- Eg in Hk.
  apply lookup_take_Some in Hk as [Hk Hklt].
  assert (Hloop : ∀ ma,
            sky_loop env fnames g sigma (Z.to_nat (len fnames `div` g)) 0 ma
            = (EvGetData <$> take (S k) fnames, Raise e)).
  { intros ma.
    rewrite (sky_loop_fails env sigma shape fnames k fk e Hclip Hbefore Hk Hfail)
      by lia.
    by rewrite Nat.sub_0_r, drop_0. }
  unfold gen_sky_image, gen_flat_sky_image, gen_mean_flat_sky_image.
  rewrite Hls, !bind_call_Ok. cbv beta zeta. rewrite <- Ef.
  rewrite (py_index_last _ _ Hlast), !bind_lift_Ok.
  rewrite Hhdr, !bind_call_Ok. cbv beta zeta.
  rewrite (py_index_head _ _ Hfirst), !bind_lift_Ok.
  rewrite Hdet10, Hdet11, !bind_lift_Ok.
  assert (Hsel : len (select_fnames dir names) = len fnames)
    by (by rewrite Ef, sort_fnames_len).
  rewrite Hsel, <- Eg.
  rewrite (group_count_floor (len fnames) g) by lia.
  rewrite !bind_lift_Ok. unfold range_len. rewrite !Hloop. done.
Qed.

Lemma failed_load_stops_the_run_witness :
  let env := example_failing_env in
  let names := ["00000003C1.ramp.new"; "00000001C1.ramp.new"; "00000002C1.ramp.new"] in
  let last_fname := "d/00000003C1.ramp.new" in
  let e := StoreError "OSError" in
  gen_sky_image env "d" "out/" None None 3
  = (EvListdir "d" :: EvGetHeader last_fname
       :: (EvGetData <$> take 2 (sort_fnames (select_fnames "d" names))),
     Raise e)
  ∧ gen_flat_sky_image env "d" "out/" None None 3
    = (EvListdir "d" :: EvGetHeader last_fname
         :: (EvGetData <$> take 2 (sort_fnames (select_fnames "d" names))),
       Raise e)
  ∧ gen_mean_flat_sky_image env "d" "out/" None None
    = (EvListdir "d" :: EvGetHeader last_fname
         :: (EvGetData <$> take 2 (sort_fnames (select_fnames "d" names))),
       Raise e).
Proof.
  intros env names last_fname e.
  apply (failed_load_stops_the_run env "d" "out/" names None None 3
           "d/00000001C1.ramp.new" last_fname example_header [2%nat] 1
           "d/00000002C1.ramp.new" e).
  - reflexivity.
  - by vm_compute.
  - by vm_compute.
  - reflexivity.
  - by vm_compute.
  - intros g [=].
  - apply (example_env_clip_keeps_shape "d" []).
  - vm_compute. constructor; [|constructor]. eexists. split; reflexivity.
  - by vm_compute.
  - reflexivity.
Defined.


(** * Properties of the astrometry file names *)

(** ** Patterns *)

Lemma fnmatch_chars_qmark (pat name : list ascii) :
  fnmatch_chars ("?"%char :: pat) name = true
  ↔ ∃ c rest, name = c :: rest ∧ fnmatch_chars pat rest = true.
Proof.
  cbn [fnmatch_chars]. rewrite bool_decide_eq_false_2 by done.
  destruct name as [|c rest].
  - split; [done|]. by intros (? & ? & ? & _).
  - rewrite (bool_decide_eq_true_2 ("?"%char = "?"%char)) by done.
    cbn [orb andb]. split; [eauto|]. by intros (? & ? & [= <- <-] & ?).
Qed.

Lemma fnmatch_chars_literal (p : ascii) (pat name : list ascii) :
  p ≠ "*"%char → p ≠ "?"%char →
  fnmatch_chars (p :: pat) name = true
  ↔ ∃ rest, name = p :: rest ∧ fnmatch_chars pat rest = true.
Proof.
  intros Hs Hq. cbn [fnmatch_chars]. rewrite bool_decide_eq_false_2 by done.
  destruct name as [|c rest].
  - split; [done|]. by intros (? & ? & _).
  - rewrite (bool_decide_eq_false_2 (p = "?"%char)) by done. cbn [orb].
    rewrite andb_true_iff, bool_decide_eq_true. split.
    + intros [-> ?]. eauto.
    + by intros (? & [= <- <-] & ?).
Qed.

Lemma fnmatch_chars_plain (pat name : list ascii) :
  Forall (λ p, p ≠ "*"%char ∧ p ≠ "?"%char) pat →
  fnmatch_chars pat name = true ↔ name = pat.
Proof.
  intros Hp. revert name. induction Hp as [|p pat [Hs Hq] _ IH]; intros name.
  - cbn [fnmatch_chars]. by rewrite bool_decide_eq_true.
  - rewrite fnmatch_chars_literal by done. split.
    + intros (rest & -> & H). f_equal. by apply IH.
    + intros ->. exists pat. split; [done|]. by apply IH.
Qed.

(** A name matches ['????????C?' + suffix] exactly when it is eight
    characters, a [C], one character, and the suffix. *)
Lemma fnmatch_frame (f suffix : string) :
  Forall (λ p, p ≠ "*"%char ∧ p ≠ "?"%char) (chars suffix) →
  fnmatch f ("????????C?" +:+ suffix) = true
  ↔ ∃ seq chip, length seq = 8%nat
                ∧ chars f = seq ++ "C"%char :: chip :: chars suffix.
Proof.
  intros Hs. unfold fnmatch. rewrite chars_app.
  change (chars "????????C?") with (replicate 8 "?"%char ++ ["C"; "?"]%char).
  cbn [replicate app]. generalize (chars f). intros name. split.
  - intros H.
    do 8 (apply fnmatch_chars_qmark in H as (? & ? & -> & H)).
    apply fnmatch_chars_literal in H as (? & -> & H); [|done..].
    apply fnmatch_chars_qmark in H as (chip & ? & -> & H).
    apply fnmatch_chars_plain in H as ->; [|done].
    by eexists [_; _; _; _; _; _; _; _], chip.
  - intros (seq & chip & Hlen & ->).
    do 8 (destruct seq as [|? seq]; [done|]). destruct seq; [|done].
    cbn [app].
    do 8 (apply fnmatch_chars_qmark; eexists _, _; split; [reflexivity|]).
    apply fnmatch_chars_literal; [done..|]. eexists. split; [reflexivity|].
    apply fnmatch_chars_qmark. eexists _, _. split; [reflexivity|].
    by apply fnmatch_chars_plain.
Qed.

Lemma plain_suffixes (suffix : string) :
  suffix ∈ [".fits"; ".fits.ramp"; ".ramp.new"; ".ramp.fits"; ".sky.flat.fits";
            ".flat.fits"] →
  Forall (λ p, p ≠ "*"%char ∧ p ≠ "?"%char) (chars suffix).
Proof.
  intros H. repeat (apply elem_of_cons in H as [->|H];
                    [apply (bool_decide_unpack _); by vm_compute|]).
  by apply not_elem_of_nil in H.
Qed.

Ltac plain_suffix := apply plain_suffixes; repeat first [left | right].

Lemma is_frame_name_spec (f : string) :
  is_frame_name f = true
  ↔ ∃ seq chip suffix,
      length seq = 8%nat
      ∧ suffix ∈ [".fits"; ".fits.ramp"; ".ramp.new"; ".ramp.fits"; ".sky.flat.fits"]
      ∧ chars f = seq ++ "C"%char :: chip :: chars suffix.
Proof.
  unfold is_frame_name. rewrite !orb_true_iff. split.
  - intros [[[[H|H]|H]|H]|H].
    + apply (fnmatch_frame f ".fits") in H as (seq & chip & Hlen & Hf);
        [|plain_suffix].
      exists seq, chip, ".fits". split_and!; [done| |done]. do 0 right; left.
    + apply (fnmatch_frame f ".fits.ramp") in H as (seq & chip & Hlen & Hf);
        [|plain_suffix].
      exists seq, chip, ".fits.ramp". split_and!; [done| |done]. do 1 right; left.
    + apply (fnmatch_frame f ".ramp.new") in H as (seq & chip & Hlen & Hf);
        [|plain_suffix].
      exists seq, chip, ".ramp.new". split_and!; [done| |done]. do 2 right; left.
    + apply (fnmatch_frame f ".ramp.fits") in H as (seq & chip & Hlen & Hf);
        [|plain_suffix].
      exists seq, chip, ".ramp.fits". split_and!; [done| |done]. do 3 right; left.
    + apply (fnmatch_frame f ".sky.flat.fits") in H as (seq & chip & Hlen & Hf);
        [|plain_suffix].
      exists seq, chip, ".sky.flat.fits". split_and!; [done| |done]. do 4 right; left.
  - intros (seq & chip & suffix & Hlen & Hin & Hf).
    repeat (apply elem_of_cons in Hin as [->|Hin]).
    + do 4 left. apply (fnmatch_frame f ".fits"); [plain_suffix|]. by exists seq, chip.
    + do 3 left. right. apply (fnmatch_frame f ".fits.ramp"); [plain_suffix|].
      by exists seq, chip.
    + do 2 left. right. apply (fnmatch_frame f ".ramp.new"); [plain_suffix|].
      by exists seq, chip.
    + left. right. apply (fnmatch_frame f ".ramp.fits"); [plain_suffix|].
      by exists seq, chip.
    + right. apply (fnmatch_frame f ".sky.flat.fits"); [plain_suffix|].
      by exists seq, chip.
    + by apply not_elem_of_nil in Hin.
Qed.

(** X13: [get_files] lists the directory once and returns, in the order of
    the listing, exactly the entries made of eight characters, a [C], one
    character and one of the five suffixes ['.fits'], ['.fits.ramp'],
    ['.ramp.new'], ['.ramp.fits'], ['.sky.flat.fits']. *)
Theorem get_files_selects_frame_names (env : Env) (directory : string)
    (ls : list string) :
  os_listdir env directory = Ok ls →
  ∃ fits_files,
    get_files env directory = ([EvListdir directory], Ok fits_files)
    ∧ fits_files `sublist_of` ls
    ∧ (∀ f, f ∈ fits_files
            ↔ f ∈ ls
              ∧ ∃ seq chip suffix,
                  length seq = 8%nat
                  ∧ suffix ∈ [".fits"; ".fits.ramp"; ".ramp.new"; ".ramp.fits";
                              ".sky.flat.fits"]
                  ∧ chars f = seq ++ "C"%char :: chip :: chars suffix).
Proof.
  intros Hls. exists (filter (λ f, is_frame_name f = true) ls). split_and!.
  - unfold get_files. by rewrite Hls, bind_call_Ok.
  - apply sublist_filter.
  - intros f. rewrite list_elem_of_filter, is_frame_name_spec. tauto.
Qed.

Lemma get_files_selects_frame_names_witness :
  let ls := ["00087801C3.fits"; "notes.txt"; "00087802C3.ramp.new";
             "00087803C3.flat.fits"] in
  let env := example_env "d" ((λ f, (f, [])) <$> ls) in
  ∃ fits_files,
    get_files env "d" = ([EvListdir "d"], Ok fits_files)
    ∧ fits_files `sublist_of` ls
    ∧ (∀ f, f ∈ fits_files
            ↔ f ∈ ls
              ∧ ∃ seq chip suffix,
                  length seq = 8%nat
                  ∧ suffix ∈ [".fits"; ".fits.ramp"; ".ramp.new"; ".ramp.fits";
                              ".sky.flat.fits"]
                  ∧ chars f = seq ++ "C"%char :: chip :: chars suffix).
Proof.
  intros ls env. apply (get_files_selects_frame_names env "d" ls). reflexivity.
Defined.

(** The same listing, evaluated. *)
Example get_files_example :
  get_files
    (example_env "d"
       ((λ f, (f, [])) <$> ["00087801C3.fits"; "notes.txt"; "00087802C3.ramp.new";
                            "00087803C3.flat.fits"])) "d"
  = ([EvListdir "d"], Ok ["00087801C3.fits"; "00087802C3.ramp.new"]).
Proof. by vm_compute. Qed.

(** ** Frame names and the inputs of the sky generator *)

Lemma suffix_drop_eq {A} (s l : list A) :
  s `suffix_of` l → drop (length l - length s) l = s.
Proof.
  intros [k ->]. rewrite length_app.
  replace (length k + length s - length s)%nat with (length k) by lia.
  apply drop_app_length.
Qed.

Lemma endswith_true (f s : string) (stem : list ascii) :
  chars f = stem ++ chars s → endswith f s = true.
Proof.
  intros H. unfold endswith. apply bool_decide_eq_true. rewrite H.
  by apply suffix_app_r.
Qed.

Lemma endswith_drop (f s : string) :
  endswith f s = true →
  drop (length (chars f) - length (chars s)) (chars f) = chars s.
Proof. intros H%bool_decide_eq_true. by apply suffix_drop_eq. Qed.

Ltac explicit_seq seq Hlen :=
  do 8 (destruct seq as [|? seq]; [discriminate Hlen|]);
  destruct seq; [clear Hlen|discriminate Hlen].

Ltac not_endswith H Hf :=
  apply endswith_drop in H; rewrite Hf in H; vm_compute in H; discriminate H.

(** X14: which of the frame names of [get_files] the sky generator
    selects.  A frame name ends in ['.ramp.new'] or ['.flat.fits'] exactly
    when it matches ['????????C?.ramp.new'] or
    ['????????C?.sky.flat.fits']; the names in ['.fits'], ['.fits.ramp']
    and ['.ramp.fits'] are not inputs of the sky generator.  Conversely a
    name made of eight characters, a [C], one character and ['.flat.fits']
    is an input of the sky generator and not a frame name. *)
Theorem frame_names_taken_by_the_sky_generator (f : string) :
  (is_frame_name f = true →
   (has_input_suffix f = true
    ↔ fnmatch f "????????C?.ramp.new" = true
      ∨ fnmatch f "????????C?.sky.flat.fits" = true))
  ∧ (fnmatch f "????????C?.flat.fits" = true →
     has_input_suffix f = true ∧ is_frame_name f = false).
Proof.
  split.
  - intros Hframe. split.
    + intros Hin. apply is_frame_name_spec in Hframe
        as (seq & chip & suffix & Hlen & Hsfx & Hf).
      clear -Hin Hlen Hsfx Hf.
      unfold has_input_suffix in Hin. apply orb_true_iff in Hin.
      explicit_seq seq Hlen.
      repeat (apply elem_of_cons in Hsfx as [->|Hsfx]).
      * destruct Hin as [H|H]; not_endswith H Hf.
      * destruct Hin as [H|H]; not_endswith H Hf.
      * left. apply (fnmatch_frame f ".ramp.new"); [plain_suffix|].
        eexists [_; _; _; _; _; _; _; _], _. split; [reflexivity|exact Hf].
      * destruct Hin as [H|H]; not_endswith H Hf.
      * right. apply (fnmatch_frame f ".sky.flat.fits"); [plain_suffix|].
        eexists [_; _; _; _; _; _; _; _], _. split; [reflexivity|exact Hf].
      * by apply not_elem_of_nil in Hsfx.
    + clear Hframe. unfold has_input_suffix. rewrite orb_true_iff.
      intros [H|H].
      * apply (fnmatch_frame f ".ramp.new") in H as (seq & chip & _ & Hf);
          [|plain_suffix].
        left. apply (endswith_true _ _ (seq ++ ["C"%char; chip])).
        rewrite Hf, <- app_assoc. reflexivity.
      * apply (fnmatch_frame f ".sky.flat.fits") in H as (seq & chip & _ & Hf);
          [|plain_suffix].
        right. apply (endswith_true _ _ (seq ++ ["C"%char; chip] ++ chars ".sky")).
        rewrite Hf, <- !app_assoc. reflexivity.
  - intros H. apply (fnmatch_frame f ".flat.fits") in H as (seq & chip & Hlen & Hf);
      [|plain_suffix]. split.
    + unfold has_input_suffix. apply orb_true_iff. right.
      apply (endswith_true _ _ (seq ++ ["C"%char; chip])).
      rewrite Hf, <- app_assoc. reflexivity.
    + destruct (is_frame_name f) eqn:E; [exfalso|reflexivity].
      apply is_frame_name_spec in E as (seq' & chip' & suffix & Hlen' & Hsfx & Hf').
      rewrite Hf in Hf'. clear -Hlen Hlen' Hsfx Hf'.
      explicit_seq seq Hlen. explicit_seq seq' Hlen'.
      repeat (apply elem_of_cons in Hsfx as [->|Hsfx]);
        try (vm_compute in Hf'; discriminate Hf').
      by apply not_elem_of_nil in Hsfx.
Qed.

(** ** The fixed offsets of the output name *)

Lemma path_join_chars (dir f : string) :
  ∃ pre, chars (path_join dir f) = pre ++ chars f.
Proof.
  unfold path_join. destruct (startswith f "/"); [by exists []|].
  destruct (_ || _); rewrite !chars_app.
  - by exists (chars dir).
  - exists (chars dir ++ chars "/"). by rewrite <- app_assoc.
Qed.

(** Negative offsets count from the end: a slice and an index within the
    last [len w] characters do not depend on what precedes them. *)
Lemma py_slice_from_end {A} (pre w : list A) (a b : Z) :
  a = - len w → a ≤ b < 0 →
  py_slice (pre ++ w) a b = take (Z.to_nat (b - a)) w.
Proof.
  intros -> Hab. unfold py_slice, slice_index.
  assert (Hl : len (pre ++ w) = len pre + len w)
    by (unfold len; rewrite length_app; lia).
  rewrite Hl. rewrite !decide_True by lia.
  rewrite !Z.max_l by (unfold len in *; lia).
  replace (Z.to_nat (- len w + (len pre + len w))) with (length pre)
    by (unfold len; lia).
  rewrite drop_app_length. f_equal. lia.
Qed.

Lemma py_index_from_end {A} (pre w : list A) (a : Z) (x : A) :
  - len w ≤ a < 0 → w !! Z.to_nat (len w + a) = Some x →
  py_index (pre ++ w) a = Ok x.
Proof.
  intros Ha Hx. unfold py_index. cbv zeta.
  assert (Hl : len (pre ++ w) = len pre + len w)
    by (unfold len; rewrite length_app; lia).
  rewrite (decide_True (P := a < 0)) by lia.
  rewrite decide_False by (unfold len in *; lia).
  replace (Z.to_nat (a + len (pre ++ w)))
    with (length pre + Z.to_nat (len w + a))%nat by (unfold len in *; lia).
  by rewrite lookup_app_r, Nat.add_comm, Nat.add_sub, Hx by lia.
Qed.

Lemma str_slice_from_end (s : string) (pre w : list ascii) (a b : Z) :
  chars s = pre ++ w → a = - len w → a ≤ b < 0 →
  str_slice s a b = str (take (Z.to_nat (b - a)) w).
Proof.
  intros Hs Hw Hab. unfold str_slice. by rewrite Hs, py_slice_from_end.
Qed.

Lemma str_index_from_end (s : string) (pre w : list ascii) (a : Z) (x : ascii) :
  chars s = pre ++ w → - len w ≤ a < 0 → w !! Z.to_nat (len w + a) = Some x →
  str_index s a = Ok (String x "").
Proof.
  intros Hs Ha Hx. unfold str_index. by rewrite Hs, (py_index_from_end pre w a x).
Qed.

(** X15: the fixed offsets of the output name fit the names of the frames.
    For a name that matches ['????????C?.ramp.new'], joined to any
    directory, the slice [-19:-11] of [gen_sky_image] is its eight leading
    characters and the character [-10] is the one after the [C]; for a name
    of eight characters, a [C], one character and ['.flat.fits'] the
    offsets [-20:-12] and [-11] of the two flat generators give the same
    parts.  For a name that matches ['????????C?.sky.flat.fits'] the flat
    offsets give the last four of the eight characters followed by the
    [C], the next character and ['.s'], and the character ['y']. *)
Theorem offsets_fit_the_frame_names (dir f : string) :
  (fnmatch f "????????C?.ramp.new" = true →
   ∃ seq chip,
     length seq = 8%nat
     ∧ chars f = seq ++ "C"%char :: chip :: chars ".ramp.new"
     ∧ str_slice (path_join dir f) (-19) (-11) = str seq
     ∧ str_index (path_join dir f) (-10) = Ok (String chip ""))
  ∧ (fnmatch f "????????C?.flat.fits" = true →
     ∃ seq chip,
       length seq = 8%nat
       ∧ chars f = seq ++ "C"%char :: chip :: chars ".flat.fits"
       ∧ str_slice (path_join dir f) (-20) (-12) = str seq
       ∧ str_index (path_join dir f) (-11) = Ok (String chip ""))
  ∧ (fnmatch f "????????C?.sky.flat.fits" = true →
     ∃ seq chip,
       length seq = 8%nat
       ∧ chars f = seq ++ "C"%char :: chip :: chars ".sky.flat.fits"
       ∧ str_slice (path_join dir f) (-20) (-12)
         = str (drop 4 seq ++ "C"%char :: chip :: chars ".s")
       ∧ str_index (path_join dir f) (-11) = Ok "y").
Proof.
  destruct (path_join_chars dir f) as [pre Hpre].
  split_and!; intros H.
  - apply (fnmatch_frame f ".ramp.new") in H as (seq & chip & Hlen & Hf);
      [|plain_suffix].
    exists seq, chip. split; [exact Hlen|]. split; [exact Hf|].
    rewrite Hf in Hpre. clear Hf. explicit_seq seq Hlen. split.
    + rewrite (str_slice_from_end _ _ _ (-19) (-11) Hpre); [reflexivity..|lia].
    + rewrite (str_index_from_end _ _ _ (-10) chip Hpre);
        [reflexivity|vm_compute; by split|reflexivity].
  - apply (fnmatch_frame f ".flat.fits") in H as (seq & chip & Hlen & Hf);
      [|plain_suffix].
    exists seq, chip. split; [exact Hlen|]. split; [exact Hf|].
    rewrite Hf in Hpre. clear Hf. explicit_seq seq Hlen. split.
    + rewrite (str_slice_from_end _ _ _ (-20) (-12) Hpre); [reflexivity..|lia].
    + rewrite (str_index_from_end _ _ _ (-11) chip Hpre);
        [reflexivity|vm_compute; by split|reflexivity].
  - apply (fnmatch_frame f ".sky.flat.fits") in H as (seq & chip & Hlen & Hf);
      [|plain_suffix].
    exists seq, chip. split; [exact Hlen|]. split; [exact Hf|].
    rewrite Hf in Hpre. clear Hf. explicit_seq seq Hlen.
    match type of Hpre with
    | _ = pre ++ [?c0; ?c1; ?c2; ?c3; ?c4; ?c5; ?c6; ?c7] ++ ?rest =>
        assert (Hpre' : chars (path_join dir f)
                        = (pre ++ [c0; c1; c2; c3]) ++ [c4; c5; c6; c7] ++ rest)
          by (rewrite Hpre, <- app_assoc; reflexivity)
    end.
    split.
    + rewrite (str_slice_from_end _ _ _ (-20) (-12) Hpre'); [reflexivity..|lia].
    + rewrite (str_index_from_end _ _ _ (-11) "y"%char Hpre');
        [reflexivity|vm_compute; by split|reflexivity].
Qed.
(** ** The renaming of the ramps *)

Lemma replace_from_skip_all (old new : list ascii) (k : nat) (s : list ascii) :
  (length s ≤ k)%nat → replace_from old new k s = [].
Proof.
  revert k. induction s as [|c s IH]; intros k Hk; [done|].
  destruct k as [|k]; [simpl in Hk; lia|]. simpl. apply IH. simpl in Hk. lia.
Qed.

(** No occurrence of ['.ramp.fits'] overlaps another. *)
Lemma ramp_fits_border_free (r t : list ascii) :
  (0 < length r < 10)%nat → r ++ chars ".ramp.fits" ≠ chars ".ramp.fits" ++ t.
Proof.
  intros Hr H.
  destruct r as [|? r]; [simpl in Hr; lia|].
  do 9 (destruct r as [|? r]; [vm_compute in H; by simplify_eq|]).
  simpl in Hr. lia.
Qed.

(** The replacement reaches the last occurrence: a name that ends in
    ['.ramp.fits'] is renamed to one that ends in ['.ramp.new']. *)
Lemma replace_from_ramp_suffix (k : nat) (rest : list ascii) :
  (k ≤ length rest)%nat →
  ∃ pre,
    replace_from (chars ".ramp.fits") (chars ".ramp.new") k
      (rest ++ chars ".ramp.fits")
    = pre ++ chars ".ramp.new".
Proof.
  revert k. induction rest as [|c rest IH]; intros k Hk.
  - destruct k; [|simpl in Hk; lia]. by exists [].
  - destruct k as [|k].
    + cbn [app replace_from]. case_bool_decide as Hp.
      * destruct (decide (9 ≤ length rest)%nat) as [Hl|Hl].
        -- destruct (IH 9%nat Hl) as [pre Hpre].
           exists (chars ".ramp.new" ++ pre).
           change (length (chars ".ramp.fits") - 1)%nat with 9%nat.
           by rewrite Hpre, app_assoc.
        -- exfalso. destruct Hp as [t Ht].
           apply (ramp_fits_border_free (c :: rest) t); [simpl; lia|done].
      * destruct (IH 0%nat ltac:(lia)) as [pre Hpre].
        exists (c :: pre). by rewrite Hpre.
    + cbn [app replace_from]. apply IH. simpl in Hk. lia.
Qed.

(** A stem without any occurrence is copied as it is. *)
Lemma replace_from_ramp_stem (stem : list ascii) :
  (∀ i, (i < length stem)%nat →
        ¬ chars ".ramp.fits" `prefix_of` drop i (stem ++ chars ".ramp.fits")) →
  replace_from (chars ".ramp.fits") (chars ".ramp.new") 0
    (stem ++ chars ".ramp.fits")
  = stem ++ chars ".ramp.new".
Proof.
  induction stem as [|c stem IH]; intros Hno; [done|].
  cbn [app replace_from].
  rewrite bool_decide_eq_false_2 by (apply (Hno 0%nat); simpl; lia).
  f_equal. apply IH. intros i Hi. apply (Hno (S i)). simpl. lia.
Qed.

Lemma chars_fnewname (f : string) :
  chars (fnewname f)
  = replace_from (chars ".ramp.fits") (chars ".ramp.new") 0 (chars f).
Proof.
  unfold fnewname, py_replace.
  destruct (chars ".ramp.fits") eqn:E; [vm_compute in E; discriminate E|].
  apply chars_str.
Qed.

Lemma fnewname_endswith (f : string) :
  endswith f ".ramp.fits" = true → endswith (fnewname f) ".ramp.new" = true.
Proof.
  intros [rest Hrest]%bool_decide_eq_true.
  destruct (replace_from_ramp_suffix 0 rest ltac:(lia)) as [pre Hpre].
  apply (endswith_true _ _ pre). by rewrite chars_fnewname, Hrest.
Qed.

(** X16: the renaming of lines 208 and 218 turns every name that ends in
    ['.ramp.fits'] into a name that ends in ['.ramp.new'], which the sky
    generator selects.  A name that matches ['????????C?.ramp.fits'] keeps
    its ten leading characters and matches ['????????C?.ramp.new']. *)
Theorem renamed_ramp_is_a_sky_input (f : string) :
  endswith f ".ramp.fits" = true →
  endswith (fnewname f) ".ramp.new" = true
  ∧ has_input_suffix (fnewname f) = true
  ∧ (fnmatch f "????????C?.ramp.fits" = true →
     chars (fnewname f) = take 10 (chars f) ++ chars ".ramp.new"
     ∧ fnmatch (fnewname f) "????????C?.ramp.new" = true).
Proof.
  intros Hend.
  pose proof (fnewname_endswith f Hend) as Hnew.
  split_and!.
  - done.
  - unfold has_input_suffix. by rewrite Hnew.
  - intros Hm.
    apply (fnmatch_frame f ".ramp.fits") in Hm as (seq & chip & Hlen & Hf);
      [|plain_suffix].
    assert (Hstem : chars (fnewname f)
                    = (seq ++ ["C"%char; chip]) ++ chars ".ramp.new").
    { rewrite chars_fnewname, Hf.
      replace (seq ++ "C"%char :: chip :: chars ".ramp.fits")
        with ((seq ++ ["C"%char; chip]) ++ chars ".ramp.fits")
        by (by rewrite <- app_assoc).
      apply replace_from_ramp_stem. intros i Hi [t Ht].
      rewrite length_app, Hlen in Hi. cbn [length] in Hi.
      destruct i as [|i].
      - rewrite drop_0 in Ht. explicit_seq seq Hlen.
        vm_compute in Ht. by simplify_eq.
      - rewrite drop_app_le in Ht by (rewrite length_app, Hlen; simpl; lia).
        apply (ramp_fits_border_free (drop (S i) (seq ++ ["C"%char; chip])) t);
          [|done].
        rewrite length_drop, length_app, Hlen. simpl. lia. }
    split.
    + rewrite Hstem, Hf. f_equal.
      replace (seq ++ "C"%char :: chip :: chars ".ramp.fits")
        with ((seq ++ ["C"%char; chip]) ++ chars ".ramp.fits")
        by (by rewrite <- app_assoc).
      rewrite take_app_length'; [done|]. rewrite length_app, Hlen. done.
    + apply (fnmatch_frame _ ".ramp.new"); [plain_suffix|].
      exists seq, chip. split; [done|]. by rewrite Hstem, <- app_assoc.
Qed.

Lemma renamed_ramp_is_a_sky_input_witness :
  let f := "00087801C3.ramp.fits" in
  endswith (fnewname f) ".ramp.new" = true
  ∧ has_input_suffix (fnewname f) = true
  ∧ (fnmatch f "????????C?.ramp.fits" = true →
     chars (fnewname f) = take 10 (chars f) ++ chars ".ramp.new"
     ∧ fnmatch (fnewname f) "????????C?.ramp.new" = true).
Proof.
  intros f. apply (renamed_ramp_is_a_sky_input f). by vm_compute.
Defined.

(** * Properties of the orchestration *)

(** ** The monad of the orchestration *)

Lemma pbind_act_Ok {A B} (a : action) (x : A) (f : A → P B) :
  act a (Ok x) ≫= f = (a :: (f x).1, (f x).2).
Proof. unfold mbind, P_bind, act. by destruct (f x). Qed.

Lemma pbind_act_Raise {A B} (a : action) (e : exn) (f : A → P B) :
  act a (Raise e) ≫= f = ([a], Raise e).
Proof. done. Qed.

Lemma pbind_Ok {A B} (t : list action) (x : A) (f : A → P B) :
  ((t, Ok x) : P A) ≫= f = (t ++ (f x).1, (f x).2).
Proof. unfold mbind, P_bind. by destruct (f x). Qed.

Lemma pbind_Raise {A B} (t : list action) (e : exn) (f : A → P B) :
  ((t, Raise e) : P A) ≫= f = (t, Raise e).
Proof. done. Qed.

Lemma for_each_all_ok {A} (l : list A) (body : A → P unit) (tr : A → list action) :
  (∀ x, x ∈ l → body x = (tr x, Ok ())) →
  for_each l body = (concat (tr <$> l), Ok ()).
Proof.
  induction l as [|x l IH]; intros Hb; [done|].
  cbn [for_each]. rewrite (Hb x) by left. rewrite pbind_Ok, IH.
  - done.
  - intros y Hy. apply Hb. by right.
Qed.

Lemma for_each_fails {A} (pre post : list A) (x : A) (body : A → P unit)
    (tr : A → list action) (t : list action) (e : exn) :
  (∀ y, y ∈ pre → body y = (tr y, Ok ())) → body x = (t, Raise e) →
  for_each (pre ++ x :: post) body = (concat (tr <$> pre) ++ t, Raise e).
Proof.
  intros Hpre Hx. induction pre as [|y pre IH].
  - cbn [app for_each]. by rewrite Hx.
  - cbn [app for_each]. rewrite (Hpre y) by left. rewrite pbind_Ok, IH.
    + cbn [fst snd fmap list_fmap concat]. by rewrite app_assoc.
    + intros z Hz. apply Hpre. by right.
Qed.

(** ** The passes of [astromangle.py] over a directory *)

Lemma concat_filter_actions {A} (P0 : A → bool) (acts : A → list action) (l : list A) :
  concat ((λ x, if P0 x then acts x else []) <$> l)
  = concat (acts <$> filter (λ x, P0 x = true) l).
Proof.
  induction l as [|x l IH]; [done|].
  rewrite fmap_cons, filter_cons. cbn [concat]. rewrite IH.
  destruct (P0 x); [by rewrite decide_True by done|by rewrite decide_False by done].
Qed.

(** X17: the directory pass with an output directory takes the entries of
    the input directory in sorted order and, for exactly those that end in
    ['.ramp.fits'], copies the file to the output directory under its new
    name and then runs [update_ra_dec] on the copy; no other file is
    copied, and the only paths updated are the destinations of these
    copies.  Every file it updates has a name that the sky generator
    selects. *)
Theorem ramps_are_copied_then_updated (sys : Sys) (input output : string)
    (ls : list string) :
  os_listdir (store sys) input = Ok ls →
  (∀ f, f ∈ ls → endswith f ".ramp.fits" = true →
        shutil_copyfile sys (path_join input f) (path_join output (fnewname f)) = Ok ()
        ∧ update_ra_dec sys (path_join output (fnewname f)) = Ok ()) →
  update_ra_dec_move_directory sys input output
  = (ActStore (EvListdir input)
       :: concat ((λ f, [ActCopyfile (path_join input f) (path_join output (fnewname f));
                         ActUpdateRaDec (path_join output (fnewname f))])
                  <$> filter (λ f, endswith f ".ramp.fits" = true) (sort_fnames ls)),
     Ok ())
  ∧ (∀ p, ActUpdateRaDec p ∈ (update_ra_dec_move_directory sys input output).1 →
          ∃ f, f ∈ ls ∧ endswith f ".ramp.fits" = true
               ∧ p = path_join output (fnewname f)
               ∧ has_input_suffix (fnewname f) = true).
Proof.
  intros Hls Hok.
  assert (Hrun : update_ra_dec_move_directory sys input output
    = (ActStore (EvListdir input)
         :: concat ((λ f, [ActCopyfile (path_join input f) (path_join output (fnewname f));
                           ActUpdateRaDec (path_join output (fnewname f))])
                    <$> filter (λ f, endswith f ".ramp.fits" = true) (sort_fnames ls)),
       Ok ())).
  { unfold update_ra_dec_move_directory. rewrite Hls, pbind_act_Ok.
    rewrite (for_each_all_ok _ _
               (λ f, if endswith f ".ramp.fits"
                     then [ActCopyfile (path_join input f) (path_join output (fnewname f));
                           ActUpdateRaDec (path_join output (fnewname f))]
                     else [])).
    - cbn [fst snd]. by rewrite concat_filter_actions.
    - intros f Hf. rewrite sort_fnames_perm in Hf.
      destruct (endswith f ".ramp.fits") eqn:E; [|done].
      destruct (Hok f Hf E) as [Hc Hu].
      unfold copy_and_update. cbv zeta. by rewrite Hc, pbind_act_Ok, Hu. }
  split; [done|].
  rewrite Hrun. cbn [fst]. intros p Hp.
  apply elem_of_cons in Hp as [?|Hp]; [done|].
  apply list_elem_of_In, in_concat in Hp as (acts & Hacts & Hp).
  apply list_elem_of_In, list_elem_of_fmap in Hacts as (f & -> & Hf).
  apply list_elem_of_filter in Hf as [Hend Hf]. rewrite sort_fnames_perm in Hf.
  apply list_elem_of_In in Hp.
  apply elem_of_cons in Hp as [?|Hp]; [done|].
  apply list_elem_of_singleton in Hp as [= ->].
  exists f. split_and!; [done..|].
  unfold has_input_suffix. by rewrite fnewname_endswith.
Qed.

Lemma ramps_are_copied_then_updated_witness :
  let ls := ["00087802C3.ramp.fits"; "notes.txt"; "00087801C3.ramp.fits"] in
  let sys := {| store := example_env "raw" ((λ f, (f, [])) <$> ls);
                os_path_isdir := λ _, true;
                os_path_isfile := λ _, false;
                os_mkdir := λ _, Ok ();
                shutil_copyfile := λ _ _, Ok ();
                update_ra_dec := λ _, Ok ();
                download_data := λ _, Ok ();
                master := λ _, Ok ();
                subprocess_Popen := λ _, Ok ();
                subprocess_run := λ _, Ok () |} in
  update_ra_dec_move_directory sys "raw" "astrom"
  = (ActStore (EvListdir "raw")
       :: concat ((λ f, [ActCopyfile (path_join "raw" f) (path_join "astrom" (fnewname f));
                         ActUpdateRaDec (path_join "astrom" (fnewname f))])
                  <$> filter (λ f, endswith f ".ramp.fits" = true) (sort_fnames ls)),
     Ok ())
  ∧ (∀ p, ActUpdateRaDec p ∈ (update_ra_dec_move_directory sys "raw" "astrom").1 →
          ∃ f, f ∈ ls ∧ endswith f ".ramp.fits" = true
               ∧ p = path_join "astrom" (fnewname f)
               ∧ has_input_suffix (fnewname f) = true).
Proof.
  intros ls sys. apply (ramps_are_copied_then_updated sys "raw" "astrom" ls).
  - reflexivity.
  - intros f _ _. split; reflexivity.
Defined.

(** The same pass, evaluated. *)
Example update_ra_dec_move_directory_example :
  let ls := ["00087802C3.ramp.fits"; "notes.txt"; "00087801C3.ramp.fits"] in
  let sys := {| store := example_env "raw" ((λ f, (f, [])) <$> ls);
                os_path_isdir := λ _, true;
                os_path_isfile := λ _, false;
                os_mkdir := λ _, Ok ();
                shutil_copyfile := λ _ _, Ok ();
                update_ra_dec := λ _, Ok ();
                download_data := λ _, Ok ();
                master := λ _, Ok ();
                subprocess_Popen := λ _, Ok ();
                subprocess_run := λ _, Ok () |} in
  update_ra_dec_move_directory sys "raw" "astrom"
  = ([ActStore (EvListdir "raw");
      ActCopyfile "raw/00087801C3.ramp.fits" "astrom/00087801C3.ramp.new";
      ActUpdateRaDec "astrom/00087801C3.ramp.new";
      ActCopyfile "raw/00087802C3.ramp.fits" "astrom/00087802C3.ramp.new";
      ActUpdateRaDec "astrom/00087802C3.ramp.new"], Ok ()).
Proof. by vm_compute. Qed.

(** With the input directory as output directory the copies, and so the
    updates, land in the input directory itself. *)
Example update_ra_dec_move_directory_in_place :
  let ls := ["00087801C3.ramp.fits"] in
  let sys := {| store := example_env "raw" ((λ f, (f, [])) <$> ls);
                os_path_isdir := λ _, true;
                os_path_isfile := λ _, false;
                os_mkdir := λ _, Ok ();
                shutil_copyfile := λ _ _, Ok ();
                update_ra_dec := λ _, Ok ();
                download_data := λ _, Ok ();
                master := λ _, Ok ();
                subprocess_Popen := λ _, Ok ();
                subprocess_run := λ _, Ok () |} in
  update_ra_dec_move_directory sys "raw" "raw"
  = ([ActStore (EvListdir "raw");
      ActCopyfile "raw/00087801C3.ramp.fits" "raw/00087801C3.ramp.new";
      ActUpdateRaDec "raw/00087801C3.ramp.new"], Ok ()).
Proof. by vm_compute. Qed.

(** ** The single-file mode *)

Lemma fnewname_absolute (f : string) :
  startswith f "/" = true → startswith (fnewname f) "/" = true.
Proof.
  unfold startswith. intros [rest Hrest]%bool_decide_eq_true.
  change (chars "/") with ["/"%char] in *.
  apply bool_decide_eq_true. rewrite chars_fnewname, Hrest.
  cbn [app replace_from].
  rewrite bool_decide_eq_false_2.
  - by eexists.
  - intros [t Ht]. vm_compute in Ht. discriminate Ht.
Qed.

Lemma path_join_absolute (a b : string) : startswith b "/" = true → path_join a b = b.
Proof. intros H. unfold path_join. by rewrite H. Qed.

Lemma path_join_empty (b : string) : path_join "" b = b.
Proof. unfold path_join. by destruct (startswith b "/"). Qed.

(** X18: in the single-file mode with an output directory the file given is
    itself updated in place, then copied under its new name, and the copy
    is updated again -- unlike the directory mode, which updates only the
    copies.  The copy is made from the path as given; when that path is
    absolute the output directory is ignored by [os.path.join] and the copy
    lands at the renamed absolute path. *)
Theorem single_file_mode_updates_the_original (sys : Sys) (input output : string) :
  os_path_isdir sys input = false →
  os_path_isfile sys input = true →
  update_ra_dec sys input = Ok () →
  ∃ r,
    astromangle_main sys input (Some output)
    = (ActIsdir input :: ActIsfile input :: ActUpdateRaDec input
         :: ActCopyfile input (path_join output (fnewname input))
         :: (if shutil_copyfile sys input (path_join output (fnewname input))
             is Ok _
             then [ActUpdateRaDec (path_join output (fnewname input))] else []),
       r)
    ∧ (startswith input "/" = true →
       path_join output (fnewname input) = fnewname input).
Proof.
  intros Hdir Hfile Hup. unfold astromangle_main.
  rewrite Hdir, pbind_act_Ok. cbv beta iota.
  rewrite Hfile, pbind_act_Ok. cbv beta iota.
  rewrite Hup, pbind_act_Ok. cbv beta iota.
  unfold update_ra_dec_move, copy_and_update. cbv zeta.
  rewrite path_join_empty.
  destruct (shutil_copyfile sys input _) as [[]|e].
  - rewrite pbind_act_Ok. eexists. split; [reflexivity|].
    intros H. by apply path_join_absolute, fnewname_absolute.
  - rewrite pbind_act_Raise. eexists. split; [reflexivity|].
    intros H. by apply path_join_absolute, fnewname_absolute.
Qed.

Lemma single_file_mode_updates_the_original_witness :
  let sys := {| store := example_env "raw" [];
                os_path_isdir := λ _, false;
                os_path_isfile := λ _, true;
                os_mkdir := λ _, Ok ();
                shutil_copyfile := λ _ _, Ok ();
                update_ra_dec := λ _, Ok ();
                download_data := λ _, Ok ();
                master := λ _, Ok ();
                subprocess_Popen := λ _, Ok ();
                subprocess_run := λ _, Ok () |} in
  let input := "/data/00087801C3.ramp.fits" in
  ∃ r,
    astromangle_main sys input (Some "astrom")
    = (ActIsdir input :: ActIsfile input :: ActUpdateRaDec input
         :: ActCopyfile input (path_join "astrom" (fnewname input))
         :: (if shutil_copyfile sys input (path_join "astrom" (fnewname input))
             is Ok _
             then [ActUpdateRaDec (path_join "astrom" (fnewname input))] else []),
       r)
    ∧ (startswith input "/" = true →
       path_join "astrom" (fnewname input) = fnewname input).
Proof.
  intros sys input.
  apply (single_file_mode_updates_the_original sys input "astrom"); reflexivity.
Defined.

(** * Orchestration ([photomitrus/multi_master.py]) *)

(** ** The download step *)

Lemma try_except_act (a : action) (r : result unit) :
  try_except (act a r) () = ([a], Ok ()).
Proof. by destruct r as [[]|e]. Qed.

(** The run of [datadownload], which does not depend on the outcome of
    [download_data]. *)
Lemma datadownload_run (sys : Sys) (parentdir target band date chip : string) :
  datadownload sys parentdir target band date chip
  = let args := {| dl_date := date; dl_ip := "192.168.212.22";
                   dl_save_dir := parentdir; dl_objname := target;
                   dl_chip := chip;
                   dl_filter1 := if bool_decide (band = "Z") then "Z" else "Open";
                   dl_filter2 := if bool_decide (band = "Z") then "Open" else band |} in
    if os_path_isdir sys parentdir
    then ([ActIsdir parentdir; ActDownload args], Ok ())
    else match os_mkdir sys parentdir with
         | Ok _ => ([ActIsdir parentdir; ActMkdir parentdir; ActDownload args], Ok ())
         | Raise e => ([ActIsdir parentdir; ActMkdir parentdir], Raise e)
         end.
Proof.
  unfold datadownload. rewrite pbind_act_Ok. cbv zeta.
  destruct (os_path_isdir sys parentdir); cbn [negb].
  - unfold mret, P_ret. rewrite pbind_Ok. cbn [app].
    case_bool_decide as Hb; [subst band|]; by rewrite try_except_act.
  - destruct (os_mkdir sys parentdir) as [[]|e].
    + rewrite pbind_act_Ok.
      case_bool_decide as Hb; [subst band|]; by rewrite try_except_act.
    + by rewrite pbind_act_Raise.
Qed.

(** X19: [datadownload] never lets a failure of the download out.  When
    the parent directory exists, or is created, it makes one
    [download_data] call -- with the fixed address, the parent directory as
    [save_dir], and the band as [filter1] with ['Open'] as [filter2] for
    the band ['Z'] and the other way round for any other band -- and
    returns normally whatever that call raises.  Only a failure of
    [os.mkdir] makes it raise, before any download is tried. *)
Theorem datadownload_swallows_download_errors (sys : Sys)
    (parentdir target band date chip : string) :
  (os_path_isdir sys parentdir = true ∨ os_mkdir sys parentdir = Ok () →
   ∃ t args,
     datadownload sys parentdir target band date chip = (t ++ [ActDownload args], Ok ())
     ∧ Forall (λ a, ∀ x, a ≠ ActDownload x) t
     ∧ dl_ip args = "192.168.212.22" ∧ dl_save_dir args = parentdir
     ∧ dl_objname args = target ∧ dl_date args = date ∧ dl_chip args = chip
     ∧ (band = "Z" → dl_filter1 args = "Z" ∧ dl_filter2 args = "Open")
     ∧ (band ≠ "Z" → dl_filter1 args = "Open" ∧ dl_filter2 args = band))
  ∧ (∀ e, os_path_isdir sys parentdir = false → os_mkdir sys parentdir = Raise e →
          datadownload sys parentdir target band date chip
          = ([ActIsdir parentdir; ActMkdir parentdir], Raise e)).
Proof.
  rewrite datadownload_run. cbv zeta. split.
  - intros Hdir.
    destruct (os_path_isdir sys parentdir) eqn:E.
    + exists [ActIsdir parentdir]. eexists. split; [reflexivity|].
      split; [by repeat constructor|]. cbn.
      split_and!; try reflexivity.
      * intros ->. by rewrite bool_decide_eq_true_2.
      * intros Hb. by rewrite bool_decide_eq_false_2.
    + destruct Hdir as [?|Hmk]; [done|]. rewrite Hmk.
      exists [ActIsdir parentdir; ActMkdir parentdir]. eexists.
      split; [reflexivity|]. split; [by repeat constructor|]. cbn.
      split_and!; try reflexivity.
      * intros ->. by rewrite bool_decide_eq_true_2.
      * intros Hb. by rewrite bool_decide_eq_false_2.
  - intros e -> ->. reflexivity.
Qed.

Lemma datadownload_swallows_download_errors_witness :
  ∃ t args,
    datadownload example_sys "data" "field1234" "Z" "20240101" "1,2,3,4"
    = (t ++ [ActDownload args], Ok ())
    ∧ Forall (λ a, ∀ x, a ≠ ActDownload x) t
    ∧ dl_ip args = "192.168.212.22" ∧ dl_save_dir args = "data"
    ∧ dl_objname args = "field1234" ∧ dl_date args = "20240101"
    ∧ dl_chip args = "1,2,3,4"
    ∧ ("Z" = "Z" → dl_filter1 args = "Z" ∧ dl_filter2 args = "Open")
    ∧ ("Z" ≠ "Z" → dl_filter1 args = "Open" ∧ dl_filter2 args = "Z").
Proof.
  apply (proj1 (datadownload_swallows_download_errors example_sys "data" "field1234"
                  "Z" "20240101" "1,2,3,4")).
  left. reflexivity.
Defined.

(** ** The loop over the chips *)

Lemma process_chip_run (sys : Sys) (parentdir band : string) (rot_val : float)
    (no_shift astromnet : bool) (f : Z) :
  (if astromnet then refineprocess sys parentdir f band rot_val
   else if negb no_shift then shiftprocess sys parentdir f band rot_val
   else baseprocess sys parentdir f band rot_val)
  = act (ActMaster (master_call parentdir band rot_val no_shift astromnet f))
      (master sys (master_call parentdir band rot_val no_shift astromnet f)).
Proof. by destruct astromnet, no_shift. Qed.

Lemma concat_singletons {A B} (f : A → B) (l : list A) :
  concat ((λ x, [f x]) <$> l) = f <$> l.
Proof. induction l as [|x l IH]; [done|]. by rewrite !fmap_cons, <- IH. Qed.

Section MultiMaster.
Variable sys : Sys.
Variables (parentdir target date band : string) (chip : option Z).
Variable rot_val : float.
Variables (no_shift astromnet parallel no_download : bool).

Local Abbreviation pdir := (if bool_decide (parentdir = "") then "." else parentdir).
Local Abbreviation chips :=
  (if chip_given chip then [default 0 chip] else [1; 2; 3; 4]).
Local Abbreviation chip_path :=
  (if chip_given chip
   then path_join pdir ("C" +:+ str_of_int (default 0 chip) +:+ "/")
   else path_join pdir "C1/").
Local Abbreviation download :=
  (if no_download then []
   else (datadownload sys pdir target band date (join "," (str_of_int <$> chips))).1).
Local Abbreviation call := (master_call pdir band rot_val no_shift astromnet).

Hypothesis parent_ready :
  no_download = false →
  os_path_isdir sys pdir = true ∨ os_mkdir sys pdir = Ok ().

(** Lines 110-144, the download and the three process functions run. *)
Lemma multi_master_run :
  multi_master sys parentdir target date band chip rot_val no_shift astromnet
    parallel no_download
  = match os_listdir (store sys) chip_path with
    | Ok ls =>
        if bool_decide (ls = [])
        then (download ++ [ActStore (EvListdir chip_path)], Ok ())
        else (download ++ ActStore (EvListdir chip_path)
                :: (for_each chips (λ f, act (ActMaster (call f))
                                           (master sys (call f)))).1,
              (for_each chips (λ f, act (ActMaster (call f))
                                      (master sys (call f)))).2)
    | Raise e => (download ++ [ActStore (EvListdir chip_path)], Raise e)
    end.
Proof.
  unfold multi_master. cbv zeta.
  assert (Hbody : ∀ l,
            for_each l (λ f,
              if astromnet then refineprocess sys pdir f band rot_val
              else if negb no_shift then shiftprocess sys pdir f band rot_val
              else baseprocess sys pdir f band rot_val)
            = for_each l (λ f, act (ActMaster (call f)) (master sys (call f)))).
  { induction l as [|c l IH]; [done|]. cbn [for_each].
    by rewrite process_chip_run, IH. }
  rewrite Hbody.
  assert (Hd : ∀ cs,
            (if no_download then mret ()
             else datadownload sys pdir target band date cs)
            = ((if no_download then []
                else (datadownload sys pdir target band date cs).1, Ok ()) : P unit)).
  { intros cs. destruct no_download; [done|].
    rewrite datadownload_run. cbv zeta.
    destruct (os_path_isdir sys pdir) eqn:E; [done|].
    destruct (parent_ready eq_refl) as [? | Hmk]; [congruence|by rewrite Hmk]. }
  rewrite Hd, pbind_Ok. cbn [fst snd].
  destruct (chip_given chip); cbn [negb].
  - destruct (os_listdir (store sys) _) as [ls|e].
    + rewrite pbind_act_Ok. destruct (bool_decide (ls = [])); reflexivity.
    + reflexivity.
  - destruct (os_listdir (store sys) _) as [ls|e].
    + rewrite pbind_act_Ok. destruct (bool_decide (ls = [])); reflexivity.
    + reflexivity.
Qed.

End MultiMaster.

Lemma datadownload_no_master (sys : Sys) (parentdir target band date chip : string) :
  Forall (λ a, ∀ x, a ≠ ActMaster x)
    (datadownload sys parentdir target band date chip).1.
Proof.
  rewrite datadownload_run. cbv zeta.
  destruct (os_path_isdir sys parentdir); [by repeat constructor|].
  destruct (os_mkdir sys parentdir); by repeat constructor.
Qed.

Lemma for_each_master_ok (sys : Sys) (call : Z → master_args) (l : list Z) :
  (∀ f, f ∈ l → master sys (call f) = Ok ()) →
  for_each l (λ f, act (ActMaster (call f)) (master sys (call f)))
  = (ActMaster ∘ call <$> l, Ok ()).
Proof.
  intros Hok.
  rewrite (for_each_all_ok _ _ (λ f, [ActMaster (call f)])).
  - by rewrite (concat_singletons (ActMaster ∘ call)).
  - intros f Hf. by rewrite (Hok f Hf).
Qed.

Lemma for_each_master_fails (sys : Sys) (call : Z → master_args)
    (pre post : list Z) (c : Z) (e : exn) :
  (∀ f, f ∈ pre → master sys (call f) = Ok ()) →
  master sys (call c) = Raise e →
  for_each (pre ++ c :: post) (λ f, act (ActMaster (call f)) (master sys (call f)))
  = (ActMaster ∘ call <$> pre ++ [c], Raise e).
Proof.
  intros Hok Hc.
  rewrite (for_each_fails pre post c _ (λ f, [ActMaster (call f)])
             [ActMaster (call c)] e).
  - by rewrite (concat_singletons (ActMaster ∘ call)), fmap_app.
  - intros f Hf. by rewrite (Hok f Hf).
  - by rewrite Hc.
Qed.

(** X20: [multi_master] processes each chip once, in order.  When the
    parent directory exists or can be created, and the directory of the
    first chip -- [C<chip>/] for the chip given, [C1/] when none is given or
    the chip is 0 -- lists at least one entry, it calls [master] once for
    the chip given, or for the chips 1, 2, 3, 4 in that order, with sigma 4
    for the chips 1 and 2, 6 for the chips 3 and 4 and [None] for any other
    chip, with [net_refine=True] when [astromnet] is set, otherwise with
    [no_shift=True] when [no_shift] is set, otherwise with neither; it
    returns when all the calls do.  An empty [parentdir] stands for ['.'].
    Nothing but the download step precedes the listing. *)
Theorem multi_master_processes_each_chip (sys : Sys)
    (parentdir target date band : string) (chip : option Z) (rot_val : float)
    (no_shift astromnet parallel no_download : bool) (ls : list string) :
  let pdir := if bool_decide (parentdir = "") then "." else parentdir in
  let chips := if chip_given chip then [default 0 chip] else [1; 2; 3; 4] in
  let chip_path :=
    if chip_given chip
    then path_join pdir ("C" +:+ str_of_int (default 0 chip) +:+ "/")
    else path_join pdir "C1/" in
  (no_download = false →
   os_path_isdir sys pdir = true ∨ os_mkdir sys pdir = Ok ()) →
  os_listdir (store sys) chip_path = Ok ls →
  ls ≠ [] →
  (∀ f, f ∈ chips →
        master sys (master_call pdir band rot_val no_shift astromnet f) = Ok ()) →
  ∃ download,
    multi_master sys parentdir target date band chip rot_val no_shift astromnet
      parallel no_download
    = (download ++ ActStore (EvListdir chip_path)
         :: (ActMaster ∘ master_call pdir band rot_val no_shift astromnet <$> chips),
       Ok ())
    ∧ (no_download = true → download = [])
    ∧ Forall (λ a, ∀ x, a ≠ ActMaster x) download.
Proof.
  intros pdir chips chip_path Hready Hls Hne Hok.
  rewrite (multi_master_run sys parentdir target date band chip rot_val no_shift
             astromnet parallel no_download Hready).
  fold pdir. fold chips. fold chip_path. rewrite Hls.
  rewrite bool_decide_eq_false_2 by done.
  rewrite (for_each_master_ok sys _ chips Hok). cbn [fst snd].
  eexists. split; [reflexivity|]. split.
  - by intros ->.
  - destruct no_download; [constructor|apply datadownload_no_master].
Qed.

Lemma multi_master_processes_each_chip_witness :
  let sys := example_sys in
  let call := master_call "." "J" 48 false false in
  ∃ download,
    multi_master sys "" "field1234" "20240101" "J" None 48 false false false false
    = (download ++ ActStore (EvListdir "./C1/")
         :: (ActMaster ∘ call <$> [1; 2; 3; 4]),
       Ok ())
    ∧ (false = true → download = [])
    ∧ Forall (λ a, ∀ x, a ≠ ActMaster x) download.
Proof.
  intros sys call.
  apply (multi_master_processes_each_chip sys "" "field1234" "20240101" "J" None 48
           false false false false ["00087801C1.fits.fz"]).
  - intros _. left. reflexivity.
  - reflexivity.
  - discriminate.
  - intros f _. reflexivity.
Defined.

(** The same run, evaluated: the download fails and is ignored, the sigma
    is 4 for the chips 1 and 2 and 6 for the chips 3 and 4. *)
Example multi_master_example :
  multi_master example_sys "" "field1234" "20240101" "J" None 48 false false false false
  = ([ActIsdir ".";
      ActDownload {| dl_date := "20240101"; dl_ip := "192.168.212.22";
                     dl_save_dir := "."; dl_objname := "field1234";
                     dl_chip := "1,2,3,4"; dl_filter1 := "Open"; dl_filter2 := "J" |};
      ActStore (EvListdir "./C1/");
      ActMaster {| ma_parentdir := "."; ma_chip := 1; ma_band := "J";
                   ma_sigma := Some 4; ma_rot_val := 48;
                   ma_net_refine := None; ma_no_shift := None |};
      ActMaster {| ma_parentdir := "."; ma_chip := 2; ma_band := "J";
                   ma_sigma := Some 4; ma_rot_val := 48;
                   ma_net_refine := None; ma_no_shift := None |};
      ActMaster {| ma_parentdir := "."; ma_chip := 3; ma_band := "J";
                   ma_sigma := Some 6; ma_rot_val := 48;
                   ma_net_refine := None; ma_no_shift := None |};
      ActMaster {| ma_parentdir := "."; ma_chip := 4; ma_band := "J";
                   ma_sigma := Some 6; ma_rot_val := 48;
                   ma_net_refine := None; ma_no_shift := None |}],
     Ok ()).
Proof. by vm_compute. Qed.

(** X21: [multi_master] stops at the first chip whose [master] call raises:
    the exception is passed on, the chips before it have been processed,
    and the chips after it are not processed at all. *)
Theorem multi_master_stops_at_the_first_failure (sys : Sys)
    (parentdir target date band : string) (chip : option Z) (rot_val : float)
    (no_shift astromnet parallel no_download : bool) (ls : list string)
    (pre post : list Z) (c : Z) (e : exn) :
  let pdir := if bool_decide (parentdir = "") then "." else parentdir in
  let chips := if chip_given chip then [default 0 chip] else [1; 2; 3; 4] in
  let chip_path :=
    if chip_given chip
    then path_join pdir ("C" +:+ str_of_int (default 0 chip) +:+ "/")
    else path_join pdir "C1/" in
  (no_download = false →
   os_path_isdir sys pdir = true ∨ os_mkdir sys pdir = Ok ()) →
  os_listdir (store sys) chip_path = Ok ls →
  ls ≠ [] →
  chips = pre ++ c :: post →
  (∀ f, f ∈ pre →
        master sys (master_call pdir band rot_val no_shift astromnet f) = Ok ()) →
  master sys (master_call pdir band rot_val no_shift astromnet c) = Raise e →
  ∃ download,
    multi_master sys parentdir target date band chip rot_val no_shift astromnet
      parallel no_download
    = (download ++ ActStore (EvListdir chip_path)
         :: (ActMaster ∘ master_call pdir band rot_val no_shift astromnet
             <$> pre ++ [c]),
       Raise e)
    ∧ Forall (λ a, ∀ x, a ≠ ActMaster x) download.
Proof.
  intros pdir chips chip_path Hready Hls Hne Hchips Hok Hfail.
  rewrite (multi_master_run sys parentdir target date band chip rot_val no_shift
             astromnet parallel no_download Hready).
  fold pdir. fold chips. fold chip_path. rewrite Hls.
  rewrite bool_decide_eq_false_2 by done.
  rewrite Hchips, (for_each_master_fails sys _ pre post c e Hok Hfail).
  cbn [fst snd]. eexists. split; [reflexivity|].
  destruct no_download; [constructor|apply datadownload_no_master].
Qed.

Lemma multi_master_stops_at_the_first_failure_witness :
  let sys := {| store := store example_sys;
                os_path_isdir := os_path_isdir example_sys;
                os_path_isfile := os_path_isfile example_sys;
                os_mkdir := os_mkdir example_sys;
                shutil_copyfile := shutil_copyfile example_sys;
                update_ra_dec := update_ra_dec example_sys;
                download_data := download_data example_sys;
                master := λ a, if bool_decide (ma_chip a = 2)
                               then Raise (StoreError "RuntimeError") else Ok ();
                subprocess_Popen := subprocess_Popen example_sys;
                subprocess_run := subprocess_run example_sys |} in
  let call := master_call "data" "J" 48 false true in
  ∃ download,
    multi_master sys "data" "field1234" "20240101" "J" None 48 false true false true
    = (download ++ ActStore (EvListdir "data/C1/")
         :: (ActMaster ∘ call <$> [1] ++ [2]),
       Raise (StoreError "RuntimeError"))
    ∧ Forall (λ a, ∀ x, a ≠ ActMaster x) download.
Proof.
  intros sys call.
  apply (multi_master_stops_at_the_first_failure sys "data" "field1234" "20240101"
           "J" None 48 false true false true ["00087801C1.fits.fz"] [1] [3; 4] 2
           (StoreError "RuntimeError")).
  - intros [=].
  - reflexivity.
  - discriminate.
  - reflexivity.
  - intros f Hf. apply list_elem_of_singleton in Hf. subst f. reflexivity.
  - reflexivity.
Defined.

(** ** Runs of [multi_master] that process nothing *)

Lemma multi_master_mkdir_fails (sys : Sys) (parentdir target date band : string)
    (chip : option Z) (rot_val : float) (no_shift astromnet parallel : bool) (e : exn) :
  let pdir := if bool_decide (parentdir = "") then "." else parentdir in
  os_path_isdir sys pdir = false → os_mkdir sys pdir = Raise e →
  multi_master sys parentdir target date band chip rot_val no_shift astromnet
    parallel false
  = ([ActIsdir pdir; ActMkdir pdir], Raise e).
Proof.
  intros pdir Hdir Hmk. unfold multi_master. cbv zeta. fold pdir.
  rewrite datadownload_run. cbv zeta. by rewrite Hdir, Hmk.
Qed.

(** X22: without data there is no processing.  When the directory of the
    first chip is empty [multi_master] returns normally without a single
    [master] call; when it cannot be listed -- it does not exist, say,
    because the download failed -- the exception of [os.listdir] is passed
    on, again before any [master] call. *)
Theorem no_data_no_processing (sys : Sys) (parentdir target date band : string)
    (chip : option Z) (rot_val : float)
    (no_shift astromnet parallel no_download : bool) :
  let pdir := if bool_decide (parentdir = "") then "." else parentdir in
  let chip_path :=
    if chip_given chip
    then path_join pdir ("C" +:+ str_of_int (default 0 chip) +:+ "/")
    else path_join pdir "C1/" in
  (no_download = false →
   os_path_isdir sys pdir = true ∨ os_mkdir sys pdir = Ok ()) →
  ∃ download,
    Forall (λ a, ∀ x, a ≠ ActMaster x) download
    ∧ (os_listdir (store sys) chip_path = Ok [] →
       multi_master sys parentdir target date band chip rot_val no_shift astromnet
         parallel no_download
       = (download ++ [ActStore (EvListdir chip_path)], Ok ()))
    ∧ (∀ e, os_listdir (store sys) chip_path = Raise e →
            multi_master sys parentdir target date band chip rot_val no_shift
              astromnet parallel no_download
            = (download ++ [ActStore (EvListdir chip_path)], Raise e)).
Proof.
  intros pdir chip_path Hready.
  rewrite (multi_master_run sys parentdir target date band chip rot_val no_shift
             astromnet parallel no_download Hready).
  fold pdir. fold chip_path.
  eexists. split_and!; [|by intros ->|by intros e ->].
  destruct no_download; [constructor|apply datadownload_no_master].
Qed.

Lemma no_data_no_processing_witness :
  let sys := {| store := example_env "data/C3/" [];
                os_path_isdir := os_path_isdir example_sys;
                os_path_isfile := os_path_isfile example_sys;
                os_mkdir := os_mkdir example_sys;
                shutil_copyfile := shutil_copyfile example_sys;
                update_ra_dec := update_ra_dec example_sys;
                download_data := download_data example_sys;
                master := master example_sys;
                subprocess_Popen := subprocess_Popen example_sys;
                subprocess_run := subprocess_run example_sys |} in
  ∃ download,
    Forall (λ a, ∀ x, a ≠ ActMaster x) download
    ∧ (os_listdir (store sys) "data/C3/" = Ok [] →
       multi_master sys "data" "field1234" "20240101" "J" (Some 3) 48 false false
         false false
       = (download ++ [ActStore (EvListdir "data/C3/")], Ok ()))
    ∧ (∀ e, os_listdir (store sys) "data/C3/" = Raise e →
            multi_master sys "data" "field1234" "20240101" "J" (Some 3) 48 false
              false false false
            = (download ++ [ActStore (EvListdir "data/C3/")], Raise e)).
Proof.
  intros sys.
  apply (no_data_no_processing sys "data" "field1234" "20240101" "J" (Some 3) 48
           false false false false).
  intros _. left. reflexivity.
Defined.

(** The run over an empty chip directory, evaluated. *)
Example multi_master_empty_example :
  let sys := {| store := example_env "data/C3/" [];
                os_path_isdir := os_path_isdir example_sys;
                os_path_isfile := os_path_isfile example_sys;
                os_mkdir := os_mkdir example_sys;
                shutil_copyfile := shutil_copyfile example_sys;
                update_ra_dec := update_ra_dec example_sys;
                download_data := download_data example_sys;
                master := master example_sys;
                subprocess_Popen := subprocess_Popen example_sys;
                subprocess_run := subprocess_run example_sys |} in
  multi_master sys "data" "field1234" "20240101" "J" (Some 3) 48 false false false false
  = ([ActIsdir "data";
      ActDownload {| dl_date := "20240101"; dl_ip := "192.168.212.22";
                     dl_save_dir := "data"; dl_objname := "field1234";
                     dl_chip := "3"; dl_filter1 := "Open"; dl_filter2 := "J" |};
      ActStore (EvListdir "data/C3/")], Ok ()).
Proof. by vm_compute. Qed.

(** ** Flags *)

(** X23: three settings of [multi_master] that change nothing.  The
    [parallel] flag is never read; the chip number 0 counts as no chip, so
    that all four chips are processed; and with [astromnet] set the value of
    [no_shift] does not matter. *)
Theorem settings_without_effect (sys : Sys) (parentdir target date band : string)
    (chip : option Z) (rot_val : float)
    (no_shift no_shift' astromnet parallel parallel' no_download : bool) :
  multi_master sys parentdir target date band chip rot_val no_shift astromnet
    parallel no_download
  = multi_master sys parentdir target date band chip rot_val no_shift astromnet
      parallel' no_download
  ∧ multi_master sys parentdir target date band (Some 0) rot_val no_shift astromnet
      parallel no_download
    = multi_master sys parentdir target date band None rot_val no_shift astromnet
        parallel no_download
  ∧ multi_master sys parentdir target date band chip rot_val no_shift true
      parallel no_download
    = multi_master sys parentdir target date band chip rot_val no_shift' true
        parallel no_download.
Proof. done. Qed.

(** ** Exceptions *)

Lemma for_each_master_raises (sys : Sys) (call : Z → master_args) (l : list Z)
    (e : exn) :
  (for_each l (λ f, act (ActMaster (call f)) (master sys (call f)))).2 = Raise e →
  ∃ f, f ∈ l ∧ master sys (call f) = Raise e.
Proof.
  induction l as [|c l IH]; [done|]. cbn [for_each].
  destruct (master sys (call c)) as [[]|e'] eqn:E.
  - rewrite pbind_act_Ok. cbn [snd]. intros (f & Hf & Hr)%IH.
    exists f. split; [by right|done].
  - rewrite pbind_act_Raise. cbn [snd]. intros [= ->].
    exists c. split; [by left|done].
Qed.

(** X27: an exception leaves [multi_master] only if [os.mkdir] raised it
    for a parent directory that was missing, or [os.listdir] raised it for
    the directory of the first chip, or [master] raised it for one of the
    chips.  A failure of the download never does. *)
Theorem exceptions_come_from_three_calls (sys : Sys)
    (parentdir target date band : string) (chip : option Z) (rot_val : float)
    (no_shift astromnet parallel no_download : bool) (e : exn) :
  let pdir := if bool_decide (parentdir = "") then "." else parentdir in
  let chips := if chip_given chip then [default 0 chip] else [1; 2; 3; 4] in
  let chip_path :=
    if chip_given chip
    then path_join pdir ("C" +:+ str_of_int (default 0 chip) +:+ "/")
    else path_join pdir "C1/" in
  (multi_master sys parentdir target date band chip rot_val no_shift astromnet
     parallel no_download).2 = Raise e →
  (no_download = false ∧ os_path_isdir sys pdir = false
   ∧ os_mkdir sys pdir = Raise e)
  ∨ os_listdir (store sys) chip_path = Raise e
  ∨ ∃ f, f ∈ chips
         ∧ master sys (master_call pdir band rot_val no_shift astromnet f) = Raise e.
Proof.
  intros pdir chips chip_path.
  assert (Hcases : (no_download = false ∧ os_path_isdir sys pdir = false
                    ∧ ∃ e', os_mkdir sys pdir = Raise e')
                   ∨ (no_download = false →
                      os_path_isdir sys pdir = true ∨ os_mkdir sys pdir = Ok ())).
  { destruct no_download; [by right|].
    destruct (os_path_isdir sys pdir); [right; by left|].
    destruct (os_mkdir sys pdir) as [[]|e']; [right; by right|].
    left. eauto. }
  destruct Hcases as [(-> & Hdir & e' & Hmk) | Hready].
  - rewrite (multi_master_mkdir_fails sys parentdir target date band chip rot_val
               no_shift astromnet parallel e' Hdir Hmk).
    cbn [snd]. intros [= ->]. by left.
  - rewrite (multi_master_run sys parentdir target date band chip rot_val no_shift
               astromnet parallel no_download Hready).
    fold pdir. fold chips. fold chip_path.
    destruct (os_listdir (store sys) chip_path) as [ls|e'].
    + case_bool_decide; [done|]. cbn [snd].
      intros Hr%for_each_master_raises. by right; right.
    + cbn [snd]. intros [= ->]. by right; left.
Qed.

Lemma exceptions_come_from_three_calls_witness :
  let sys := {| store := store example_sys;
                os_path_isdir := os_path_isdir example_sys;
                os_path_isfile := os_path_isfile example_sys;
                os_mkdir := os_mkdir example_sys;
                shutil_copyfile := shutil_copyfile example_sys;
                update_ra_dec := update_ra_dec example_sys;
                download_data := download_data example_sys;
                master := λ a, if bool_decide (ma_chip a = 3)
                               then Raise ValueError else Ok ();
                subprocess_Popen := subprocess_Popen example_sys;
                subprocess_run := subprocess_run example_sys |} in
  (false = false ∧ os_path_isdir sys "data" = false
   ∧ os_mkdir sys "data" = Raise ValueError)
  ∨ os_listdir (store sys) "data/C1/" = Raise ValueError
  ∨ ∃ f, f ∈ [1; 2; 3; 4]
         ∧ master sys (master_call "data" "J" 48 true false f) = Raise ValueError.
Proof.
  intros sys.
  apply (exceptions_come_from_three_calls sys "data" "field1234" "20240101" "J" None
           48 true false false false ValueError).
  reflexivity.
Defined.

(** ** Command lines *)

Lemma split_from_sep (cur a b : list ascii) (c : ascii) :
  py_isspace c = true →
  split_from cur (a ++ c :: b) = split_from cur a ++ split_from [] b.
Proof.
  intros Hc. revert cur. induction a as [|x a IH]; intros cur.
  - cbn [app split_from]. rewrite Hc. by destruct cur.
  - cbn [app split_from]. destruct (py_isspace x).
    + destruct cur; by rewrite IH.
    + apply IH.
Qed.

Lemma split_from_word (cur w : list ascii) :
  Forall (λ c, py_isspace c = false) w → cur ++ w ≠ [] →
  split_from cur w = [str (reverse cur ++ w)].
Proof.
  intros Hw. revert cur. induction Hw as [|x w Hx Hw IH]; intros cur Hne.
  - rewrite app_nil_r in *. cbn [split_from]. by destruct cur.
  - cbn [split_from]. rewrite Hx. rewrite IH.
    + by rewrite reverse_cons, <- app_assoc.
    + by destruct cur.
Qed.

Lemma str_chars (s : string) : str (chars s) = s.
Proof. apply String.string_of_list_ascii_of_string. Qed.

Lemma py_split_word (s : string) :
  Forall (λ c, py_isspace c = false) (chars s) → s ≠ "" → py_split s = [s].
Proof.
  intros Hs Hne. unfold py_split. rewrite split_from_word; [|done|].
  - by rewrite reverse_nil, app_nil_l, str_chars.
  - rewrite app_nil_l. intros E. apply Hne. by rewrite <- (str_chars s), E.
Qed.

Lemma py_split_sep (a b : string) :
  py_split (a +:+ " " +:+ b) = py_split a ++ py_split b.
Proof.
  unfold py_split. rewrite !chars_app.
  change (chars " ") with [" "%char]. cbn [app].
  by apply split_from_sep.
Qed.

(** The digits of a number hold no whitespace. *)
Lemma pretty_N_go_word (x : N) (s : string) :
  Forall (λ c, py_isspace c = false) (chars s) → s ≠ "" →
  Forall (λ c, py_isspace c = false) (chars (pretty.pretty_N_go x s))
  ∧ pretty.pretty_N_go x s ≠ "".
Proof.
  revert s. induction (N.lt_wf_0 x) as [x _ IH]; intros s Hs Hne.
  assert (x = 0 ∨ 0 < x)%N as [->|Hx] by lia.
  - by rewrite pretty.pretty_N_go_0.
  - rewrite pretty.pretty_N_go_step by done. apply IH.
    + by apply N.div_lt.
    + change (chars (String ?c ?s)) with (c :: chars s). constructor; [|done].
      unfold pretty.pretty_N_char. by repeat case_match.
    + done.
Qed.

Lemma pretty_N_word (x : N) :
  Forall (λ c, py_isspace c = false) (chars (pretty.pretty x))
  ∧ pretty.pretty x ≠ "".
Proof.
  unfold pretty.pretty, pretty.pretty_N. case_decide as Hx.
  - split; [by repeat constructor|done].
  - rewrite pretty.pretty_N_go_step by lia. apply pretty_N_go_word.
    + change (chars (String ?c ?s)) with (c :: chars s). constructor; [|constructor].
      unfold pretty.pretty_N_char. by repeat case_match.
    + done.
Qed.

Lemma str_of_int_word (x : Z) :
  Forall (λ c, py_isspace c = false) (chars (str_of_int x)) ∧ str_of_int x ≠ "".
Proof.
  unfold str_of_int, pretty.pretty, pretty.pretty_Z. destruct x as [|p|p].
  - split; [by repeat constructor|done].
  - apply (pretty_N_word (N.pos p)).
  - destruct (pretty_N_word (N.pos p)) as [Hw _]. split; [|done].
    rewrite chars_app. apply Forall_app. split; [by repeat constructor|done].
Qed.

Lemma py_split_str_of_int (x : Z) : py_split (str_of_int x) = [str_of_int x].
Proof. destruct (str_of_int_word x). by apply py_split_word. Qed.

Lemma py_split_command (options parentdir band : string) (f : Z) :
  py_split (options +:+ " " +:+ parentdir +:+ " -chip " +:+ str_of_int f
              +:+ " -filter " +:+ band)
  = py_split options ++ py_split parentdir
      ++ ["-chip"; str_of_int f; "-filter"] ++ py_split band.
Proof.
  rewrite py_split_sep. f_equal.
  change (parentdir +:+ " -chip " +:+ str_of_int f +:+ " -filter " +:+ band)
    with (parentdir +:+ " " +:+ "-chip" +:+ " " +:+ str_of_int f +:+ " "
            +:+ "-filter" +:+ " " +:+ band).
  rewrite !py_split_sep, py_split_str_of_int. reflexivity.
Qed.

(** X24: the argument vectors of the three command lines.  The command is
    cut at whitespace after the parent directory and the band have been
    written into it, so each of the two contributes the words it is made
    of: one argument when it holds no whitespace, several when it holds
    some, none when it is empty.  The chip number is always one
    argument. *)
Theorem command_lines_are_cut_at_whitespace (parentdir band : string) (f : Z) :
  py_split (refine_command parentdir f band)
  = ["python"; "./master.py"; "-fpack"; "-refine"; "-angle"; "-FF"; "-sex"; "-parent"]
      ++ py_split parentdir ++ ["-chip"; str_of_int f; "-filter"] ++ py_split band
  ∧ py_split (check_command parentdir f band)
    = ["python"; "./master.py"; "-FF"; "-skygen_start"; "-fpack"; "-parent"]
        ++ py_split parentdir ++ ["-chip"; str_of_int f; "-filter"] ++ py_split band
  ∧ py_split (check_parallel_command parentdir f band)
    = ["python"; "./master.py"; "-fpack"; "-angle"; "-FF"; "-sex"; "-parent"]
        ++ py_split parentdir ++ ["-chip"; str_of_int f; "-filter"] ++ py_split band.
Proof.
  split_and!.
  - apply (py_split_command
             "python ./master.py -fpack -refine -angle -FF -sex -parent").
  - apply (py_split_command "python ./master.py -FF -skygen_start -fpack -parent").
  - apply (py_split_command "python ./master.py -fpack -angle -FF -sex -parent").
Qed.

(** A parent directory with a blank in its name reaches [master.py] as two
    arguments. *)
Example check_command_example :
  py_split (check_command "my data" 3 "J")
  = ["python"; "./master.py"; "-FF"; "-skygen_start"; "-fpack"; "-parent";
     "my"; "data"; "-chip"; "3"; "-filter"; "J"].
Proof. by vm_compute. Qed.

(** ** The check of one chip *)

(** X25: [checkprocess] runs one command and forgives its failure: when the
    command exits with a non-zero status ([CalledProcessError]) the
    function returns as if it had succeeded.  Any other exception of
    [subprocess.run], such as a missing interpreter, is passed on. *)
Theorem checkprocess_forgives_a_failed_command (sys : Sys) (parentdir band : string)
    (chip : Z) :
  let argv := py_split (check_command parentdir chip band) in
  (subprocess_run sys argv = Ok ()
   ∨ (∃ e, subprocess_run sys argv = Raise e ∧ exn_name e = "CalledProcessError") →
   checkprocess sys parentdir chip band = ([ActRun argv], Ok ()))
  ∧ (∀ e, subprocess_run sys argv = Raise e → exn_name e ≠ "CalledProcessError" →
          checkprocess sys parentdir chip band = ([ActRun argv], Raise e)).
Proof.
  intros argv. unfold checkprocess. cbv zeta. fold argv. split.
  - intros [-> | (e & -> & He)]; [done|].
    unfold act, try_except_class. by rewrite bool_decide_eq_true_2.
  - intros e -> He. unfold act, try_except_class. by rewrite bool_decide_eq_false_2.
Qed.

Lemma checkprocess_forgives_a_failed_command_witness :
  let sys := {| store := store example_sys;
                os_path_isdir := os_path_isdir example_sys;
                os_path_isfile := os_path_isfile example_sys;
                os_mkdir := os_mkdir example_sys;
                shutil_copyfile := shutil_copyfile example_sys;
                update_ra_dec := update_ra_dec example_sys;
                download_data := download_data example_sys;
                master := master example_sys;
                subprocess_Popen := subprocess_Popen example_sys;
                subprocess_run := λ _, Raise (StoreError "CalledProcessError") |} in
  checkprocess sys "data" 3 "J" = ([ActRun (py_split (check_command "data" 3 "J"))], Ok ()).
Proof.
  intros sys.
  apply (proj1 (checkprocess_forgives_a_failed_command sys "data" "J" 3)).
  right. exists (StoreError "CalledProcessError"). split; reflexivity.
Defined.

(** ** Chips processed in parallel *)

Lemma for_list_all_ok {A B} (l : list A) (f : A → P B) (tr : A → list action)
    (val : A → B) :
  (∀ x, x ∈ l → f x = (tr x, Ok (val x))) →
  for_list l f = (concat (tr <$> l), Ok (val <$> l)).
Proof.
  induction l as [|x l IH]; intros Hf; [done|].
  cbn [for_list]. rewrite (Hf x) by left. rewrite pbind_Ok, IH.
  - unfold mret, P_ret. rewrite pbind_Ok. cbn [fst snd fmap list_fmap concat].
    by rewrite app_nil_r.
  - intros y Hy. apply Hf. by right.
Qed.

Lemma for_list_fails {A B} (pre post : list A) (x : A) (f : A → P B)
    (tr : A → list action) (val : A → B) (t : list action) (e : exn) :
  (∀ y, y ∈ pre → f y = (tr y, Ok (val y))) → f x = (t, Raise e) →
  for_list (pre ++ x :: post) f = (concat (tr <$> pre) ++ t, Raise e).
Proof.
  intros Hpre Hx. induction pre as [|y pre IH].
  - cbn [app for_list]. by rewrite Hx.
  - cbn [app for_list]. rewrite (Hpre y) by left. rewrite pbind_Ok, IH.
    + rewrite pbind_Raise. cbn [fst snd fmap list_fmap concat]. by rewrite app_assoc.
    + intros z Hz. apply Hpre. by right.
Qed.

Lemma run_in_parallel_all_started (sys : Sys) (commands : list string) :
  (∀ c, c ∈ commands → subprocess_Popen sys (py_split c) = Ok ()) →
  run_in_parallel sys commands
  = ((ActPopen ∘ py_split <$> commands) ++ (ActWait ∘ py_split <$> commands), Ok ()).
Proof.
  intros Hok. unfold run_in_parallel.
  rewrite (for_list_all_ok _ _ (λ c, [ActPopen (py_split c)]) py_split).
  - rewrite pbind_Ok.
    rewrite (for_each_all_ok _ _ (λ p, [ActWait p])) by done.
    cbn [fst snd]. rewrite !concat_singletons, <- list_fmap_compose. done.
  - intros c Hc. by rewrite (Hok c Hc).
Qed.

Lemma run_in_parallel_start_fails (sys : Sys) (pre post : list string) (c : string)
    (e : exn) :
  (∀ c', c' ∈ pre → subprocess_Popen sys (py_split c') = Ok ()) →
  subprocess_Popen sys (py_split c) = Raise e →
  run_in_parallel sys (pre ++ c :: post)
  = (ActPopen ∘ py_split <$> pre ++ [c], Raise e).
Proof.
  intros Hok Hc. unfold run_in_parallel.
  rewrite (for_list_fails pre post c _ (λ c, [ActPopen (py_split c)]) py_split
             [ActPopen (py_split c)] e).
  - by rewrite pbind_Raise, concat_singletons, fmap_app.
  - intros c' Hc'. by rewrite (Hok c' Hc').
  - by rewrite Hc.
Qed.

(** X26: the two parallel runners start one process per chip, in the order
    of the chips, before they wait for any of them, and then wait for each
    in the same order.  When a process cannot be started the exception is
    passed on at once: the chips after it are not started and the
    processes already running are never awaited. *)
Theorem parallel_runs_start_every_chip_before_waiting (sys : Sys)
    (parentdir band : string) (chips : list Z) (run : P unit)
    (argv : Z → list string) :
  (run = refineprocessparallel sys parentdir chips band
   ∧ argv = (λ f, py_split (refine_command parentdir f band)))
  ∨ (run = checkprocessparallel sys parentdir chips band
     ∧ argv = (λ f, py_split (check_parallel_command parentdir f band))) →
  ((∀ f, f ∈ chips → subprocess_Popen sys (argv f) = Ok ()) →
   run = ((ActPopen ∘ argv <$> chips) ++ (ActWait ∘ argv <$> chips), Ok ()))
  ∧ (∀ pre post f e,
       chips = pre ++ f :: post →
       (∀ f', f' ∈ pre → subprocess_Popen sys (argv f') = Ok ()) →
       subprocess_Popen sys (argv f) = Raise e →
       run = (ActPopen ∘ argv <$> pre ++ [f], Raise e)).
Proof.
  intros [[-> ->] | [-> ->]].
  - unfold refineprocessparallel. cbv zeta. split.
    + intros Hok. rewrite run_in_parallel_all_started.
      * by rewrite <- !list_fmap_compose.
      * intros c (f & -> & Hf)%list_elem_of_fmap. by apply Hok.
    + intros pre post f e -> Hok Hf.
      rewrite fmap_app, fmap_cons, (run_in_parallel_start_fails sys _ _ _ e).
      * by rewrite !fmap_app, <- list_fmap_compose.
      * intros c (f' & -> & Hf')%list_elem_of_fmap. by apply Hok.
      * done.
  - unfold checkprocessparallel. cbv zeta. split.
    + intros Hok. rewrite run_in_parallel_all_started.
      * by rewrite <- !list_fmap_compose.
      * intros c (f & -> & Hf)%list_elem_of_fmap. by apply Hok.
    + intros pre post f e -> Hok Hf.
      rewrite fmap_app, fmap_cons, (run_in_parallel_start_fails sys _ _ _ e).
      * by rewrite !fmap_app, <- list_fmap_compose.
      * intros c (f' & -> & Hf')%list_elem_of_fmap. by apply Hok.
      * done.
Qed.

Lemma parallel_runs_start_every_chip_before_waiting_witness :
  let argv := λ f, py_split (refine_command "data" f "J") in
  refineprocessparallel example_sys "data" [1; 2] "J"
  = ((ActPopen ∘ argv <$> [1; 2]) ++ (ActWait ∘ argv <$> [1; 2]), Ok ()).
Proof.
  intros argv.
  apply (parallel_runs_start_every_chip_before_waiting example_sys "data" "J" [1; 2]
           (refineprocessparallel example_sys "data" [1; 2] "J") argv).
  - left. split; reflexivity.
  - intros f _. reflexivity.
Defined.

(** The same run, evaluated. *)
Example refineprocessparallel_example :
  refineprocessparallel example_sys "data" [1; 2] "J"
  = (let argv := λ chip, ["python"; "./master.py"; "-fpack"; "-refine"; "-angle";
                          "-FF"; "-sex"; "-parent"; "data"; "-chip"; chip;
                          "-filter"; "J"] in
     [ActPopen (argv "1"); ActPopen (argv "2"); ActWait (argv "1"); ActWait (argv "2")],
     Ok ()).
Proof. by vm_compute. Qed.

(** ** The directory mode without an output directory *)

(** X28: given a directory and no output directory, the astrometry script
    updates the frames where they are: it lists the directory once and runs
    [update_ra_dec] on every entry that has a frame name, in the order of
    the listing (the entries are not sorted here), and on no other entry;
    nothing is copied or renamed. *)
Theorem directory_mode_updates_frames_in_place (sys : Sys) (input : string)
    (ls : list string) :
  os_path_isdir sys input = true →
  os_listdir (store sys) input = Ok ls →
  (∀ f, f ∈ ls → is_frame_name f = true →
        update_ra_dec sys (path_join input f) = Ok ()) →
  astromangle_main sys input None
  = (ActIsdir input :: ActStore (EvListdir input)
       :: (ActUpdateRaDec ∘ path_join input
           <$> filter (λ f, is_frame_name f = true) ls),
     Ok ()).
Proof.
  intros Hdir Hls Hok. unfold astromangle_main.
  rewrite Hdir, pbind_act_Ok. cbv beta iota.
  unfold update_ra_dec_directory, get_files, on_store, call. rewrite Hls.
  cbn [mbind M_bind mret M_ret fst snd app fmap list_fmap].
  rewrite pbind_Ok. cbv zeta.
  rewrite (for_each_all_ok _ _ (λ p, [ActUpdateRaDec p])).
  - cbn [fst snd app]. by rewrite concat_singletons, <- list_fmap_compose.
  - intros p (f & -> & [Hf Hin]%list_elem_of_filter)%list_elem_of_fmap.
    by rewrite (Hok f Hin Hf).
Qed.

Lemma directory_mode_updates_frames_in_place_witness :
  let ls := ["00087802C3.ramp.fits"; "notes.txt"; "00087801C3.fits"] in
  let sys := {| store := example_env "raw" ((λ f, (f, [])) <$> ls);
                os_path_isdir := λ _, true;
                os_path_isfile := λ _, false;
                os_mkdir := λ _, Ok ();
                shutil_copyfile := λ _ _, Ok ();
                update_ra_dec := λ _, Ok ();
                download_data := λ _, Ok ();
                master := λ _, Ok ();
                subprocess_Popen := λ _, Ok ();
                subprocess_run := λ _, Ok () |} in
  astromangle_main sys "raw" None
  = (ActIsdir "raw" :: ActStore (EvListdir "raw")
       :: (ActUpdateRaDec ∘ path_join "raw"
           <$> filter (λ f, is_frame_name f = true) ls),
     Ok ()).
Proof.
  intros ls sys. apply (directory_mode_updates_frames_in_place sys "raw" ls).
  - reflexivity.
  - reflexivity.
  - intros f _ _. reflexivity.
Defined.

(** The same run, evaluated. *)
Example astromangle_main_example :
  let ls := ["00087802C3.ramp.fits"; "notes.txt"; "00087801C3.fits"] in
  let sys := {| store := example_env "raw" ((λ f, (f, [])) <$> ls);
                os_path_isdir := λ _, true;
                os_path_isfile := λ _, false;
                os_mkdir := λ _, Ok ();
                shutil_copyfile := λ _ _, Ok ();
                update_ra_dec := λ _, Ok ();
                download_data := λ _, Ok ();
                master := λ _, Ok ();
                subprocess_Popen := λ _, Ok ();
                subprocess_run := λ _, Ok () |} in
  astromangle_main sys "raw" None
  = ([ActIsdir "raw"; ActStore (EvListdir "raw");
      ActUpdateRaDec "raw/00087802C3.ramp.fits";
      ActUpdateRaDec "raw/00087801C3.fits"], Ok ()).
Proof. by vm_compute. Qed.
